(** * FocusFi: the Pomodoro timer (timer.js)

    A shallow embedding of the [PomodoroTimer] class and of the part of the
    browser it talks to (the table of repeating intervals and the three
    optional observer callbacks), followed by the properties of the session
    state machine.

    Conventions of the embedding.
    - JavaScript numbers that hold integers are [Z].  The arithmetic the
      class performs on its own state ([-= 1], [+= 1], [* 60], [% 4],
      [Math.min], [Math.max]) is exact on the integers met there, which a
      Number holds exactly.  [format], which is given any number of
      seconds, and the formatters of app.js divide and print as Numbers
      do: with the rounding of binary64 and the digits of [String] (see
      Numbers below).
    - A mode name is one of the three keys of [this.durations].
    - A method is a computation in the state monad [M] over a [World]: the
      timer object [this] together with the host's interval table and the
      list of callback invocations made so far.
    - A callback is either supplied or [null]; invoking a supplied callback
      appends the call, with its arguments, to [calls]. *)

From Stdlib Require Import ZArith List String Ascii Bool Lia.
From Stdlib Require Import DecimalString DecimalZ.
Import ListNotations.

Local Open Scope Z_scope.

(** ** Data *)

Inductive Mode : Type := focus | short | long.

Definition Mode_eqb (a b : Mode) : bool :=
  match a, b with
  | focus, focus | short, short | long, long => true
  | _, _ => false
  end.

(** [this.durations]: seconds per mode. *)
Record Durations : Type := mkDurations {
  d_focus : Z;
  d_short : Z;
  d_long  : Z
}.

(** [durations[mode]] *)
Definition dget (d : Durations) (m : Mode) : Z :=
  match m with
  | focus => d_focus d
  | short => d_short d
  | long  => d_long d
  end.

(** [durations[mode] = secs] *)
Definition dset (d : Durations) (m : Mode) (secs : Z) : Durations :=
  match m with
  | focus => mkDurations secs (d_short d) (d_long d)
  | short => mkDurations (d_focus d) secs (d_long d)
  | long  => mkDurations (d_focus d) (d_short d) secs
  end.

(** The constructor's options: which callbacks the caller supplied. *)
Record Opts : Type := mkOpts {
  opt_onTick       : bool;
  opt_onEnd        : bool;
  opt_onModeChange : bool
}.

(** One invocation of a callback, with its arguments. *)
Inductive Call : Type :=
| OnTick (secondsLeft : Z) (mode : Mode)
| OnEnd (mode : Mode) (totalFocusSessions : Z)
| OnModeChange (mode : Mode).

(** The fields of a [PomodoroTimer] instance. *)
Record Timer : Type := mkTimer {
  durations     : Durations;
  mode          : Mode;
  timeLeft      : Z;
  isRunning     : bool;
  focusSessions : Z;
  _interval     : option nat;
  onTick        : bool;
  onEnd         : bool;
  onModeChange  : bool
}.

(** The timer inside its host: [intervals] are the handles of the repeating
    intervals currently registered with [setInterval] (each of them runs
    [this._tick ()]), in the order they were registered. *)
Record World : Type := mkWorld {
  this       : Timer;
  intervals  : list nat;
  nextHandle : nat;
  calls      : list Call
}.

(** ** Field updates *)

Definition set_durations (v : Durations) (t : Timer) : Timer :=
  mkTimer v (mode t) (timeLeft t) (isRunning t) (focusSessions t)
          (_interval t) (onTick t) (onEnd t) (onModeChange t).

Definition set_mode (v : Mode) (t : Timer) : Timer :=
  mkTimer (durations t) v (timeLeft t) (isRunning t) (focusSessions t)
          (_interval t) (onTick t) (onEnd t) (onModeChange t).

Definition set_timeLeft (v : Z) (t : Timer) : Timer :=
  mkTimer (durations t) (mode t) v (isRunning t) (focusSessions t)
          (_interval t) (onTick t) (onEnd t) (onModeChange t).

Definition set_isRunning (v : bool) (t : Timer) : Timer :=
  mkTimer (durations t) (mode t) (timeLeft t) v (focusSessions t)
          (_interval t) (onTick t) (onEnd t) (onModeChange t).

Definition set_focusSessions (v : Z) (t : Timer) : Timer :=
  mkTimer (durations t) (mode t) (timeLeft t) (isRunning t) v
          (_interval t) (onTick t) (onEnd t) (onModeChange t).

Definition set__interval (v : option nat) (t : Timer) : Timer :=
  mkTimer (durations t) (mode t) (timeLeft t) (isRunning t) (focusSessions t)
          v (onTick t) (onEnd t) (onModeChange t).

(** ** The state monad of methods *)

Definition M (A : Type) : Type := World -> A * World.

Definition ret {A : Type} (a : A) : M A := fun w => (a, w).

Definition bind {A B : Type} (c : M A) (k : A -> M B) : M B :=
  fun w => let (a, w') := c w in k a w'.

Declare Scope timer_scope.
Delimit Scope timer_scope with timer.
Notation "x <- c ;; k" := (bind c (fun x => k))
  (at level 61, c at next level, right associativity) : timer_scope.
Notation "c ;; k" := (bind c (fun _ => k))
  (at level 61, right associativity) : timer_scope.
Local Open Scope timer_scope.

(** Final world and returned value of a computation. *)
Definition exec {A : Type} (c : M A) (w : World) : World := snd (c w).
Definition eval {A : Type} (c : M A) (w : World) : A := fst (c w).

(** [this.f] *)
Definition read {A : Type} (f : Timer -> A) : M A :=
  fun w => (f (this w), w).

(** [this.f = v] *)
Definition write (upd : Timer -> Timer) : M unit :=
  fun w => (tt, mkWorld (upd (this w)) (intervals w) (nextHandle w) (calls w)).

(** [setInterval (() => this._tick (), 1000)]: registers a new interval and
    returns its handle. *)
Definition setInterval : M nat :=
  fun w => (nextHandle w,
            mkWorld (this w) (intervals w ++ [nextHandle w])
                    (S (nextHandle w)) (calls w)).

(** [clearInterval (handle)]: unregisters the interval; [null] and handles
    that are not registered are ignored. *)
Definition clearInterval (handle : option nat) : M unit :=
  fun w =>
    match handle with
    | None => (tt, w)
    | Some h =>
        (tt, mkWorld (this w)
                     (filter (fun h' => negb (Nat.eqb h' h)) (intervals w))
                     (nextHandle w) (calls w))
    end.

(** Invocation of a supplied callback. *)
Definition invoke (c : Call) : M unit :=
  fun w => (tt, mkWorld (this w) (intervals w) (nextHandle w) (calls w ++ [c])).

(** [if (cond) body] *)
Definition when (cond : bool) (body : M unit) : M unit :=
  if cond then body else ret tt.

(** ** The class *)

(** [constructor (opts = {})] *)
Definition constructor (opts : Opts) : Timer :=
  let durations := mkDurations (25 * 60) (5 * 60) (15 * 60) in
  mkTimer durations focus (d_focus durations) false 0 None
          (opt_onTick opts) (opt_onEnd opts) (opt_onModeChange opts).

Definition start : M unit :=
  running <- read isRunning ;;
  if running then ret tt
  else
    write (set_isRunning true) ;;
    h <- setInterval ;;
    write (set__interval (Some h)).

Definition pause : M unit :=
  write (set_isRunning false) ;;
  h <- read _interval ;;
  clearInterval h ;;
  write (set__interval None).

Definition toggle : M bool :=
  running <- read isRunning ;;
  (if running then pause else start) ;;
  read isRunning.

Definition reset : M unit :=
  pause ;;
  d <- read durations ;;
  m <- read mode ;;
  write (set_timeLeft (dget d m)) ;;
  cb <- read onTick ;;
  tl <- read timeLeft ;;
  m <- read mode ;;
  when cb (invoke (OnTick tl m)).

Definition setMode (mode : Mode) : M unit :=
  write (set_mode mode) ;;
  d <- read durations ;;
  write (set_timeLeft (dget d mode)) ;;
  pause ;;
  cb <- read onModeChange ;;
  when cb (invoke (OnModeChange mode)) ;;
  cb <- read onTick ;;
  tl <- read timeLeft ;;
  when cb (invoke (OnTick tl mode)).

Definition setDuration (mode' : Mode) (minutes : Z) : M unit :=
  let secs := Z.max 1 (Z.min 99 minutes) * 60 in
  d <- read durations ;;
  write (set_durations (dset d mode' secs)) ;;
  m <- read mode ;;
  if Mode_eqb m mode' then reset else ret tt.

Definition _handleEnd : M unit :=
  endedMode <- read mode ;;
  n <- read focusSessions ;;
  when (Mode_eqb endedMode focus) (write (set_focusSessions (n + 1))) ;;
  cb <- read onEnd ;;
  n <- read focusSessions ;;
  when cb (invoke (OnEnd endedMode n)) ;;
  if Mode_eqb endedMode focus then
    n <- read focusSessions ;;
    setMode (if Z.rem n 4 =? 0 then long else short)
  else
    setMode focus.

Definition _tick : M unit :=
  tl <- read timeLeft ;;
  write (set_timeLeft (tl - 1)) ;;
  cb <- read onTick ;;
  tl <- read timeLeft ;;
  m <- read mode ;;
  when cb (invoke (OnTick tl m)) ;;
  tl <- read timeLeft ;;
  if tl <=? 0 then _handleEnd else ret tt.

(** ** The host's clock *)

(** The host runs the callback of interval [h], unless the interval has been
    cleared in the meantime. *)
Definition fire (h : nat) : M unit :=
  fun w => if existsb (Nat.eqb h) (intervals w) then _tick w else (tt, w).

Fixpoint fire_each (hs : list nat) : M unit :=
  match hs with
  | [] => ret tt
  | h :: hs' => fire h ;; fire_each hs'
  end.

(** One second of wall-clock time: every registered interval fires once. *)
Definition second : M unit :=
  fun w => fire_each (intervals w) w.

Fixpoint seconds (n : nat) : M unit :=
  match n with
  | O => ret tt
  | S n' => second ;; seconds n'
  end.

(** A freshly constructed timer in a host with no interval registered. *)
Definition fresh (opts : Opts) : World :=
  mkWorld (constructor opts) [] 1%nat [].

(** The caller starts the countdown and lets it run for as many seconds as
    the session has left. *)
Definition run_out : M unit :=
  fun w => (start ;; seconds (Z.to_nat (timeLeft (this w)))) w.

(** [k] sessions in a row, each started by the caller and left to expire. *)
Fixpoint sessions (k : nat) : M unit :=
  match k with
  | O => ret tt
  | S k' => run_out ;; sessions k'
  end.

(** ** Events a caller or the host can deliver

    [setDuration] is called with an integer for [minutes]; a call with
    [NaN], which app.js makes when the text of an input does not parse,
    is not among the events. *)

Inductive Op : Type :=
| OStart
| OPause
| OToggle
| OReset
| OSetMode (mode : Mode)
| OSetDuration (mode : Mode) (minutes : Z)
| OSecond.

Definition step (o : Op) : M unit :=
  match o with
  | OStart => start
  | OPause => pause
  | OToggle => toggle ;; ret tt
  | OReset => reset
  | OSetMode m => setMode m
  | OSetDuration m minutes => setDuration m minutes
  | OSecond => second
  end.

Fixpoint run (ops : list Op) (w : World) : World :=
  match ops with
  | [] => w
  | o :: ops' => run ops' (exec (step o) w)
  end.

(** The states a timer can be in. *)
Inductive reachable : World -> Prop :=
| reachable_fresh (opts : Opts) : reachable (fresh opts)
| reachable_step (o : Op) (w : World) :
    reachable w -> reachable (exec (step o) w).

(** ** Numbers

    What [format] and the tools of app.js compute with are Numbers, the
    binary64 values of IEEE 754.  A Number whose value is an integer is
    that integer, in [Z]: every integer up to [2 ^ 53] in absolute value
    is a Number, and from [2 ^ 52] on every Number is an integer.  A
    quotient is rounded to the nearest value with a significand of 53
    bits, ties to the even significand; it is kept as a significand and a
    binary exponent until [Math.floor] turns it into an integer again.
    NaN, the infinities and quotients below the normal range are not
    part of the model. *)

(** [Number.MAX_SAFE_INTEGER] *)
Definition MAX_SAFE_INTEGER : Z := 2 ^ 53 - 1.

(** [m + r / d], for [0 <= r < d], rounded to the nearest integer, to the
    even one when [r / d] is a half. *)
Definition nearest_even (m r d : Z) : Z :=
  if (d <? 2 * r) || ((2 * r =? d) && Z.odd m) then m + 1 else m.

(** Whether [2 ^ l <= a / b], for positive [a] and [b]. *)
Definition le_pow2 (l a b : Z) : bool :=
  if 0 <=? l then b * 2 ^ l <=? a else b <=? a * 2 ^ (- l).

(** The binary exponent of [a / b]: the [l] with
    [2 ^ l <= a / b < 2 ^ (l + 1)]. *)
Definition exponent (a b : Z) : Z :=
  let l := Z.log2 a - Z.log2 b in
  if le_pow2 l a b then l else l - 1.

(** The Number [a / b] for positive integers [a] and [b]: the pair
    [(m, e)] stands for [m * 2 ^ e], with [2 ^ 52 <= m <= 2 ^ 53]. *)
Definition quotient (a b : Z) : Z * Z :=
  let e := exponent a b - 52 in
  if 0 <=? e
  then (nearest_even (a / (b * 2 ^ e)) (a mod (b * 2 ^ e)) (b * 2 ^ e), e)
  else (nearest_even (a * 2 ^ (- e) / b) (a * 2 ^ (- e) mod b) b, e).

(** [a / b] for an integer Number [a] and a positive integer [b]. *)
Definition divide (a b : Z) : Z * Z :=
  if a =? 0 then (0, 0)
  else let (m, e) := quotient (Z.abs a) b in (Z.sgn a * m, e).

(** [Math.floor (x)] of the Number [m * 2 ^ e]. *)
Definition Math_floor (x : Z * Z) : Z :=
  let (m, e) := x in
  if 0 <=? e then m * 2 ^ e else m / 2 ^ (- e).

(** The Number nearest to the integer [y]. *)
Definition Number_of (y : Z) : Z := Math_floor (divide y 1).

(** The decimal numeral of an integer, every digit of it. *)
Definition decimal (n : Z) : string := NilZero.string_of_int (Z.to_int n).

(** [n] zeros. *)
Definition zeros (n : Z) : string :=
  concat "" (repeat "0"%string (Z.to_nat n)).

(** The number of decimal digits of [x >= 1]. *)
Fixpoint digit_count_from (fuel : nat) (d : Z) (x : Z) : Z :=
  match fuel with
  | O => d
  | S fuel' => if x <? 10 ^ d then d else digit_count_from fuel' (d + 1) x
  end.

Definition digit_count (x : Z) : Z :=
  digit_count_from (Z.to_nat (Z.log2 x)) 1 x.

(** [Number::toString] looks for integers [n], [k] and [s] with
    [10 ^ (k - 1) <= s < 10 ^ k] such that [s * 10 ^ (n - k)] is a
    decimal whose Number is [x], with [k] as small as possible.
    [candidates x k] are the pairs [(s, n)] that qualify for a given [k]:
    [n] is the number of digits of [x] or one more, and [s] is one of
    the two [k]-digit numbers around [x / 10 ^ (n - k)]. *)
Definition candidates (x k : Z) : list (Z * Z) :=
  flat_map
    (fun n =>
       filter (fun c => (k <=? n) && (10 ^ (k - 1) <=? fst c)
                        && (fst c <? 10 ^ k)
                        && (Number_of (fst c * 10 ^ (n - k)) =? x))
              [(x / 10 ^ (n - k), n); (x / 10 ^ (n - k) + 1, n)])
    [digit_count x; digit_count x + 1].

(** How far the decimal of a candidate is from [x]. *)
Definition off (x k : Z) (c : Z * Z) : Z :=
  Z.abs (fst c * 10 ^ (snd c - k) - x).

(** Among several candidates the one closest to [x] is taken, the one
    with the even [s] when two are as close.  (The standard leaves the
    last digit open when several [s] qualify and recommends this choice,
    which is what engines do.) *)
Definition better (x k : Z) (c best : Z * Z) : bool :=
  (off x k c <? off x k best)
  || ((off x k c =? off x k best) && Z.even (fst c) && Z.odd (fst best)).

Fixpoint closest (x k : Z) (cs : list (Z * Z)) : option (Z * Z) :=
  match cs with
  | [] => None
  | c :: cs' =>
      match closest x k cs' with
      | Some best => Some (if better x k c best then c else best)
      | None => Some c
      end
  end.

Fixpoint shortest_from (fuel : nat) (k : Z) (x : Z) : option (Z * Z * Z) :=
  match fuel with
  | O => None
  | S fuel' =>
      match closest x k (candidates x k) with
      | Some (s, n) => Some (s, k, n)
      | None => shortest_from fuel' (k + 1) x
      end
  end.

(** The shortest digits [(s, k, n)] of a Number [x >= 1]: seventeen
    digits tell any two Numbers apart. *)
Definition shortest (x : Z) : option (Z * Z * Z) := shortest_from 17 1 x.

(** [String (x)] for an integer Number [x >= 1]: the digits of [s]
    followed by [n - k] zeros up to [n = 21], and from there on the first
    digit, a point and the other digits when there are any, and an
    exponent. *)
Definition String_pos (x : Z) : string :=
  match shortest x with
  | Some (s, k, n) =>
      if n <=? 21 then (decimal s ++ zeros (n - k))%string
      else match decimal s with
           | String c EmptyString =>
               (String c "" ++ "e+" ++ decimal (n - 1))%string
           | String c rest =>
               (String c "" ++ "." ++ rest ++ "e+" ++ decimal (n - 1))%string
           | EmptyString => EmptyString
           end
  | None => decimal x
  end.

(** [String (x)] for an integer Number [x]. *)
Definition String_ (x : Z) : string :=
  if x =? 0 then "0"%string
  else if x <? 0 then ("-" ++ String_pos (- x))%string
  else String_pos x.

(** ** [format] *)

(** The first [n] characters of [fill] repeated for ever ([fill] is not
    empty). *)
Definition filler (fill : string) (n : nat) : string :=
  substring 0 n (concat "" (repeat fill n)).

(** [str.padStart (targetLength, padString)] *)
Definition padStart (str : string) (targetLength : nat) (padString : string)
  : string :=
  if (targetLength <=? String.length str)%nat then str
  else if (String.length padString =? 0)%nat then str
  else filler padString (targetLength - String.length str) ++ str.

Definition format (seconds : Z) : string :=
  let m := padStart (String_ (Math_floor (divide seconds 60))) 2 "0" in
  let s := padStart (String_ (Z.rem seconds 60)) 2 "0" in
  m ++ ":" ++ s.

(** ** Vocabulary of the statements *)

(** Whether the callback a call goes to was supplied. *)
Definition supplied (t : Timer) (c : Call) : bool :=
  match c with
  | OnTick _ _ => onTick t
  | OnEnd _ _ => onEnd t
  | OnModeChange _ => onModeChange t
  end.

(** The calls among [cs] that reach a supplied callback. *)
Definition heard (t : Timer) (cs : list Call) : list Call :=
  filter (supplied t) cs.

(** The fields [pause] assigns. *)
Definition stopped (t : Timer) : Timer :=
  set__interval None (set_isRunning false t).

(** [clamp (minutes, 1, 99)] *)
Definition clamp (x lo hi : Z) : Z :=
  if x <? lo then lo else if hi <? x then hi else x.

(** A natural expiry is about to happen: the countdown is running and its
    next tick brings [timeLeft] to zero. *)
Definition expiring (w : World) : Prop :=
  isRunning (this w) = true /\ timeLeft (this w) = 1.

(** [timeLeft] holds the whole duration of the current mode. *)
Definition full (w : World) : Prop :=
  timeLeft (this w) = dget (durations (this w)) (mode (this w)).

(** The natural expiry of a focus session. *)
Definition focus_expiry (o : Op) (w : World) : Prop :=
  o = OSecond /\ expiring w /\ mode (this w) = focus.

(** The host and the timer agree on the countdown: the only registered
    interval is the one stored in [_interval], and there is one exactly when
    the timer is running. *)
Definition host_ok (w : World) : Prop :=
  intervals w = match _interval (this w) with Some h => [h] | None => [] end
  /\ isRunning (this w) =
     match _interval (this w) with Some _ => true | None => false end.

Definition duration_ok (secs : Z) : Prop := 60 <= secs <= 99 * 60.

(** The invariant of the reachable states. *)
Definition Inv (w : World) : Prop :=
  host_ok w
  /\ (forall m, duration_ok (dget (durations (this w)) m))
  /\ 1 <= timeLeft (this w) <= dget (durations (this w)) (mode (this w))
  /\ 0 <= focusSessions (this w).

(** What an observer can rely on in the arguments of a call: the seconds
    reported by onTick are between 0 and the longest duration that can be
    configured, the session count reported by onEnd is not negative. *)
Definition call_ok (c : Call) : Prop :=
  match c with
  | OnTick secs _ => 0 <= secs <= 99 * 60
  | OnEnd _ n => 0 <= n
  | OnModeChange _ => True
  end.

(** The mode [_handleEnd] advances to, from the mode that ended and the
    session count after the increment. *)
Definition successor (ended : Mode) (sessions : Z) : Mode :=
  match ended with
  | focus => if Z.rem sessions 4 =? 0 then long else short
  | _ => focus
  end.

(** The session count after a session of mode [ended] has expired. *)
Definition counted (ended : Mode) (sessions : Z) : Z :=
  match ended with
  | focus => sessions + 1
  | _ => sessions
  end.

(** The mode and the session count after one session has expired. *)
Definition advance (s : Mode * Z) : Mode * Z :=
  let n := counted (fst s) (snd s) in (successor (fst s) n, n).

(** ** [format] as the specification describes it *)

(** As the specification words it: the numeral is padded on the left with
    zeros up to [width] characters. *)
Definition zero_padded (width : nat) (str : string) : string :=
  concat "" (repeat "0"%string (width - String.length str)) ++ str.

(** As the specification words it: [floor (s / 60)] and [s mod 60], each in
    decimal and padded to two digits, joined by a colon. *)
Definition spec_format (s : Z) : string :=
  zero_padded 2 (decimal (s / 60)) ++ ":" ++ zero_padded 2 (decimal (s mod 60)).

(** The number a string of decimal digits stands for. *)
Definition value (str : string) : option Z :=
  option_map Z.of_uint (NilZero.uint_of_string str).

(** ** The session indicator of the timer *)

(** A JavaScript string as the list of its UTF-16 code units. *)
Definition CodeUnits : Type := list N.

(** ['●'] and ['○'] *)
Definition black_circle : N := 0x25CF%N.
Definition white_circle : N := 0x25CB%N.

(** [str.repeat (count)]: a negative count throws a RangeError. *)
Definition String_repeat (str : CodeUnits) (count : Z) : option CodeUnits :=
  if count <? 0 then None
  else Some (List.concat (repeat str (Z.to_nat count))).

(** [get dots] *)
Definition dots (t : Timer) : option CodeUnits :=
  let filled := Z.rem (focusSessions t) 4 in
  match String_repeat [black_circle] filled with
  | None => None
  | Some a =>
      match String_repeat [white_circle] (4 - filled) with
      | None => None
      | Some b => Some (a ++ b)
      end
  end.

(** [get sessionNumber] *)
Definition sessionNumber (t : Timer) : Z := Z.rem (focusSessions t) 4 + 1.

(** ** The timer's caller in app.js *)

(** The change handler of the break length input, on an input that
    [parseInt] reads as the integer [mins]. *)
Definition inp_break_change (mins : Z) : M unit :=
  setDuration short mins ;;
  setDuration long (mins * 3).

(** ** Every event, case by case *)

(** What an event makes of a world in which the host and the timer agree
    on the countdown. *)
Inductive step_spec (w : World) : Op -> World -> Prop :=
| ss_start_running :
    isRunning (this w) = true ->
    step_spec w OStart w
| ss_start_paused :
    isRunning (this w) = false ->
    step_spec w OStart
      (mkWorld (set__interval (Some (nextHandle w))
                  (set_isRunning true (this w)))
               [nextHandle w] (S (nextHandle w)) (calls w))
| ss_pause :
    step_spec w OPause (mkWorld (stopped (this w)) [] (nextHandle w) (calls w))
| ss_toggle_running :
    isRunning (this w) = true ->
    step_spec w OToggle
      (mkWorld (stopped (this w)) [] (nextHandle w) (calls w))
| ss_toggle_paused :
    isRunning (this w) = false ->
    step_spec w OToggle
      (mkWorld (set__interval (Some (nextHandle w))
                  (set_isRunning true (this w)))
               [nextHandle w] (S (nextHandle w)) (calls w))
| ss_reset :
    step_spec w OReset
      (mkWorld (set_timeLeft (dget (durations (this w)) (mode (this w)))
                  (stopped (this w)))
               [] (nextHandle w)
               (calls w ++
                heard (this w)
                  [OnTick (dget (durations (this w)) (mode (this w)))
                          (mode (this w))]))
| ss_setMode (m : Mode) :
    step_spec w (OSetMode m)
      (mkWorld (set_timeLeft (dget (durations (this w)) m)
                  (set_mode m (stopped (this w))))
               [] (nextHandle w)
               (calls w ++
                heard (this w)
                  [OnModeChange m; OnTick (dget (durations (this w)) m) m]))
| ss_setDuration_other (m : Mode) (minutes : Z) :
    mode (this w) <> m ->
    step_spec w (OSetDuration m minutes)
      (mkWorld (set_durations
                  (dset (durations (this w)) m
                        (Z.max 1 (Z.min 99 minutes) * 60)) (this w))
               (intervals w) (nextHandle w) (calls w))
| ss_setDuration_active (minutes : Z) :
    step_spec w (OSetDuration (mode (this w)) minutes)
      (mkWorld (set_timeLeft (Z.max 1 (Z.min 99 minutes) * 60)
                  (stopped
                     (set_durations
                        (dset (durations (this w)) (mode (this w))
                              (Z.max 1 (Z.min 99 minutes) * 60)) (this w))))
               [] (nextHandle w)
               (calls w ++
                heard (this w)
                  [OnTick (Z.max 1 (Z.min 99 minutes) * 60) (mode (this w))]))
| ss_second_paused :
    isRunning (this w) = false ->
    step_spec w OSecond w
| ss_second_counting :
    isRunning (this w) = true -> 1 < timeLeft (this w) ->
    step_spec w OSecond
      (mkWorld (set_timeLeft (timeLeft (this w) - 1) (this w))
               (intervals w) (nextHandle w)
               (calls w ++
                heard (this w)
                  [OnTick (timeLeft (this w) - 1) (mode (this w))]))
| ss_second_expiring :
    expiring w ->
    step_spec w OSecond
      (mkWorld
         (set_timeLeft
            (dget (durations (this w))
               (successor (mode (this w))
                  (counted (mode (this w)) (focusSessions (this w)))))
            (set_mode
               (successor (mode (this w))
                  (counted (mode (this w)) (focusSessions (this w))))
               (set_focusSessions
                  (counted (mode (this w)) (focusSessions (this w)))
                  (stopped (this w)))))
         [] (nextHandle w)
         (calls w ++
          heard (this w)
            [OnTick 0 (mode (this w));
             OnEnd (mode (this w))
               (counted (mode (this w)) (focusSessions (this w)));
             OnModeChange
               (successor (mode (this w))
                  (counted (mode (this w)) (focusSessions (this w))));
             OnTick
               (dget (durations (this w))
                  (successor (mode (this w))
                     (counted (mode (this w)) (focusSessions (this w)))))
               (successor (mode (this w))
                  (counted (mode (this w)) (focusSessions (this w))))])).

(** The session counts that onEnd has reported for focus sessions. *)
Fixpoint focus_ends (cs : list Call) : list Z :=
  match cs with
  | [] => []
  | OnEnd focus n :: cs' => n :: focus_ends cs'
  | _ :: cs' => focus_ends cs'
  end.

(** No onEnd call among [cs]. *)
Definition no_end (cs : list Call) : Prop :=
  forall m n, ~ In (OnEnd m n) cs.

(** [1; 2; ...; n] *)
Definition upto (n : Z) : list Z := map Z.of_nat (seq 1 (Z.to_nat n)).

(** The ticks onTick hears while [n] seconds of a countdown pass from
    [left] seconds in mode [m]. *)
Definition countdown_ticks (left : Z) (m : Mode) (n : nat) : list Call :=
  map (fun i => OnTick (left - Z.of_nat i) m) (seq 1 n).

(** The arguments of the last onTick call among [cs], [shown] when there
    is none. *)
Fixpoint last_tick (shown : Z * Mode) (cs : list Call) : Z * Mode :=
  match cs with
  | [] => shown
  | OnTick secs m :: cs' => last_tick (secs, m) cs'
  | _ :: cs' => last_tick shown cs'
  end.

(** ** The stopwatch's formatter (app.js) *)

(** [formatMs (ms)]: hours, minutes and seconds of a time in
    milliseconds. *)
Definition formatMs (ms : Z) : string :=
  let totalSecs := Math_floor (divide ms 1000) in
  let h := Math_floor (divide totalSecs 3600) in
  let m := Math_floor (divide (Z.rem totalSecs 3600) 60) in
  let s := Z.rem totalSecs 60 in
  padStart (String_ h) 2 "0" ++ ":" ++
  padStart (String_ m) 2 "0" ++ ":" ++
  padStart (String_ s) 2 "0".

(** ** The countdown tool (app.js, [initCountdown]) *)

Module Countdown.

(** The module-level variables of the countdown, the two inputs as
    [parseInt (input.value, 10)] reads them ([None] is [NaN]), the texts
    the handlers write, the host's table of registered intervals and the
    messages [startAlarm] was called with. *)
Record State : Type := mkState {
  cdRunning  : bool;
  cdTotal    : Z;
  cdLeft     : Z;
  cdInterval : option nat;
  minInput   : option Z;
  secInput   : option Z;
  display    : string;
  startBtn   : string;
  intervals  : list nat;
  nextHandle : nat;
  alarms     : list string
}.

(** [x || 0] on the result of [parseInt] *)
Definition or0 (x : option Z) : Z :=
  match x with
  | Some v => v
  | None => 0
  end.

Definition readInputs (st : State) : Z :=
  let m := Z.max 0 (or0 (minInput st)) in
  let s := Z.max 0 (Z.min 59 (or0 (secInput st))) in
  m * 60 + s.

(** The text [updateDisplay] writes. *)
Definition display_text (left : Z) : string :=
  let m := Math_floor (divide left 60) in
  let s := Z.rem left 60 in
  padStart (String_ m) 2 "0" ++ ":" ++ padStart (String_ s) 2 "0".

Definition updateDisplay (st : State) : State :=
  mkState (cdRunning st) (cdTotal st) (cdLeft st) (cdInterval st)
          (minInput st) (secInput st) (display_text (cdLeft st))
          (startBtn st) (intervals st) (nextHandle st) (alarms st).

(** [cdTotal = readInputs (); cdLeft = cdTotal;] *)
Definition reload (st : State) : State :=
  mkState (cdRunning st) (readInputs st) (readInputs st) (cdInterval st)
          (minInput st) (secInput st) (display st)
          (startBtn st) (intervals st) (nextHandle st) (alarms st).

(** [clearInterval (cdInterval)] *)
Definition clear (st : State) : list nat :=
  match cdInterval st with
  | None => intervals st
  | Some h => filter (fun h' => negb (Nat.eqb h' h)) (intervals st)
  end.

(** [clearInterval (cdInterval); cdRunning = false;
     startBtn.textContent = 'Start';] *)
Definition halt (st : State) : State :=
  mkState false (cdTotal st) (cdLeft st) (cdInterval st)
          (minInput st) (secInput st) (display st)
          "Start" (clear st) (nextHandle st) (alarms st).

(** [startAlarm (message)] *)
Definition startAlarm (message : string) (st : State) : State :=
  mkState (cdRunning st) (cdTotal st) (cdLeft st) (cdInterval st)
          (minInput st) (secInput st) (display st)
          (startBtn st) (intervals st) (nextHandle st)
          (alarms st ++ [message]).

(** The click handler of the start button. *)
Definition click_start (st : State) : State :=
  if cdRunning st then halt st
  else
    let st1 := if cdLeft st <=? 0 then reload st else st in
    if cdLeft st1 <=? 0 then st1
    else
      mkState true (cdTotal st1) (cdLeft st1) (Some (nextHandle st1))
              (minInput st1) (secInput st1) (display st1)
              "Pause" (intervals st1 ++ [nextHandle st1])
              (S (nextHandle st1)) (alarms st1).

(** The callback of the interval.  [cdLeft--] is written as a
    subtraction of integers, which it is for a Number up to
    [MAX_SAFE_INTEGER]. *)
Definition tick (st : State) : State :=
  let st1 :=
    updateDisplay
      (mkState (cdRunning st) (cdTotal st) (cdLeft st - 1) (cdInterval st)
               (minInput st) (secInput st) (display st)
               (startBtn st) (intervals st) (nextHandle st) (alarms st)) in
  if cdLeft st1 <=? 0 then startAlarm "Timer finished!" (halt st1)
  else st1.

(** The click handler of the reset button. *)
Definition click_reset (st : State) : State :=
  let st1 := reload (halt st) in
  mkState (cdRunning st1) (cdTotal st1) (cdLeft st1) (cdInterval st1)
          (minInput st1) (secInput st1) (display_text (cdLeft st1))
          "Start" (intervals st1) (nextHandle st1) (alarms st1).

(** The change handlers of the two inputs, the input now reading [v]. *)
Definition change_min (v : option Z) (st : State) : State :=
  let st1 :=
    mkState (cdRunning st) (cdTotal st) (cdLeft st) (cdInterval st)
            v (secInput st) (display st)
            (startBtn st) (intervals st) (nextHandle st) (alarms st) in
  if cdRunning st1 then st1 else updateDisplay (reload st1).

Definition change_sec (v : option Z) (st : State) : State :=
  let st1 :=
    mkState (cdRunning st) (cdTotal st) (cdLeft st) (cdInterval st)
            (minInput st) v (display st)
            (startBtn st) (intervals st) (nextHandle st) (alarms st) in
  if cdRunning st1 then st1 else updateDisplay (reload st1).

(** One second of wall-clock time: every registered interval fires once,
    unless it was cleared in the meantime. *)
Fixpoint fire_each (hs : list nat) (st : State) : State :=
  match hs with
  | [] => st
  | h :: hs' =>
      fire_each hs'
        (if existsb (Nat.eqb h) (intervals st) then tick st else st)
  end.

Definition second (st : State) : State := fire_each (intervals st) st.

Fixpoint seconds (n : nat) (st : State) : State :=
  match n with
  | O => st
  | S n' => seconds n' (second st)
  end.

(** The module-level initial values, then the end of [initCountdown], for
    inputs reading [minutes] and [secs] and a start button showing
    [label]. *)
Definition init (minutes secs : option Z) (label : string) : State :=
  updateDisplay
    (reload (mkState false 300 300 None minutes secs "" label [] 1%nat [])).

Inductive Event : Type :=
| ClickStart
| ClickReset
| ChangeMin (v : option Z)
| ChangeSec (v : option Z)
| Second.

Definition step (e : Event) (st : State) : State :=
  match e with
  | ClickStart => click_start st
  | ClickReset => click_reset st
  | ChangeMin v => change_min v st
  | ChangeSec v => change_sec v st
  | Second => second st
  end.

Fixpoint run (es : list Event) (st : State) : State :=
  match es with
  | [] => st
  | e :: es' => run es' (step e st)
  end.

Inductive reachable : State -> Prop :=
| reachable_init (minutes secs : option Z) (label : string) :
    reachable (init minutes secs label)
| reachable_step (e : Event) (st : State) :
    reachable st -> reachable (step e st).

(** The invariant of the reachable states. *)
Definition Inv (st : State) : Prop :=
  0 <= cdLeft st <= cdTotal st
  /\ (if cdRunning st
      then 1 <= cdLeft st
           /\ exists h, cdInterval st = Some h /\ intervals st = [h]
      else intervals st = []).

End Countdown.

(** ** The task list (tasks.js) and its form in app.js *)

Module TaskList.

(** The objects of [this.items]. *)
Record Task : Type := mkTask {
  id   : Z;
  text : CodeUnits;
  done : bool
}.

(** What [localStorage] holds under [this.key].  The string that
    [JSON.stringify] writes for an array of tasks is represented by the
    array, which is what [JSON.parse] reads back from that string;
    [Corrupt] is a string that [JSON.parse] rejects, [Absent] no entry.
    These are the entries the class itself leaves behind; JSON of another
    shape, which only another program could have stored under the key, is
    not represented. *)
Inductive Stored : Type :=
| Absent
| Corrupt
| Saved (items : list Task).

Record State : Type := mkState {
  items   : list Task;
  storage : Stored
}.

(** The code units [String.prototype.trim] removes: WhiteSpace and
    LineTerminator of ECMAScript. *)
Definition is_space (c : N) : bool :=
  (existsb (N.eqb c)
     [0x9; 0xA; 0xB; 0xC; 0xD; 0x20; 0xA0; 0x1680; 0x2028; 0x2029; 0x202F;
      0x205F; 0x3000; 0xFEFF]
   || ((0x2000 <=? c) && (c <=? 0x200A)))%N.

Fixpoint trimStart (s : CodeUnits) : CodeUnits :=
  match s with
  | [] => []
  | c :: s' => if is_space c then trimStart s' else s
  end.

Definition trimEnd (s : CodeUnits) : CodeUnits := rev (trimStart (rev s)).

(** [str.trim ()] *)
Definition trim (s : CodeUnits) : CodeUnits := trimEnd (trimStart s).

(** [_load ()]: [JSON.parse (localStorage.getItem (this.key)) || []],
    and [[]] when [JSON.parse] throws. *)
Definition _load (s : Stored) : list Task :=
  match s with
  | Saved l => l
  | Absent => []
  | Corrupt => []
  end.

(** [constructor (storageKey)] on a storage holding [s] under the key. *)
Definition constructor (s : Stored) : State := mkState (_load s) s.

(** [_save ()], on a storage that accepts the entry. *)
Definition _save (st : State) : State := mkState (items st) (Saved (items st)).

(** [add (text)], with [now] the value of [Date.now ()]; returns the new
    task. *)
Definition add (now : Z) (txt : CodeUnits) (st : State) : Task * State :=
  let task := mkTask now (trim txt) false in
  (task, _save (mkState (items st ++ [task]) (storage st))).

(** [task.done = !task.done] on the task [this.items.find] returns, the
    first one with this id; [None] when there is none. *)
Fixpoint flip_first (i : Z) (l : list Task) : option (list Task) :=
  match l with
  | [] => None
  | t :: l' =>
      if id t =? i then Some (mkTask (id t) (text t) (negb (done t)) :: l')
      else option_map (cons t) (flip_first i l')
  end.

(** [toggle (id)] *)
Definition toggle (i : Z) (st : State) : State :=
  match flip_first i (items st) with
  | Some l => _save (mkState l (storage st))
  | None => st
  end.

(** [remove (id)] *)
Definition remove (i : Z) (st : State) : State :=
  _save (mkState (filter (fun t => negb (id t =? i)) (items st)) (storage st)).

(** [get progress]: [(done, total)] *)
Definition progress (st : State) : nat * nat :=
  (List.length (filter done (items st)), List.length (items st)).

(** The form of app.js: the task list and the value of the text input. *)
Record Form : Type := mkForm {
  taskList     : State;
  newTaskInput : CodeUnits
}.

(** [addTask ()] of app.js *)
Definition addTask (now : Z) (f : Form) : Form :=
  let txt := trim (newTaskInput f) in
  match txt with
  | [] => f
  | _ => mkForm (snd (add now txt (taskList f))) []
  end.

Inductive Op : Type :=
| OAdd (now : Z) (txt : CodeUnits)
| OToggle (i : Z)
| ORemove (i : Z).

Definition step (o : Op) (st : State) : State :=
  match o with
  | OAdd now txt => snd (add now txt st)
  | OToggle i => toggle i st
  | ORemove i => remove i st
  end.

Fixpoint run (ops : list Op) (st : State) : State :=
  match ops with
  | [] => st
  | o :: ops' => run ops' (step o st)
  end.

(** The ids of the tasks, in order. *)
Definition ids (st : State) : list Z := map id (items st).

(** Whether some task has this id. *)
Definition has (i : Z) (st : State) : bool :=
  existsb (fun t => id t =? i) (items st).

End TaskList.

(** The string starts with a code unit that [trim] keeps, or is empty. *)
Definition starts_clean (s : CodeUnits) : Prop :=
  match s with
  | [] => True
  | c :: _ => TaskList.is_space c = false
  end.

(** The string ends with a code unit that [trim] keeps, or is empty. *)
Definition ends_clean (s : CodeUnits) : Prop := starts_clean (rev s).


(** A task with its [done] flag flipped. *)
Definition flipped (t : TaskList.Task) : TaskList.Task :=
  TaskList.mkTask (TaskList.id t) (TaskList.text t) (negb (TaskList.done t)).

(** ** The YouTube player wrapper (player.js) *)

Module YouTubePlayer.

(** The calls the wrapper makes on the [YT.Player] object. *)
Inductive Cmd : Type :=
| playVideo
| pauseVideo
| yt_mute
| unMute
| yt_setVolume (vol : Z)
| loadVideoById (videoId : string).

(** A callback that was run: one registered with [onReady], or one
    registered with [onStateChange] together with the state of the event.
    Callbacks are identified by numbers. *)
Inductive Ran : Type :=
| RanReady (cb : nat)
| RanStateChange (cb : nat) (data : Z).

(** The fields of the wrapper ([player] tells whether [this.player] holds
    the [YT.Player] object or is still [null]), the state
    [getPlayerState ()] answers, the calls made on the [YT.Player] object
    and the callbacks run. *)
Record State : Type := mkState {
  player          : bool;
  isReady         : bool;
  isMuted         : bool;
  volume          : Z;
  videoId         : option string;
  _readyCbs       : list nat;
  _stateChangeCbs : list nat;
  ytState         : Z;
  sent            : list Cmd;
  ran             : list Ran
}.

(** [YT.PlayerState.PLAYING] of the IFrame API. *)
Definition PLAYING : Z := 1.

Definition set_isReady (v : bool) (st : State) : State :=
  mkState (player st) v (isMuted st) (volume st) (videoId st)
          (_readyCbs st) (_stateChangeCbs st) (ytState st) (sent st) (ran st).

Definition set_isMuted (v : bool) (st : State) : State :=
  mkState (player st) (isReady st) v (volume st) (videoId st)
          (_readyCbs st) (_stateChangeCbs st) (ytState st) (sent st) (ran st).

Definition set_volume (v : Z) (st : State) : State :=
  mkState (player st) (isReady st) (isMuted st) v (videoId st)
          (_readyCbs st) (_stateChangeCbs st) (ytState st) (sent st) (ran st).

Definition set_videoId (v : string) (st : State) : State :=
  mkState (player st) (isReady st) (isMuted st) (volume st) (Some v)
          (_readyCbs st) (_stateChangeCbs st) (ytState st) (sent st) (ran st).

Definition set__readyCbs (v : list nat) (st : State) : State :=
  mkState (player st) (isReady st) (isMuted st) (volume st) (videoId st)
          v (_stateChangeCbs st) (ytState st) (sent st) (ran st).

Definition set__stateChangeCbs (v : list nat) (st : State) : State :=
  mkState (player st) (isReady st) (isMuted st) (volume st) (videoId st)
          (_readyCbs st) v (ytState st) (sent st) (ran st).

(** A callback is run. *)
Definition call (r : Ran) (st : State) : State :=
  mkState (player st) (isReady st) (isMuted st) (volume st) (videoId st)
          (_readyCbs st) (_stateChangeCbs st) (ytState st) (sent st)
          (ran st ++ [r]).

(** [this.player.method (...)]: a TypeError, [None], while [this.player]
    is [null]. *)
Definition send (c : Cmd) (st : State) : option State :=
  if player st then
    Some (mkState (player st) (isReady st) (isMuted st) (volume st)
                  (videoId st) (_readyCbs st) (_stateChangeCbs st)
                  (ytState st) (sent st ++ [c]) (ran st))
  else None.

(** Sequencing of statements that may throw. *)
Definition andThen (r : option State) (k : State -> option State)
  : option State :=
  match r with
  | Some st => k st
  | None => None
  end.

(** [constructor (elementId)] *)
Definition constructor : State :=
  mkState false false true 50 None [] [] (-1) [] [].

(** [init (videoId)]: the [YT.Player] object is created. *)
Definition init (vid : string) (st : State) : option State :=
  let st1 := set_videoId vid st in
  Some (mkState true (isReady st1) (isMuted st1) (volume st1) (videoId st1)
                (_readyCbs st1) (_stateChangeCbs st1) (ytState st1)
                (sent st1) (ran st1)).

Definition onReady (cb : nat) (st : State) : option State :=
  if isReady st then Some (call (RanReady cb) st)
  else Some (set__readyCbs (_readyCbs st ++ [cb]) st).

Definition onStateChange (cb : nat) (st : State) : option State :=
  Some (set__stateChangeCbs (_stateChangeCbs st ++ [cb]) st).

Definition play (st : State) : option State :=
  if isReady st then send playVideo st else Some st.

Definition pause (st : State) : option State :=
  if isReady st then send pauseVideo st else Some st.

(** [isPlaying ()]; [None] is a TypeError. *)
Definition isPlaying (st : State) : option bool :=
  if isReady st then
    if player st then Some (ytState st =? PLAYING) else None
  else Some false.

Definition toggle (st : State) : option State :=
  if negb (isReady st) then Some st
  else
    match isPlaying st with
    | None => None
    | Some true => pause st
    | Some false => play st
    end.

(** [getState ()] *)
Definition getState (st : State) : option Z :=
  if isReady st then
    if player st then Some (ytState st) else None
  else Some (-1).

Definition mute (st : State) : option State :=
  let st1 := set_isMuted true st in
  if isReady st1 then send yt_mute st1 else Some st1.

Definition setVolume (vol : Z) (st : State) : option State :=
  let st1 := set_volume (Z.max 0 (Z.min 100 vol)) st in
  if negb (isReady st1) then Some st1
  else if volume st1 =? 0 then mute st1
  else
    andThen (send unMute st1) (fun st2 =>
    andThen (send (yt_setVolume (volume st2)) st2) (fun st3 =>
    Some (set_isMuted false st3))).

Definition unmute (st : State) : option State :=
  let st1 := set_isMuted false st in
  if negb (isReady st1) then Some st1
  else
    andThen (send unMute st1) (fun st2 =>
    send (yt_setVolume (if volume st2 =? 0 then 50 else volume st2)) st2).

(** [toggleMute ()]; the value returned is [isMuted] of the result. *)
Definition toggleMute (st : State) : option State :=
  if isMuted st then unmute st else mute st.

Definition loadVideo (vid : string) (st : State) : option State :=
  let st1 := set_videoId vid st in
  if negb (isReady st1) then Some st1
  else
    andThen (send (loadVideoById vid) st1) (fun st2 =>
    if isMuted st2 then send yt_mute st2
    else
      andThen (send unMute st2) (fun st3 =>
      send (yt_setVolume (volume st3)) st3)).

Definition _handleReady (st : State) : option State :=
  let st1 := set_isReady true st in
  andThen (send (yt_setVolume (volume st1)) st1) (fun st2 =>
  let st3 := fold_left (fun s cb => call (RanReady cb) s) (_readyCbs st2) st2 in
  Some (set__readyCbs [] st3)).

(** [_handleStateChange (e)], with [data] the state [e.data]. *)
Definition _handleStateChange (data : Z) (st : State) : option State :=
  Some (fold_left (fun s cb => call (RanStateChange cb data) s)
                  (_stateChangeCbs st) st).

(** What the caller does and what the [YT.Player] object reports: its
    [onReady] event, and a change of its state to [data]. *)
Inductive Op : Type :=
| OInit (videoId : string)
| OOnReady (cb : nat)
| OOnStateChange (cb : nat)
| OPlay
| OPause
| OToggle
| OSetVolume (vol : Z)
| OMute
| OUnmute
| OToggleMute
| OLoadVideo (videoId : string)
| YTReady
| YTStateChange (data : Z).

Definition step (o : Op) (st : State) : option State :=
  match o with
  | OInit vid => init vid st
  | OOnReady cb => onReady cb st
  | OOnStateChange cb => onStateChange cb st
  | OPlay => play st
  | OPause => pause st
  | OToggle => toggle st
  | OSetVolume vol => setVolume vol st
  | OMute => mute st
  | OUnmute => unmute st
  | OToggleMute => toggleMute st
  | OLoadVideo vid => loadVideo vid st
  | YTReady => _handleReady st
  | YTStateChange data =>
      _handleStateChange data
        (mkState (player st) (isReady st) (isMuted st) (volume st)
                 (videoId st) (_readyCbs st) (_stateChangeCbs st) data
                 (sent st) (ran st))
  end.

(** [init] is called once, and the events of the [YT.Player] object
    happen only once [init] has created it. *)
Definition enabled (o : Op) (st : State) : Prop :=
  match o with
  | OInit _ => player st = false
  | YTReady | YTStateChange _ => player st = true
  | _ => True
  end.

(** The methods that set the mute state of the [YT.Player] object. *)
Definition sets_mute (o : Op) : bool :=
  match o with
  | OSetVolume _ | OMute | OUnmute | OToggleMute | OLoadVideo _ => true
  | _ => false
  end.

Fixpoint run (ops : list Op) (st : State) : option State :=
  match ops with
  | [] => Some st
  | o :: ops' => andThen (step o st) (run ops')
  end.

(** The states of a wrapper made by the constructor and used through its
    methods.  (app.js also assigns the [volume] field once, before the
    player is ready, and during a fade calls [setVolume] of the
    [YT.Player] object itself; neither is an event here.) *)
Inductive reachable : State -> Prop :=
| reachable_new : reachable constructor
| reachable_step (o : Op) (st st' : State) :
    reachable st -> enabled o st -> step o st = Some st' -> reachable st'.

(** Whether the [YT.Player] object is muted after the calls [cs]: it
    starts muted ([mute: 1] in [playerVars]) and follows the last
    [mute ()] or [unMute ()]. *)
Fixpoint yt_muted_from (m : bool) (cs : list Cmd) : bool :=
  match cs with
  | [] => m
  | yt_mute :: cs' => yt_muted_from true cs'
  | unMute :: cs' => yt_muted_from false cs'
  | _ :: cs' => yt_muted_from m cs'
  end.

Definition yt_muted (st : State) : bool := yt_muted_from true (sent st).

(** The callbacks the caller has registered with [onReady], in order. *)
Fixpoint ready_registered (ops : list Op) : list nat :=
  match ops with
  | [] => []
  | OOnReady cb :: ops' => cb :: ready_registered ops'
  | _ :: ops' => ready_registered ops'
  end.

(** The [onReady] callbacks that were run, in order. *)
Fixpoint ready_ran (rs : list Ran) : list nat :=
  match rs with
  | [] => []
  | RanReady cb :: rs' => cb :: ready_ran rs'
  | _ :: rs' => ready_ran rs'
  end.

End YouTubePlayer.

(** Where the callbacks registered with [onReady] are: run, once the
    player is ready, and waiting in [_readyCbs] before. *)
Definition ready_cbs_settled (st : YouTubePlayer.State) (regs : list nat)
  : Prop :=
  if YouTubePlayer.isReady st
  then YouTubePlayer.ready_ran (YouTubePlayer.ran st) = regs
       /\ YouTubePlayer._readyCbs st = []
  else YouTubePlayer.ready_ran (YouTubePlayer.ran st) = []
       /\ YouTubePlayer._readyCbs st = regs.

(** ** The alarm (app.js, [startAlarm] and [stopAlarm]) *)

Module Alarm.

(** The module-level variables of the alarm with [settings.notifSounds],
    the overlay and its message, the host's table of registered intervals,
    and the audio contexts that were created and not closed.  An audio
    context is identified by a number; [alarmOscs] is the length of the
    array. *)
Record State : Type := mkState {
  notifSounds   : bool;
  alarmCtx      : option nat;
  alarmOscs     : nat;
  alarmInterval : option nat;
  overlayHidden : bool;
  message       : string;
  intervals     : list nat;
  nextHandle    : nat;
  contexts      : list nat;
  nextContext   : nat
}.

(** [showAlarmOverlay (message)], the message element being in the
    page. *)
Definition showAlarmOverlay (msg : string) (st : State) : State :=
  mkState (notifSounds st) (alarmCtx st) (alarmOscs st) (alarmInterval st)
          false msg (intervals st) (nextHandle st) (contexts st)
          (nextContext st).

(** [playAlarmPattern ()]: six notes, unless there is no audio context. *)
Definition playAlarmPattern (st : State) : State :=
  match alarmCtx st with
  | None => st
  | Some _ =>
      mkState (notifSounds st) (alarmCtx st) (alarmOscs st + 6)
              (alarmInterval st) (overlayHidden st) (message st)
              (intervals st) (nextHandle st) (contexts st) (nextContext st)
  end.

(** [startAlarm (message)]; [audio] tells whether the browser lets an
    audio context be created ([new AudioContext ()] throws otherwise). *)
Definition startAlarm (msg : string) (audio : bool) (st : State) : State :=
  if negb (notifSounds st) then showAlarmOverlay msg st
  else
    let st1 := showAlarmOverlay msg st in
    if audio then
      let st2 :=
        mkState (notifSounds st1) (Some (nextContext st1)) (alarmOscs st1)
                (alarmInterval st1) (overlayHidden st1) (message st1)
                (intervals st1) (nextHandle st1)
                (contexts st1 ++ [nextContext st1]) (S (nextContext st1)) in
      let st3 := playAlarmPattern st2 in
      mkState (notifSounds st3) (alarmCtx st3) (alarmOscs st3)
              (Some (nextHandle st3)) (overlayHidden st3) (message st3)
              (intervals st3 ++ [nextHandle st3]) (S (nextHandle st3))
              (contexts st3) (nextContext st3)
    else st1.

Definition stopAlarm (st : State) : State :=
  mkState (notifSounds st) None 0 None true (message st)
          (match alarmInterval st with
           | None => intervals st
           | Some h => filter (fun h' => negb (Nat.eqb h' h)) (intervals st)
           end)
          (nextHandle st)
          (match alarmCtx st with
           | None => contexts st
           | Some c => filter (fun c' => negb (Nat.eqb c' c)) (contexts st)
           end)
          (nextContext st).

(** One period of 1.6 seconds: every registered interval runs
    [playAlarmPattern] once. *)
Fixpoint fire_each (hs : list nat) (st : State) : State :=
  match hs with
  | [] => st
  | h :: hs' =>
      fire_each hs'
        (if existsb (Nat.eqb h) (intervals st) then playAlarmPattern st
         else st)
  end.

Definition period (st : State) : State := fire_each (intervals st) st.

Fixpoint periods (n : nat) (st : State) : State :=
  match n with
  | O => st
  | S n' => periods n' (period st)
  end.

(** [k] alarms started one after the other, with audio available. *)
Fixpoint starts (k : nat) (msg : string) (st : State) : State :=
  match k with
  | O => st
  | S k' => startAlarm msg true (starts k' msg st)
  end.

(** No alarm is sounding or pending. *)
Definition quiet (st : State) : Prop :=
  alarmCtx st = None /\ alarmOscs st = 0%nat /\ alarmInterval st = None
  /\ intervals st = [] /\ contexts st = [].

End Alarm.

(** ** Closed forms of the methods *)

Ltac break_world w :=
  destruct w as [[[w_df w_ds w_dl] w_m w_tl w_run w_n w_iv w_ct w_ce w_cm]
                 w_hs w_nh w_cs].

Ltac run_methods :=
  cbv [exec eval step start pause toggle reset setMode setDuration
       _tick _handleEnd second fire_each fire bind ret read write when
       invoke setInterval clearInterval heard supplied stopped
       set_durations set_mode set_timeLeft set_isRunning set_focusSessions
       set__interval this intervals nextHandle calls
       durations mode timeLeft isRunning focusSessions _interval
       onTick onEnd onModeChange filter existsb negb snd fst orb] in *.

Lemma start_paused (w : World) :
  isRunning (this w) = false ->
  exec start w =
  mkWorld (set__interval (Some (nextHandle w)) (set_isRunning true (this w)))
          (intervals w ++ [nextHandle w]) (S (nextHandle w)) (calls w).
Proof.
  break_world w. run_methods. intros ->. reflexivity.
Qed.

Lemma start_running (w : World) :
  isRunning (this w) = true -> exec start w = w.
Proof.
  break_world w. run_methods. intros ->. reflexivity.
Qed.

Lemma pause_ok (w : World) :
  host_ok w ->
  exec pause w = mkWorld (stopped (this w)) [] (nextHandle w) (calls w).
Proof.
  break_world w. unfold host_ok. run_methods. intros [Hi Hr].
  destruct w_iv; subst; simpl; rewrite ?Nat.eqb_refl; reflexivity.
Qed.

Lemma reset_ok (w : World) :
  host_ok w ->
  let t := this w in
  let full := dget (durations t) (mode t) in
  exec reset w =
  mkWorld (set_timeLeft full (stopped t)) [] (nextHandle w)
          (calls w ++ heard t [OnTick full (mode t)]).
Proof.
  break_world w. unfold host_ok. run_methods. intros [Hi Hr].
  destruct w_iv, w_ct; subst; simpl; rewrite ?Nat.eqb_refl, ?app_nil_r;
    reflexivity.
Qed.

Lemma setMode_ok (w : World) (m : Mode) :
  host_ok w ->
  let t := this w in
  let full := dget (durations t) m in
  exec (setMode m) w =
  mkWorld (set_timeLeft full (set_mode m (stopped t))) [] (nextHandle w)
          (calls w ++ heard t [OnModeChange m; OnTick full m]).
Proof.
  break_world w. unfold host_ok. run_methods. intros [Hi Hr].
  destruct w_iv, w_ct, w_cm; subst; simpl;
    rewrite ?Nat.eqb_refl, <- ?app_assoc, ?app_nil_r; reflexivity.
Qed.

Lemma setDuration_other (w : World) (m : Mode) (minutes : Z) :
  mode (this w) <> m ->
  let t := this w in
  let secs := Z.max 1 (Z.min 99 minutes) * 60 in
  exec (setDuration m minutes) w =
  mkWorld (set_durations (dset (durations t) m secs) t)
          (intervals w) (nextHandle w) (calls w).
Proof.
  break_world w. run_methods. intros Hm.
  destruct w_m, m; simpl in *; try congruence; reflexivity.
Qed.

Lemma setDuration_active (w : World) (minutes : Z) :
  host_ok w ->
  let t := this w in
  let secs := Z.max 1 (Z.min 99 minutes) * 60 in
  exec (setDuration (mode t) minutes) w =
  mkWorld (set_timeLeft secs
             (stopped (set_durations (dset (durations t) (mode t) secs) t)))
          [] (nextHandle w)
          (calls w ++ heard t [OnTick secs (mode t)]).
Proof.
  break_world w. unfold host_ok. run_methods. intros [Hi Hr].
  destruct w_iv, w_ct, w_m; subst; simpl;
    rewrite ?Nat.eqb_refl, ?app_nil_r; reflexivity.
Qed.

Lemma second_paused (w : World) :
  host_ok w -> isRunning (this w) = false -> exec second w = w.
Proof.
  break_world w. unfold host_ok. run_methods. intros [Hi Hr] Hp.
  destruct w_iv; subst; simpl in *; [discriminate | reflexivity].
Qed.

Lemma second_counting (w : World) :
  host_ok w -> isRunning (this w) = true -> 1 < timeLeft (this w) ->
  let t := this w in
  exec second w =
  mkWorld (set_timeLeft (timeLeft t - 1) t) (intervals w) (nextHandle w)
          (calls w ++ heard t [OnTick (timeLeft t - 1) (mode t)]).
Proof.
  break_world w. unfold host_ok. run_methods. intros [Hi Hr] Hp Htl.
  assert (E : (w_tl - 1 <=? 0) = false) by (apply Z.leb_gt; lia).
  destruct w_iv; [ | subst; discriminate].
  subst. run_methods. rewrite Nat.eqb_refl. run_methods.
  destruct w_ct; run_methods; cbn [app]; rewrite E, ?app_nil_r; reflexivity.
Qed.

Lemma second_expiring (w : World) :
  host_ok w -> expiring w ->
  let t := this w in
  let n := counted (mode t) (focusSessions t) in
  let next := successor (mode t) n in
  let full := dget (durations t) next in
  exec second w =
  mkWorld (set_timeLeft full
             (set_mode next (set_focusSessions n (stopped t))))
          [] (nextHandle w)
          (calls w ++ heard t [OnTick 0 (mode t); OnEnd (mode t) n;
                               OnModeChange next; OnTick full next]).
Proof.
  break_world w. unfold host_ok, expiring. run_methods.
  intros [Hi Hr] [Hp Htl].
  destruct w_iv; subst; simpl in *; [ | discriminate].
  rewrite Nat.eqb_refl.
  destruct w_m, w_ct, w_ce, w_cm; simpl;
    rewrite ?Nat.eqb_refl; simpl;
    try destruct (Z.rem (w_n + 1) 4 =? 0); simpl;
    rewrite <- ?app_assoc, ?app_nil_r; reflexivity.
Qed.

Lemma exec_bind {A B : Type} (c : M A) (k : A -> M B) (w : World) :
  exec (bind c k) w = exec (k (eval c w)) (exec c w).
Proof. unfold exec, eval, bind. destruct (c w). reflexivity. Qed.

Lemma step_toggle (w : World) : exec (step OToggle) w = exec toggle w.
Proof. simpl. rewrite exec_bind. reflexivity. Qed.

Lemma toggle_exec (w : World) :
  exec toggle w = if isRunning (this w) then exec pause w else exec start w.
Proof.
  break_world w. destruct w_run, w_iv; reflexivity.
Qed.

Lemma toggle_eval (w : World) :
  eval toggle w = isRunning (this (exec toggle w)).
Proof.
  break_world w. destruct w_run, w_iv; reflexivity.
Qed.

(** ** Durations *)

Lemma dget_dset_same (d : Durations) (m : Mode) (v : Z) :
  dget (dset d m v) m = v.
Proof. destruct m; reflexivity. Qed.

Lemma dget_dset_other (d : Durations) (m m' : Mode) (v : Z) :
  m' <> m -> dget (dset d m v) m' = dget d m'.
Proof. destruct m, m'; simpl; congruence. Qed.

Lemma Mode_eq_dec (a b : Mode) : {a = b} + {a <> b}.
Proof. decide equality. Defined.

Lemma clamp_max_min (minutes : Z) :
  Z.max 1 (Z.min 99 minutes) = clamp minutes 1 99.
Proof.
  unfold clamp.
  destruct (Z.ltb_spec minutes 1); [lia | ].
  destruct (Z.ltb_spec 99 minutes); lia.
Qed.

Lemma clamped_duration_ok (minutes : Z) :
  duration_ok (Z.max 1 (Z.min 99 minutes) * 60).
Proof. unfold duration_ok. lia. Qed.

(** ** The invariant *)

Ltac split_Inv := unfold Inv; split; [ | split; [ | split ] ]; simpl.

Lemma Inv_fresh (opts : Opts) : Inv (fresh opts).
Proof.
  split_Inv.
  - split; reflexivity.
  - intros m. unfold duration_ok. destruct m; simpl; lia.
  - lia.
  - lia.
Qed.

Lemma Inv_start (w : World) : Inv w -> Inv (exec start w).
Proof.
  intros HI. destruct (isRunning (this w)) eqn:Hr.
  - rewrite start_running; assumption.
  - rewrite start_paused by assumption.
    destruct HI as ([Hi Hr'] & Hd & Ht & Hn).
    split_Inv; auto.
    destruct (_interval (this w)); [congruence | ].
    rewrite Hi. split; reflexivity.
Qed.

Lemma Inv_pause (w : World) : Inv w -> Inv (exec pause w).
Proof.
  intros (Hh & Hd & Ht & Hn). rewrite pause_ok by assumption.
  split_Inv; auto. split; reflexivity.
Qed.

Lemma Inv_reset (w : World) : Inv w -> Inv (exec reset w).
Proof.
  intros (Hh & Hd & Ht & Hn). rewrite reset_ok by assumption.
  split_Inv; auto.
  - split; reflexivity.
  - specialize (Hd (mode (this w))). unfold duration_ok in Hd. lia.
Qed.

Lemma Inv_setMode (w : World) (m : Mode) : Inv w -> Inv (exec (setMode m) w).
Proof.
  intros (Hh & Hd & Ht & Hn). rewrite setMode_ok by assumption.
  split_Inv; auto.
  - split; reflexivity.
  - specialize (Hd m). unfold duration_ok in Hd. lia.
Qed.

Lemma Inv_setDuration (w : World) (m : Mode) (minutes : Z) :
  Inv w -> Inv (exec (setDuration m minutes) w).
Proof.
  intros (Hh & Hd & Ht & Hn).
  assert (Hd' : forall m', duration_ok
            (dget (dset (durations (this w)) m
                        (Z.max 1 (Z.min 99 minutes) * 60)) m')).
  { intros m'. destruct (Mode_eq_dec m' m) as [-> | Hne].
    - rewrite dget_dset_same. apply clamped_duration_ok.
    - rewrite dget_dset_other by assumption. apply Hd. }
  destruct (Mode_eq_dec (mode (this w)) m) as [<- | Hne].
  - rewrite setDuration_active by assumption.
    split_Inv; auto.
    + split; reflexivity.
    + rewrite dget_dset_same. lia.
  - rewrite setDuration_other by assumption.
    split_Inv; auto.
    rewrite dget_dset_other by assumption. exact Ht.
Qed.

Lemma Inv_second (w : World) : Inv w -> Inv (exec second w).
Proof.
  intros (Hh & Hd & Ht & Hn).
  destruct (isRunning (this w)) eqn:Hr.
  - destruct (Z.eq_dec (timeLeft (this w)) 1) as [H1 | H1].
    + rewrite second_expiring by (unfold expiring; auto).
      split_Inv; auto.
      * split; reflexivity.
      * match goal with |- _ <= dget ?d ?m <= _ =>
          specialize (Hd m); unfold duration_ok in Hd; lia end.
      * unfold counted. destruct (mode (this w)); lia.
    + rewrite second_counting by (auto; lia).
      split_Inv; auto. lia.
  - rewrite second_paused by assumption. unfold Inv. auto.
Qed.

Lemma Inv_step (o : Op) (w : World) : Inv w -> Inv (exec (step o) w).
Proof.
  intros HI. destruct o.
  - apply Inv_start, HI.
  - apply Inv_pause, HI.
  - rewrite step_toggle, toggle_exec.
    destruct (isRunning (this w)); [apply Inv_pause | apply Inv_start]; exact HI.
  - apply Inv_reset, HI.
  - apply Inv_setMode, HI.
  - apply Inv_setDuration, HI.
  - apply Inv_second, HI.
Qed.

Lemma reachable_Inv (w : World) : reachable w -> Inv w.
Proof.
  induction 1 as [opts | o w Hw IH].
  - apply Inv_fresh.
  - apply Inv_step, IH.
Qed.

Lemma reachable_host_ok (w : World) : reachable w -> host_ok w.
Proof. intros H. apply reachable_Inv in H. apply H. Qed.

Lemma reachable_run (ops : list Op) (w : World) :
  reachable w -> reachable (run ops w).
Proof.
  revert w. induction ops as [ | o ops IH]; intros w Hw; simpl.
  - exact Hw.
  - apply IH. constructor. exact Hw.
Qed.

(** ** Counting down *)

(** [start] touches [isRunning], [_interval] and the host's table only. *)
Lemma start_keeps (w : World) :
  let w' := exec start w in
  isRunning (this w') = true
  /\ mode (this w') = mode (this w)
  /\ timeLeft (this w') = timeLeft (this w)
  /\ focusSessions (this w') = focusSessions (this w)
  /\ durations (this w') = durations (this w)
  /\ heard (this w') = heard (this w)
  /\ calls w' = calls w.
Proof.
  destruct (isRunning (this w)) eqn:Hr; cbv zeta.
  - rewrite start_running by assumption. repeat split; auto.
  - rewrite start_paused by assumption. simpl. repeat split; auto.
Qed.

(** The guard of [start] matters: were a second interval registered, each
    second would take 2 off [timeLeft]. *)
Remark two_intervals_tick_twice (t : Timer) (cs : list Call) :
  2 < timeLeft t ->
  timeLeft (this (exec second (mkWorld t [1; 2]%nat 3%nat cs))) =
  timeLeft t - 2.
Proof.
  intros Ht. destruct t as [d m tl r n i ct ce cm]. run_methods.
  cbn [Nat.eqb].
  assert (E1 : (tl - 1 <=? 0) = false) by (apply Z.leb_gt; simpl in Ht; lia).
  assert (E2 : (tl - 1 - 1 <=? 0) = false)
    by (apply Z.leb_gt; simpl in Ht; lia).
  destruct ct; cbn; rewrite E1; cbn; rewrite E2; cbn; lia.
Qed.

Lemma seconds_paused (n : nat) (w : World) :
  host_ok w -> isRunning (this w) = false -> exec (seconds n) w = w.
Proof.
  intros Hh Hp. induction n as [ | n IH]; simpl.
  - reflexivity.
  - rewrite exec_bind, second_paused by assumption. exact IH.
Qed.

(** While more than [n] seconds are left, [n] seconds of a running countdown
    take [n] off [timeLeft] and leave the timer running. *)
Lemma seconds_counting (n : nat) (w : World) :
  Inv w -> isRunning (this w) = true -> Z.of_nat n < timeLeft (this w) ->
  let w' := exec (seconds n) w in
  Inv w'
  /\ isRunning (this w') = true
  /\ timeLeft (this w') = timeLeft (this w) - Z.of_nat n
  /\ mode (this w') = mode (this w)
  /\ focusSessions (this w') = focusSessions (this w).
Proof.
  revert w. induction n as [ | n IH]; intros w HI Hr Hn; cbv zeta.
  - change (exec (seconds 0) w) with w.
    split; [exact HI | split; [exact Hr | split; [ | split; reflexivity]]].
    simpl. lia.
  - simpl seconds. rewrite exec_bind.
    pose proof (Inv_second w HI) as HI'.
    assert (H1 : 1 < timeLeft (this w)) by lia.
    pose proof (second_counting w (proj1 HI) Hr H1) as Hs.
    cbv zeta in Hs. clear H1.
    assert (Et : timeLeft (this (exec second w)) = timeLeft (this w) - 1)
      by (rewrite Hs; reflexivity).
    assert (Em : mode (this (exec second w)) = mode (this w))
      by (rewrite Hs; reflexivity).
    assert (En : focusSessions (this (exec second w)) = focusSessions (this w))
      by (rewrite Hs; reflexivity).
    assert (Er : isRunning (this (exec second w)) = true)
      by (rewrite Hs; exact Hr).
    clear Hs.
    destruct (IH (exec second w) HI' Er) as (H1 & H2 & H3 & H4 & H5);
      [lia | ].
    split; [exact H1 | split; [exact H2 | split; [lia | split; congruence]]].
Qed.

Lemma heard_ok (t : Timer) (old new : list Call) :
  Forall call_ok old -> Forall call_ok new ->
  Forall call_ok (old ++ heard t new).
Proof.
  intros Ho Hn. apply Forall_app. split; [exact Ho | ].
  unfold heard. rewrite Forall_forall in *.
  intros c Hc. apply filter_In in Hc. apply Hn, Hc.
Qed.

(** The calls made so far have arguments in range. *)
Lemma calls_ok_step (o : Op) (w : World) :
  Inv w -> Forall call_ok (calls w) ->
  Forall call_ok (calls (exec (step o) w)).
Proof.
  intros (Hh & Hd & Ht & Hn) Hc.
  assert (Hfull : forall m, 0 <= dget (durations (this w)) m <= 99 * 60).
  { intros m. specialize (Hd m). unfold duration_ok in Hd. lia. }
  assert (Hpause : Forall call_ok (calls (exec pause w)))
    by (rewrite pause_ok by assumption; exact Hc).
  assert (Hstart : Forall call_ok (calls (exec start w))).
  { destruct (start_keeps w) as (_ & _ & _ & _ & _ & _ & Kc).
    rewrite Kc. exact Hc. }
  destruct o as [ | | | | m | m minutes | ].
  - exact Hstart.
  - exact Hpause.
  - rewrite step_toggle, toggle_exec.
    destruct (isRunning (this w)); assumption.
  - simpl step. rewrite reset_ok by assumption. cbn [calls].
    apply heard_ok; [exact Hc | ].
    repeat constructor; apply Hfull.
  - simpl step. rewrite setMode_ok by assumption. cbn [calls].
    apply heard_ok; [exact Hc | ].
    repeat constructor; apply Hfull.
  - simpl step. destruct (Mode_eq_dec (mode (this w)) m) as [<- | Hne].
    + rewrite setDuration_active by assumption. cbn [calls].
      apply heard_ok; [exact Hc | ].
      repeat constructor; simpl; lia.
    + rewrite setDuration_other by assumption. exact Hc.
  - simpl step. destruct (isRunning (this w)) eqn:Hr.
    + destruct (Z.eq_dec (timeLeft (this w)) 1) as [H1 | H1].
      * rewrite second_expiring by (unfold expiring; auto). cbn [calls].
        apply heard_ok; [exact Hc | ].
        repeat constructor; simpl; try apply Hfull; try lia.
        unfold counted. destruct (mode (this w)); lia.
      * rewrite second_counting by (auto; lia). cbn [calls].
        apply heard_ok; [exact Hc | ].
        specialize (Hfull (mode (this w))).
        repeat constructor; simpl; lia.
    + rewrite second_paused by assumption. exact Hc.
Qed.

Lemma reachable_calls_ok (w : World) :
  reachable w -> Forall call_ok (calls w).
Proof.
  induction 1 as [opts | o w Hw IH].
  - constructor.
  - apply calls_ok_step; [apply reachable_Inv, Hw | exact IH].
Qed.

Lemma heard_all (t : Timer) (cs : list Call) :
  onTick t = true -> onEnd t = true -> onModeChange t = true ->
  heard t cs = cs.
Proof.
  intros Ht He Hm. unfold heard.
  induction cs as [ | c cs IH]; simpl; [reflexivity | ].
  rewrite IH. destruct c; simpl; rewrite ?Ht, ?He, ?Hm; reflexivity.
Qed.

Lemma seconds_snoc (n : nat) (w : World) :
  exec (seconds (S n)) w = exec second (exec (seconds n) w).
Proof.
  revert w. induction n as [ | n IH]; intros w.
  - simpl. rewrite exec_bind. reflexivity.
  - change (seconds (S (S n))) with (second ;; seconds (S n)).
    rewrite exec_bind, IH.
    change (seconds (S n)) with (second ;; seconds n).
    rewrite exec_bind. reflexivity.
Qed.

(** A session that is started and left alone expires when its time is up,
    and not before. *)
Lemma run_out_expires (w : World) :
  Inv w ->
  let w' := exec run_out w in
  let n := counted (mode (this w)) (focusSessions (this w)) in
  Inv w'
  /\ focusSessions (this w') = n
  /\ mode (this w') = successor (mode (this w)) n
  /\ isRunning (this w') = false.
Proof.
  intros HI. cbv zeta.
  change (exec run_out w)
    with (exec (start ;; seconds (Z.to_nat (timeLeft (this w)))) w).
  rewrite exec_bind.
  destruct (start_keeps w) as (Kr & Km & Kt & Kn & Kd & Kh & Kc).
  pose proof (Inv_start w HI) as HI1.
  set (w1 := exec start w) in *.
  assert (Ht : 1 <= timeLeft (this w)) by apply HI.
  assert (Hk : Z.to_nat (timeLeft (this w)) =
               S (Z.to_nat (timeLeft (this w) - 1))) by lia.
  rewrite Hk, seconds_snoc.
  destruct (seconds_counting (Z.to_nat (timeLeft (this w) - 1)) w1 HI1 Kr)
    as (H1 & H2 & H3 & H4 & H5); [lia | ].
  set (w2 := exec (seconds (Z.to_nat (timeLeft (this w) - 1))) w1) in *.
  assert (He : expiring w2) by (split; [exact H2 | lia]).
  split; [apply Inv_second, H1 | ].
  rewrite second_expiring by (auto; apply H1).
  simpl. rewrite H4, H5, Km, Kn. auto.
Qed.

Lemma sessions_advance (k : nat) (w : World) :
  Inv w ->
  let w' := exec (sessions k) w in
  (mode (this w'), focusSessions (this w')) =
  Nat.iter k advance (mode (this w), focusSessions (this w)).
Proof.
  revert w. induction k as [ | k IH]; intros w HI; cbv zeta.
  - reflexivity.
  - simpl sessions. rewrite exec_bind.
    destruct (run_out_expires w HI) as (H1 & H2 & H3 & H4).
    rewrite (IH _ H1), H2, H3.
    rewrite Nat.iter_succ_r. reflexivity.
Qed.

(** A new timer left to run through nine sessions: focus and break
    alternate, and the break after the fourth focus session is the long
    one. *)
Lemma nine_sessions (opts : Opts) :
  map (fun k => mode (this (exec (sessions k) (fresh opts))))
      [1; 2; 3; 4; 5; 6; 7; 8; 9]%nat =
  [short; focus; short; focus; short; focus; long; focus; short].
Proof.
  assert (E : forall k, mode (this (exec (sessions k) (fresh opts))) =
              fst (Nat.iter k advance (focus, 0))).
  { intros k.
    pose proof (sessions_advance k (fresh opts) (Inv_fresh opts)) as H.
    cbv zeta in H. change (mode (this (fresh opts))) with focus in H.
    change (focusSessions (this (fresh opts))) with 0 in H.
    rewrite <- H. reflexivity. }
  cbn [map]. rewrite !E. reflexivity.
Qed.

(** ** [format] against its description *)

Lemma zeros_S (k : nat) :
  concat "" (repeat "0"%string (S k)) =
  String "0" (concat "" (repeat "0"%string k)).
Proof. destruct k; reflexivity. Qed.

Lemma zeros_length (k : nat) :
  String.length (concat "" (repeat "0"%string k)) = k.
Proof.
  induction k as [ | k IH]; [reflexivity | ].
  rewrite zeros_S. simpl. rewrite IH. reflexivity.
Qed.

Lemma filler_zero (k : nat) :
  filler "0" k = concat "" (repeat "0"%string k).
Proof.
  unfold filler. induction k as [ | k IH]; [reflexivity | ].
  rewrite zeros_S. simpl. rewrite IH. reflexivity.
Qed.

Lemma padStart_zero (str : string) (width : nat) :
  padStart str width "0" = zero_padded width str.
Proof.
  unfold padStart, zero_padded.
  destruct (Nat.leb_spec width (String.length str)) as [Hle | Hlt].
  - replace (width - String.length str)%nat with 0%nat by lia. reflexivity.
  - simpl. rewrite filler_zero. reflexivity.
Qed.

Lemma length_app (a b : string) :
  String.length (a ++ b) = (String.length a + String.length b)%nat.
Proof. induction a as [ | c a IH]; simpl; [ | rewrite IH]; reflexivity. Qed.

Lemma zero_padded_length (width : nat) (str : string) :
  String.length (zero_padded width str) = Nat.max width (String.length str).
Proof.
  unfold zero_padded. rewrite length_app, zeros_length. lia.
Qed.

Lemma value_decimal (n : Z) : 0 <= n -> value (decimal n) = Some n.
Proof.
  intros Hn. unfold value, decimal.
  destruct n as [ | p | p]; [reflexivity | | lia].
  simpl. rewrite NilZero.usu by apply DecimalPos.Unsigned.to_uint_nonnil.
  simpl. unfold Z.of_uint. rewrite DecimalPos.Unsigned.of_to. reflexivity.
Qed.

Lemma decimal_nonempty (n : Z) : decimal n <> ""%string.
Proof.
  unfold decimal. destruct n as [ | p | p]; simpl; try discriminate.
  destruct (Pos.to_uint p); discriminate.
Qed.

Lemma value_zero_padded (width : nat) (n : Z) :
  0 <= n -> value (zero_padded width (decimal n)) = Some n.
Proof.
  intros Hn. unfold zero_padded.
  induction (width - String.length (decimal n))%nat as [ | k IH].
  - apply value_decimal, Hn.
  - rewrite zeros_S. revert IH. unfold value. simpl.
    destruct (concat "" (repeat "0"%string k) ++ decimal n)%string eqn:E.
    + destruct (concat "" (repeat "0"%string k)); [ | discriminate].
      simpl in E. apply decimal_nonempty in E. contradiction.
    + simpl. destruct (uint_of_char a (NilEmpty.uint_of_string s)); simpl.
      * intros H. exact H.
      * discriminate.
Qed.

Lemma decimal_two_digits (n : Z) :
  0 <= n < 100 -> (String.length (decimal n) <= 2)%nat.
Proof.
  intros Hn.
  assert (Hall : forallb
            (fun k => (String.length (decimal (Z.of_nat k)) <=? 2)%nat)
            (seq 0 100) = true) by (vm_compute; reflexivity).
  rewrite forallb_forall in Hall.
  specialize (Hall (Z.to_nat n)).
  rewrite Z2Nat.id in Hall by lia.
  apply Nat.leb_le, Hall, in_seq. lia.
Qed.

Lemma value_short (str : string) (v : Z) :
  value str = Some v -> (String.length str <= 2)%nat -> v <= 99.
Proof.
  unfold value. intros Hv Hlen.
  destruct str as [ | c1 [ | c2 [ | c3 str]]]; simpl in Hlen; try lia;
    cbn [NilZero.uint_of_string NilEmpty.uint_of_string] in Hv.
  - discriminate.
  - destruct (uint_of_char c1 (Some Decimal.Nil)) as [d | ] eqn:E1;
      cbn [option_map] in Hv; [ | discriminate].
    apply uint_of_char_spec in E1.
    injection Hv as <-.
    repeat (destruct E1 as [[_ ->] | E1]; [vm_compute; discriminate | ]).
    destruct E1 as [_ ->]. vm_compute; discriminate.
  - destruct (uint_of_char c2 (Some Decimal.Nil)) as [d2 | ] eqn:E2;
      [ | discriminate].
    destruct (uint_of_char c1 (Some d2)) as [d1 | ] eqn:E1;
      cbn [option_map] in Hv; [ | discriminate].
    apply uint_of_char_spec in E1, E2.
    injection Hv as <-.
    repeat (destruct E2 as [[_ ->] | E2];
      [repeat (destruct E1 as [[_ ->] | E1]; [vm_compute; discriminate | ]);
       destruct E1 as [_ ->]; vm_compute; discriminate | ]).
    destruct E2 as [_ ->].
    repeat (destruct E1 as [[_ ->] | E1]; [vm_compute; discriminate | ]).
    destruct E1 as [_ ->]. vm_compute; discriminate.
Qed.

(** ** Numbers below 2^53 *)

Lemma pow2_pos (n : Z) : 0 <= n -> 0 < 2 ^ n.
Proof. intros H. apply Z.pow_pos_nonneg; lia. Qed.

Lemma pow2_split (n m : Z) : 0 <= n -> 0 <= m -> 2 ^ n * 2 ^ m = 2 ^ (n + m).
Proof. intros Hn Hm. symmetry. apply Z.pow_add_r; assumption. Qed.

Lemma le_pow2_exponent (a b : Z) :
  1 <= a -> 1 <= b -> le_pow2 (exponent a b) a b = true.
Proof.
  intros Ha Hb. unfold exponent.
  destruct (le_pow2 (Z.log2 a - Z.log2 b) a b) eqn:E; [exact E | clear E].
  destruct (Z.log2_spec a ltac:(lia)) as [La _].
  destruct (Z.log2_spec b ltac:(lia)) as [_ Lb].
  pose proof (Z.log2_nonneg a) as Na. pose proof (Z.log2_nonneg b) as Nb.
  unfold Z.succ in Lb.
  set (la := Z.log2 a) in *. set (lb := Z.log2 b) in *.
  unfold le_pow2. destruct (0 <=? la - lb - 1) eqn:S.
  - apply Z.leb_le in S. apply Z.leb_le.
    pose proof (pow2_split (lb + 1) (la - lb - 1) ltac:(lia) S) as P.
    replace (lb + 1 + (la - lb - 1)) with la in P by lia.
    pose proof (pow2_pos (la - lb - 1) S). nia.
  - apply Z.leb_gt in S. apply Z.leb_le.
    pose proof (pow2_split la (- (la - lb - 1)) Na ltac:(lia)) as P.
    replace (la + - (la - lb - 1)) with (lb + 1) in P by lia.
    pose proof (pow2_pos (- (la - lb - 1)) ltac:(lia)). nia.
Qed.

Lemma exponent_safe (a b : Z) :
  1 <= a <= MAX_SAFE_INTEGER -> 1 <= b -> exponent a b <= 52.
Proof.
  intros Ha Hb. unfold MAX_SAFE_INTEGER in Ha.
  pose proof (le_pow2_exponent a b ltac:(lia) Hb) as E.
  destruct (Z.le_gt_cases (exponent a b) 52) as [ | Hgt]; [assumption | exfalso].
  unfold le_pow2 in E.
  destruct (Z.leb_spec 0 (exponent a b)); [ | lia].
  apply Z.leb_le in E.
  assert (2 ^ 53 <= 2 ^ exponent a b) by (apply Z.pow_le_mono_r; lia).
  nia.
Qed.

(** What [le_pow2] says once both sides are scaled to the significand's
    53 bits. *)
Lemma le_pow2_scaled (l a b : Z) :
  1 <= a -> 1 <= b -> l < 52 -> le_pow2 l a b = true ->
  b * 2 ^ 52 <= a * 2 ^ (52 - l).
Proof.
  intros Ha Hb Hl E. unfold le_pow2 in E.
  destruct (Z.leb_spec 0 l) as [Hn | Hn]; apply Z.leb_le in E.
  - pose proof (pow2_split l (52 - l) Hn ltac:(lia)) as P.
    replace (l + (52 - l)) with 52 in P by lia.
    pose proof (pow2_pos (52 - l) ltac:(lia)). nia.
  - pose proof (pow2_split (- l) 52 ltac:(lia) ltac:(lia)) as P.
    replace (- l + 52) with (52 - l) in P by lia.
    nia.
Qed.

Lemma nearest_even_cases (m r d : Z) :
  nearest_even m r d = m \/ (nearest_even m r d = m + 1 /\ d <= 2 * r).
Proof.
  unfold nearest_even.
  destruct (d <? 2 * r) eqn:E1; cbn [orb andb].
  - right. apply Z.ltb_lt in E1. split; [reflexivity | lia].
  - destruct (2 * r =? d) eqn:E2; cbn [orb andb]; [ | left; reflexivity].
    destruct (Z.odd m); [ | left; reflexivity].
    right. apply Z.eqb_eq in E2. split; [reflexivity | lia].
Qed.

(** Below 2^53 the rounding of a quotient never reaches the next integer:
    [Math.floor (a / b)] is the integer quotient. *)
Lemma Math_floor_divide (a b : Z) :
  0 <= a <= MAX_SAFE_INTEGER -> 1 <= b -> Math_floor (divide a b) = a / b.
Proof.
  intros Ha Hb. unfold divide.
  destruct (Z.eqb_spec a 0) as [-> | Hnz].
  { simpl. symmetry. apply Z.div_0_l. lia. }
  assert (Hpos : 1 <= a) by lia.
  rewrite Z.abs_eq by lia. rewrite Z.sgn_pos by lia.
  pose proof (le_pow2_exponent a b Hpos Hb) as E.
  pose proof (exponent_safe a b ltac:(lia) Hb) as Hle.
  unfold quotient. set (l := exponent a b) in *.
  destruct (Z.leb_spec 0 (l - 52)) as [H0 | H0].
  - (* the quotient fills all 53 bits: b = 1 *)
    assert (l = 52) as Hl by lia. rewrite Hl in *. 
    unfold le_pow2 in E. simpl (0 <=? 52) in E. apply Z.leb_le in E.
    unfold MAX_SAFE_INTEGER in Ha.
    assert (b = 1) as -> by nia.
    change (52 - 52) with 0. change (2 ^ 0) with 1.
    rewrite Z.mul_1_r, Z.div_1_r, Z.mod_1_r.
    unfold nearest_even, Math_floor.
    change (1 <? 2 * 0) with false. change (2 * 0 =? 1) with false.
    cbn [orb andb]. cbv beta iota. change (0 <=? 0) with true.
    cbv beta iota. change (2 ^ 0) with 1. lia.
  - pose proof (le_pow2_scaled l a b Hpos Hb ltac:(lia) E) as P2.
    replace (- (l - 52)) with (52 - l) by lia.
    set (s := 2 ^ (52 - l)) in *.
    assert (Hs : 2 <= s).
    { change 2 with (2 ^ 1). apply Z.pow_le_mono_r; lia. }
    cbv beta iota. rewrite Z.mul_1_l. unfold Math_floor.
    destruct (Z.leb_spec 0 (l - 52)); [lia | ].
    replace (- (l - 52)) with (52 - l) by lia. fold s.
    pose proof (Z.div_mod (a * s) b ltac:(lia)) as Dm.
    pose proof (Z.mod_pos_bound (a * s) b ltac:(lia)) as Rm.
    pose proof (Z.div_mod a b ltac:(lia)) as Dk.
    pose proof (Z.mod_pos_bound a b ltac:(lia)) as Rk.
    set (m := a * s / b) in *. set (r := (a * s) mod b) in *.
    set (k := a / b) in *. set (j := a mod b) in *.
    assert (Lo : k * s <= m) by nia.
    assert (Hi : m < (k + 1) * s) by nia.
    symmetry. apply Z.div_unique with (r := nearest_even m r b - k * s).
    + left.
      destruct (nearest_even_cases m r b) as [-> | [-> Hup]]; [lia | ].
      split; [lia | ].
      destruct (Z.eq_dec m ((k + 1) * s - 1)) as [Em | ]; [exfalso | lia].
      unfold MAX_SAFE_INTEGER in Ha.
      assert (r = b - s * (b - j)) by nia.
      assert (2 * s <= b) by nia.
      nia.
    + lia.
Qed.

Lemma Number_of_safe (y : Z) :
  0 <= y <= MAX_SAFE_INTEGER -> Number_of y = y.
Proof.
  intros H. unfold Number_of. rewrite Math_floor_divide by lia.
  apply Z.div_1_r.
Qed.

Lemma Number_of_large (y : Z) :
  MAX_SAFE_INTEGER < y -> MAX_SAFE_INTEGER < Number_of y.
Proof.
  unfold MAX_SAFE_INTEGER. intros H.
  assert (L : 53 <= Z.log2 y).
  { change 53 with (Z.log2 (2 ^ 53)). apply Z.log2_le_mono. lia. }
  destruct (Z.log2_spec y ltac:(lia)) as [Lo _].
  unfold Number_of, divide.
  destruct (Z.eqb_spec y 0); [lia | ].
  rewrite Z.abs_eq by lia. rewrite Z.sgn_pos by lia.
  assert (E : exponent y 1 = Z.log2 y).
  { unfold exponent. change (Z.log2 1) with 0. rewrite Z.sub_0_r.
    unfold le_pow2. destruct (Z.leb_spec 0 (Z.log2 y)); [ | lia].
    destruct (Z.leb_spec (1 * 2 ^ Z.log2 y) y); [reflexivity | lia]. }
  unfold quotient. rewrite E. set (l := Z.log2 y) in *.
  destruct (Z.leb_spec 0 (l - 52)); [ | lia].
  cbv beta iota. rewrite !Z.mul_1_l. unfold Math_floor.
  destruct (Z.leb_spec 0 (l - 52)); [ | lia].
  pose proof (pow2_split 52 (l - 52) ltac:(lia) ltac:(lia)) as P.
  replace (52 + (l - 52)) with l in P by lia.
  pose proof (pow2_pos (l - 52) ltac:(lia)) as Pe.
  set (p := 2 ^ (l - 52)) in *.
  assert (M : 2 ^ 52 <= y / p).
  { apply Z.div_le_lower_bound; [lia | nia]. }
  assert (2 ^ 53 <= 2 ^ l) by (apply Z.pow_le_mono_r; lia).
  destruct (nearest_even_cases (y / p) (y mod p) p) as [-> | [-> _]]; nia.
Qed.

Lemma Number_of_inv (x y : Z) :
  0 <= y -> 0 <= x <= MAX_SAFE_INTEGER -> Number_of y = x -> y = x.
Proof.
  intros Hy Hx E.
  destruct (Z.le_gt_cases y MAX_SAFE_INTEGER) as [Hs | Hl].
  - rewrite Number_of_safe in E by lia. exact E.
  - apply Number_of_large in Hl. lia.
Qed.

Lemma digit_count_from_spec (fuel : nat) (x : Z) :
  forall d, 1 <= d -> 10 ^ (d - 1) <= x -> x < 10 ^ (d + Z.of_nat fuel) ->
  d <= digit_count_from fuel d x
  /\ 10 ^ (digit_count_from fuel d x - 1) <= x
     < 10 ^ digit_count_from fuel d x.
Proof.
  induction fuel as [ | fuel IH]; intros d Hd Hlo Hhi.
  - simpl. rewrite Z.add_0_r in Hhi. lia.
  - cbn [digit_count_from].
    destruct (Z.ltb_spec x (10 ^ d)) as [Hlt | Hge]; [lia | ].
    destruct (IH (d + 1)) as [H1 H2].
    + lia.
    + replace (d + 1 - 1) with d by lia. exact Hge.
    + replace (d + 1 + Z.of_nat fuel) with (d + Z.of_nat (S fuel)) by lia.
      exact Hhi.
    + split; [lia | exact H2].
Qed.

Lemma digit_count_spec (x : Z) :
  1 <= x -> 1 <= digit_count x
  /\ 10 ^ (digit_count x - 1) <= x < 10 ^ digit_count x.
Proof.
  intros Hx. unfold digit_count.
  destruct (Z.log2_spec x ltac:(lia)) as [_ Hi].
  pose proof (Z.log2_nonneg x) as Hn.
  destruct (digit_count_from_spec (Z.to_nat (Z.log2 x)) x 1) as [H1 H2].
  - lia.
  - simpl. lia.
  - rewrite Z2Nat.id by assumption.
    assert (2 ^ (1 + Z.log2 x) <= 10 ^ (1 + Z.log2 x))
      by (apply Z.pow_le_mono_l; lia).
    unfold Z.succ in Hi. rewrite (Z.add_comm 1). rewrite (Z.add_comm 1) in H.
    lia.
  - split; [lia | exact H2].
Qed.

Lemma digit_count_safe (x : Z) :
  1 <= x <= MAX_SAFE_INTEGER -> 1 <= digit_count x <= 16.
Proof.
  intros Hx. destruct (digit_count_spec x ltac:(lia)) as [H1 [H2 _]].
  split; [exact H1 | ].
  destruct (Z.le_gt_cases (digit_count x) 16) as [ | Hgt]; [assumption | ].
  assert (10 ^ 16 <= 10 ^ (digit_count x - 1))
    by (apply Z.pow_le_mono_r; lia).
  unfold MAX_SAFE_INTEGER in Hx. lia.
Qed.

Lemma candidates_spec (x k s n : Z) :
  In (s, n) (candidates x k) ->
  k <= n <= digit_count x + 1 /\ 10 ^ (k - 1) <= s
  /\ Number_of (s * 10 ^ (n - k)) = x.
Proof.
  unfold candidates. cbn [flat_map]. rewrite app_nil_r, in_app_iff.
  rewrite !filter_In. cbn [In fst].
  intros [[Hin Hc] | [Hin Hc]];
    apply andb_prop in Hc; destruct Hc as [Hc Hv];
    apply andb_prop in Hc; destruct Hc as [Hc Hu];
    apply andb_prop in Hc; destruct Hc as [Hk Hl];
    apply Z.leb_le in Hk, Hl; apply Z.eqb_eq in Hv;
    destruct Hin as [Hin | [Hin | []]];
    injection Hin as Hs Hn; subst n;
    (split; [lia | split; assumption]).
Qed.

Lemma candidates_self (x : Z) :
  1 <= x <= MAX_SAFE_INTEGER ->
  In (x, digit_count x) (candidates x (digit_count x)).
Proof.
  intros Hx. destruct (digit_count_spec x ltac:(lia)) as [H1 [H2 H3]].
  unfold candidates. cbn [flat_map]. apply in_or_app. left.
  apply filter_In. rewrite Z.sub_diag. change (10 ^ 0) with 1.
  rewrite Z.div_1_r. split; [left; reflexivity | ].
  cbn [fst]. rewrite Z.mul_1_r, Number_of_safe by lia.
  rewrite Z.eqb_refl, Z.leb_refl.
  destruct (Z.leb_spec (10 ^ (digit_count x - 1)) x); [ | lia].
  destruct (Z.ltb_spec x (10 ^ digit_count x)); [reflexivity | lia].
Qed.

Lemma closest_In (x k : Z) (cs : list (Z * Z)) (c : Z * Z) :
  closest x k cs = Some c -> In c cs.
Proof.
  revert c. induction cs as [ | c0 cs IH]; intros c; cbn [closest].
  - discriminate.
  - destruct (closest x k cs) as [best | ].
    + intros [= <-]. destruct (better x k c0 best).
      * left. reflexivity.
      * right. apply IH. reflexivity.
    + intros [= <-]. left. reflexivity.
Qed.

Lemma closest_None (x k : Z) (cs : list (Z * Z)) :
  closest x k cs = None -> cs = [].
Proof.
  destruct cs as [ | c cs]; cbn [closest]; [reflexivity | ].
  destruct (closest x k cs); discriminate.
Qed.

Lemma shortest_from_In (fuel : nat) (x s k n : Z) :
  forall k0, shortest_from fuel k0 x = Some (s, k, n) ->
  In (s, n) (candidates x k).
Proof.
  induction fuel as [ | fuel IH]; intros k0; cbn [shortest_from].
  - discriminate.
  - destruct (closest x k0 (candidates x k0)) as [[s0 n0] | ] eqn:E.
    + intros [= <- <- <-]. apply closest_In in E. exact E.
    + apply IH.
Qed.

Lemma shortest_from_found (fuel : nat) (x k : Z) (c : Z * Z) :
  In c (candidates x k) ->
  forall k0, k0 <= k < k0 + Z.of_nat fuel -> shortest_from fuel k0 x <> None.
Proof.
  intros Hin. induction fuel as [ | fuel IH]; intros k0 Hk; [lia | ].
  cbn [shortest_from].
  destruct (closest x k0 (candidates x k0)) as [[s0 n0] | ] eqn:E;
    [discriminate | ].
  apply closest_None in E.
  destruct (Z.eq_dec k0 k) as [-> | Hne].
  - rewrite E in Hin. destruct Hin.
  - apply IH. lia.
Qed.

Lemma append_assoc (a b c : string) :
  ((a ++ b) ++ c = a ++ (b ++ c))%string.
Proof. induction a as [ | ch a IH]; simpl; congruence. Qed.

Lemma append_nil_r (a : string) : (a ++ "" = a)%string.
Proof. induction a as [ | ch a IH]; simpl; congruence. Qed.

Lemma string_of_uint_revapp (a b : Decimal.uint) :
  NilEmpty.string_of_uint (Decimal.revapp a b)
  = (NilEmpty.string_of_uint (Decimal.rev a)
     ++ NilEmpty.string_of_uint b)%string.
Proof.
  unfold Decimal.rev. revert b.
  induction a as [ | a IH | a IH | a IH | a IH | a IH | a IH | a IH | a IH
                   | a IH | a IH ]; intros b; cbn [Decimal.revapp];
    [ reflexivity | .. ];
    rewrite IH; symmetry; rewrite IH;
    rewrite append_assoc; reflexivity.
Qed.

Lemma decimal_pos (p : positive) :
  decimal (Z.pos p) = NilEmpty.string_of_uint (Pos.to_uint p).
Proof.
  unfold decimal. cbn [Z.to_int NilZero.string_of_int].
  unfold NilZero.string_of_uint.
  pose proof (DecimalPos.Unsigned.to_uint_nonnil p) as H.
  destruct (Pos.to_uint p); [contradiction | reflexivity ..].
Qed.

Lemma decimal_tenfold (x : Z) :
  1 <= x -> decimal (10 * x) = (decimal x ++ "0")%string.
Proof.
  intros Hx. destruct x as [ | p | p]; try lia.
  change (10 * Z.pos p) with (Z.pos (10 * p)).
  rewrite !decimal_pos. unfold Pos.to_uint.
  change (Pos.to_little_uint (10 * p))
    with (DecimalPos.Unsigned.to_lu (10 * N.pos p)).
  rewrite DecimalPos.Unsigned.to_ldec_tenfold.
  change (DecimalPos.Unsigned.to_lu (N.pos p)) with (Pos.to_little_uint p).
  unfold Decimal.rev at 1. cbn [Decimal.revapp].
  rewrite string_of_uint_revapp. reflexivity.
Qed.

Lemma zeros_succ (n : nat) :
  concat "" (repeat "0"%string (S n))
  = (concat "" (repeat "0"%string n) ++ "0")%string.
Proof.
  induction n as [ | n IH]; [reflexivity | ].
  rewrite (zeros_S (S n)). rewrite IH at 1. rewrite (zeros_S n).
  reflexivity.
Qed.

Lemma decimal_shift (x j : Z) :
  1 <= x -> 0 <= j -> decimal (x * 10 ^ j) = (decimal x ++ zeros j)%string.
Proof.
  intros Hx Hj. unfold zeros.
  rewrite <- (Z2Nat.id j Hj) at 1. induction (Z.to_nat j) as [ | n IH].
  - simpl. rewrite Z.mul_1_r, append_nil_r. reflexivity.
  - rewrite Nat2Z.inj_succ, Z.pow_succ_r by lia.
    replace (x * (10 * 10 ^ Z.of_nat n)) with (10 * (x * 10 ^ Z.of_nat n))
      by lia.
    assert (0 < 10 ^ Z.of_nat n) by (apply Z.pow_pos_nonneg; lia).
    rewrite decimal_tenfold by nia.
    rewrite IH, zeros_succ, append_assoc. reflexivity.
Qed.

Lemma String_pos_safe (x : Z) :
  1 <= x <= MAX_SAFE_INTEGER -> String_pos x = decimal x.
Proof.
  intros Hx. unfold String_pos, shortest.
  pose proof (digit_count_safe x Hx) as Hd.
  destruct (shortest_from 17 1 x) as [[[s k] n] | ] eqn:E.
  - apply shortest_from_In in E. apply candidates_spec in E.
    destruct E as [Hn [Hs Hv]].
    assert (0 <= 10 ^ (k - 1)) by (apply Z.pow_nonneg; lia).
    assert (0 <= 10 ^ (n - k)) by (apply Z.pow_nonneg; lia).
    apply Number_of_inv in Hv; [ | nia | lia].
    destruct (Z.leb_spec n 21); [ | lia].
    rewrite <- decimal_shift by nia. rewrite Hv. reflexivity.
  - exfalso. revert E.
    apply (shortest_from_found 17 x (digit_count x) _ (candidates_self x Hx)).
    lia.
Qed.

Lemma String__safe (x : Z) :
  0 <= x <= MAX_SAFE_INTEGER -> String_ x = decimal x.
Proof.
  intros Hx. unfold String_.
  destruct (Z.eqb_spec x 0) as [-> | Hnz]; [reflexivity | ].
  destruct (Z.ltb_spec x 0); [lia | ].
  apply String_pos_safe. lia.
Qed.

(** Beyond the safe integers [String] rounds to the shortest digits that
    still name the Number, and from [10 ^ 21] on it writes an exponent;
    a quotient is rounded before [Math.floor] sees it. *)
Example String__beyond_safe :
  String_ (2 ^ 60) = "1152921504606847000"%string
  /\ String_ (10 ^ 21) = "1e+21"%string
  /\ String_ (2 ^ 70) = "1.1805916207174113e+21"%string
  /\ String_ (Number_of (10 ^ 23)) = "1e+23"%string
  /\ String_ (- 2 ^ 53) = "-9007199254740992"%string.
Proof. repeat split; vm_compute; reflexivity. Qed.

Example Math_floor_beyond_safe :
  Math_floor (divide (10 ^ 21) 60) = 16666666666666665984
  /\ 10 ^ 21 / 60 = 16666666666666666666
  /\ Number_of (2 ^ 53 + 1) = 2 ^ 53
  /\ Number_of (2 ^ 53 + 3) = 2 ^ 53 + 4.
Proof. repeat split; vm_compute; reflexivity. Qed.

(** * The properties *)

(** C1. A focus session with one second left and no session completed yet
    is started and left to expire: the callbacks are invoked in the order
    onTick (0, focus), onEnd (focus, 1), onModeChange (short),
    onTick (durations.short, short), the first of them being the tick that
    brought [timeLeft] to 0, before the expiry is handled.  A callback that
    was not supplied is skipped; with the three of them supplied the
    sequence is exactly this one. *)
Theorem C1_expiry_call_sequence (w : World) :
  reachable w ->
  mode (this w) = focus ->
  timeLeft (this w) = 1 ->
  focusSessions (this w) = 0 ->
  let w' := exec (start ;; second) w in
  let sequence :=
    [OnTick 0 focus; OnEnd focus 1; OnModeChange short;
     OnTick (dget (durations (this w)) short) short] in
  calls w' = calls w ++ heard (this w) sequence
  /\ (onTick (this w) = true -> onEnd (this w) = true ->
      onModeChange (this w) = true ->
      calls w' = calls w ++ sequence).
Proof.
  intros Hw Hm Ht Hn. cbv zeta.
  assert (E : calls (exec (start ;; second) w) =
              calls w ++ heard (this w)
                [OnTick 0 focus; OnEnd focus 1; OnModeChange short;
                 OnTick (dget (durations (this w)) short) short]).
  { rewrite exec_bind.
    destruct (start_keeps w) as (Kr & Km & Kt & Kn & Kd & Kh & Kc).
    pose proof (Inv_start w (reachable_Inv w Hw)) as HI.
    rewrite second_expiring.
    - cbv zeta. cbn [calls]. rewrite Kc, Kh, Km, Kn, Kd, Hm, Hn. reflexivity.
    - apply HI.
    - split; congruence. }
  split; [exact E | ].
  intros Ct Ce Cm. rewrite E, heard_all by assumption. reflexivity.
Qed.

Lemma C1_expiry_call_sequence_witness :
  let w := run ([OSetDuration focus 1; OStart] ++ repeat OSecond 59)
               (fresh (mkOpts true true true)) in
  calls (exec (start ;; second) w) =
  calls w ++ [OnTick 0 focus; OnEnd focus 1; OnModeChange short;
              OnTick 300 short].
Proof.
  intros w.
  refine (proj2 (C1_expiry_call_sequence w _ _ _ _) _ _ _);
    try reflexivity.
  apply reachable_run, reachable_fresh.
Defined.

(** C2. At every natural expiry: when the mode that expires is focus the
    session count is incremented first and the next mode is long exactly
    when the new count is a multiple of 4, short otherwise; when it is
    short or long the next mode is focus.  So the 4th focus expiry of a
    timer moves to long and the 5th to short, as the run of a new timer
    through nine consecutive sessions shows. *)
Theorem C2_next_mode (w : World) :
  reachable w -> expiring w ->
  let w' := exec second w in
  let n' := focusSessions (this w') in
  (mode (this w) = focus ->
     n' = focusSessions (this w) + 1
     /\ (mode (this w') = long <-> n' mod 4 = 0)
     /\ (mode (this w') = short <-> n' mod 4 <> 0))
  /\ (mode (this w) <> focus -> mode (this w') = focus)
  /\ (mode (this w) = focus -> focusSessions (this w) = 3 ->
      mode (this w') = long)
  /\ (mode (this w) = focus -> focusSessions (this w) = 4 ->
      mode (this w') = short)
  /\ (forall opts,
        map (fun k => mode (this (exec (sessions k) (fresh opts))))
            [1; 2; 3; 4; 5; 6; 7; 8; 9]%nat =
        [short; focus; short; focus; short; focus; long; focus; short]).
Proof.
  intros Hw He. cbv zeta.
  pose proof (reachable_Inv w Hw) as (Hh & Hd & Ht & Hn).
  split; [ | split; [ | split; [ | split; [ | apply nine_sessions]]]];
    rewrite second_expiring by assumption; simpl.
  - intros ->. simpl.
    assert (Hrem : Z.rem (focusSessions (this w) + 1) 4 =
                   (focusSessions (this w) + 1) mod 4)
      by (apply Z.rem_mod_nonneg; lia).
    rewrite Hrem.
    destruct (Z.eqb_spec ((focusSessions (this w) + 1) mod 4) 0) as [E | E].
    + repeat split; auto; intros; try discriminate; contradiction.
    + repeat split; auto; intros; try discriminate; contradiction.
  - destruct (mode (this w)); simpl; congruence.
  - intros -> ->. reflexivity.
  - intros -> ->. reflexivity.
Qed.

Lemma C2_next_mode_witness :
  let w := run ([OSetDuration focus 1; OStart] ++ repeat OSecond 59)
               (fresh (mkOpts true true true)) in
  mode (this w) = focus /\ mode (this (exec second w)) = short.
Proof.
  intros w. split; [reflexivity | ].
  assert (Hw : reachable w) by apply reachable_run, reachable_fresh.
  assert (He : expiring w) by (split; reflexivity).
  pose proof (C2_next_mode w Hw He) as H. cbv zeta in H.
  apply (proj2 (proj2 (proj1 H eq_refl))).
  vm_compute. discriminate.
Defined.


(** C3. In every reachable state [0 <= timeLeft <= durations[mode]], and
    the values of [timeLeft] that onTick has reported, which include the
    ones read in the middle of a tick, are between 0 and the longest
    duration.  Whatever happens to a running timer that leaves it running
    does not increase [timeLeft]; [reset], [setMode] and the advance to the
    next mode at a natural expiry set [timeLeft] to [durations[mode]]. *)
Theorem C3_timeLeft_bounds (w : World) :
  reachable w ->
  0 <= timeLeft (this w) <= dget (durations (this w)) (mode (this w))
  /\ (forall o,
        isRunning (this w) = true ->
        isRunning (this (exec (step o) w)) = true ->
        timeLeft (this (exec (step o) w)) <= timeLeft (this w))
  /\ full (exec reset w)
  /\ (forall m, full (exec (setMode m) w) /\ mode (this (exec (setMode m) w)) = m)
  /\ (expiring w -> full (exec second w))
  /\ Forall call_ok (calls w).
Proof.
  intros Hw. pose proof (reachable_Inv w Hw) as (Hh & Hd & Ht & Hn).
  split; [lia | split; [ | split; [ | split; [ | split]]]];
    [ | | | | apply reachable_calls_ok, Hw].
  - intros o Hr Hr'. destruct o as [ | | | | m | m minutes | ].
    + rewrite start_running by assumption. lia.
    + rewrite pause_ok in Hr' by assumption. discriminate.
    + rewrite step_toggle, toggle_exec, Hr, pause_ok in Hr' by assumption.
      discriminate.
    + simpl step in Hr'. rewrite reset_ok in Hr' by assumption. discriminate.
    + simpl step in Hr'. rewrite setMode_ok in Hr' by assumption.
      discriminate.
    + simpl step in *.
      destruct (Mode_eq_dec (mode (this w)) m) as [<- | Hne].
      * rewrite setDuration_active in Hr' by assumption. discriminate.
      * rewrite setDuration_other by assumption. simpl. lia.
    + simpl step in *.
      destruct (Z.eq_dec (timeLeft (this w)) 1) as [H1 | H1].
      * rewrite second_expiring in Hr' by (unfold expiring; auto).
        discriminate.
      * rewrite second_counting by (auto; lia). simpl. lia.
  - unfold full. rewrite reset_ok by assumption. reflexivity.
  - intros m. unfold full. rewrite setMode_ok by assumption.
    split; reflexivity.
  - intros He. unfold full. rewrite second_expiring by assumption.
    reflexivity.
Qed.

Lemma C3_timeLeft_bounds_witness :
  let w := run [OStart; OSecond; OSecond] (fresh (mkOpts true true true)) in
  0 <= timeLeft (this w) <= dget (durations (this w)) (mode (this w)).
Proof.
  intros w.
  apply (C3_timeLeft_bounds w). apply reachable_run, reachable_fresh.
Defined.

(** C4. [focusSessions] is 0 in a new timer and never negative; an event
    changes it only when it is the natural expiry of a focus session, which
    adds exactly 1: [start], [pause], [toggle], [reset], [setMode],
    [setDuration], a second that is not an expiry, and the expiry of a short
    or long break leave it as it is. *)
Theorem C4_focusSessions_counter (w : World) (o : Op) :
  reachable w ->
  let n := focusSessions (this w) in
  let n' := focusSessions (this (exec (step o) w)) in
  (forall opts, focusSessions (this (fresh opts)) = 0)
  /\ 0 <= n <= n'
  /\ (focus_expiry o w -> n' = n + 1)
  /\ (~ focus_expiry o w -> n' = n)
  /\ (o <> OSecond -> n' = n)
  /\ (o = OSecond -> expiring w -> mode (this w) <> focus -> n' = n).
Proof.
  intros Hw. cbv zeta.
  pose proof (reachable_Inv w Hw) as (Hh & Hd & Ht & Hn).
  assert (Hyes : focus_expiry o w ->
            focusSessions (this (exec (step o) w)) =
            focusSessions (this w) + 1).
  { intros (-> & He & Hm). simpl step.
    rewrite second_expiring by assumption. simpl. rewrite Hm. reflexivity. }
  assert (Hno : ~ focus_expiry o w ->
            focusSessions (this (exec (step o) w)) = focusSessions (this w)).
  { intros Hnot. destruct o as [ | | | | m | m minutes | ].
    - destruct (isRunning (this w)) eqn:Hr.
      + rewrite start_running by assumption. reflexivity.
      + simpl step. rewrite start_paused by assumption. reflexivity.
    - simpl step. rewrite pause_ok by assumption. reflexivity.
    - rewrite step_toggle, toggle_exec.
      destruct (isRunning (this w)) eqn:Hr.
      + rewrite pause_ok by assumption. reflexivity.
      + rewrite start_paused by assumption. reflexivity.
    - simpl step. rewrite reset_ok by assumption. reflexivity.
    - simpl step. rewrite setMode_ok by assumption. reflexivity.
    - simpl step. destruct (Mode_eq_dec (mode (this w)) m) as [<- | Hne].
      + rewrite setDuration_active by assumption. reflexivity.
      + rewrite setDuration_other by assumption. reflexivity.
    - simpl step. destruct (isRunning (this w)) eqn:Hr.
      + destruct (Z.eq_dec (timeLeft (this w)) 1) as [H1 | H1].
        * rewrite second_expiring by (unfold expiring; auto). simpl.
          destruct (mode (this w)) eqn:Hm; try reflexivity.
          exfalso. apply Hnot. unfold focus_expiry, expiring. auto.
        * rewrite second_counting by (auto; lia). reflexivity.
      + rewrite second_paused by assumption. reflexivity. }
  assert (Hdec : focus_expiry o w \/ ~ focus_expiry o w).
  { unfold focus_expiry, expiring.
    destruct o; try (right; intros (E & _); discriminate).
    destruct (isRunning (this w));
      [ | right; intros (_ & (E & _) & _); discriminate].
    destruct (Z.eq_dec (timeLeft (this w)) 1) as [H1 | H1];
      [ | right; intros (_ & (_ & E) & _); contradiction].
    destruct (Mode_eq_dec (mode (this w)) focus) as [Hm | Hm];
      [left; auto | right; intros (_ & _ & E); contradiction]. }
  split; [reflexivity | split; [ | split; [exact Hyes | split; [exact Hno | ]]]].
  - destruct Hdec as [H | H]; [rewrite (Hyes H) | rewrite (Hno H)]; lia.
  - split.
    + intros Ho. apply Hno. intros (E & _). contradiction.
    + intros _ _ Hm. apply Hno. intros (_ & _ & E). contradiction.
Qed.

Lemma C4_focusSessions_counter_witness :
  let w := run ([OSetDuration focus 1; OStart] ++ repeat OSecond 59)
               (fresh (mkOpts true true true)) in
  focusSessions (this w) = 0
  /\ focusSessions (this (exec (step OSecond) w)) = 1.
Proof.
  intros w. split; [reflexivity | ].
  assert (Hw : reachable w) by apply reachable_run, reachable_fresh.
  pose proof (C4_focusSessions_counter w OSecond Hw) as H. cbv zeta in H.
  refine (proj1 (proj2 (proj2 H)) _).
  split; [reflexivity | split; [split; reflexivity | reflexivity]].
Defined.

(** C5. In any state, [setDuration (mode, minutes)] returns, with
    [clamp (minutes, 1, 99) * 60] stored as the duration of [mode]; so
    for [minutes] in [1, 99], [setDuration (mode, minutes)] followed by
    [setMode (mode)] leaves [timeLeft = minutes * 60], and the duration
    stored for [minutes < 1] is 60 and for [minutes > 99] is [99 * 60]. *)
Theorem C5_setDuration_clamps (w : World) (m : Mode) (minutes : Z) :
  let stored := dget (durations (this (exec (setDuration m minutes) w))) m in
  (exists w', setDuration m minutes w = (tt, w'))
  /\ stored = clamp minutes 1 99 * 60
  /\ (1 <= minutes <= 99 ->
      timeLeft (this (exec (setDuration m minutes ;; setMode m) w)) =
      minutes * 60)
  /\ (minutes < 1 -> stored = 60)
  /\ (99 < minutes -> stored = 99 * 60).
Proof.
  cbv zeta.
  assert (Hd : durations (this (exec (setDuration m minutes) w)) =
               dset (durations (this w)) m (Z.max 1 (Z.min 99 minutes) * 60)).
  { break_world w. run_methods.
    destruct w_m, m, w_iv, w_ct; reflexivity. }
  assert (Hs : dget (durations (this (exec (setDuration m minutes) w))) m =
               clamp minutes 1 99 * 60).
  { rewrite Hd, dget_dset_same, clamp_max_min. reflexivity. }
  split; [ | split; [exact Hs | split; [ | split]]].
  - destruct (setDuration m minutes w) as [[] w'] eqn:E. exists w'.
    reflexivity.
  - intros Hr. rewrite exec_bind.
    set (w1 := exec (setDuration m minutes) w) in *.
    assert (Ht : timeLeft (this (exec (setMode m) w1)) =
                 dget (durations (this w1)) m).
    { clearbody w1. clear. break_world w1. run_methods.
      destruct w_iv, w_cm, w_ct; reflexivity. }
    rewrite Ht, Hs. unfold clamp.
    destruct (Z.ltb_spec minutes 1); [lia | ].
    destruct (Z.ltb_spec 99 minutes); lia.
  - intros Hlt. rewrite Hs. unfold clamp.
    destruct (Z.ltb_spec minutes 1); lia.
  - intros Hgt. rewrite Hs. unfold clamp.
    destruct (Z.ltb_spec minutes 1); [lia | ].
    destruct (Z.ltb_spec 99 minutes); lia.
Qed.

Lemma C5_setDuration_clamps_witness :
  let w := fresh (mkOpts true true true) in
  timeLeft (this (exec (setDuration short 42 ;; setMode short) w)) = 42 * 60
  /\ dget (durations (this (exec (setDuration long 0) w))) long = 60
  /\ dget (durations (this (exec (setDuration focus 120) w))) focus = 99 * 60.
Proof.
  intros w. split; [ | split].
  - apply (C5_setDuration_clamps w short 42). lia.
  - apply (C5_setDuration_clamps w long 0). lia.
  - apply (C5_setDuration_clamps w focus 120). lia.
Defined.

(** C6. On a new timer [toggle ()] returns true and the next [toggle ()]
    returns false.  In every reachable state at most one interval is
    registered with the host, and exactly one while the timer runs; this
    holds in particular after any sequence of [start] and [toggle] calls
    on a new timer.  Two [start ()] calls in a row followed by three
    seconds take exactly 3 off [timeLeft]: [start ()] on a running timer
    changes nothing, and neither does [pause ()] on a paused one. *)
Theorem C6_single_countdown (opts : Opts) (w : World) :
  reachable w ->
  eval toggle (fresh opts) = true
  /\ eval toggle (exec toggle (fresh opts)) = false
  /\ List.length (intervals w) = (if isRunning (this w) then 1 else 0)%nat
  /\ (forall ops,
        Forall (fun o => o = OStart \/ o = OToggle) ops ->
        (List.length (intervals (run ops (fresh opts))) <= 1)%nat)
  /\ (3 < timeLeft (this w) ->
      timeLeft (this (exec (start ;; start ;; seconds 3) w)) =
      timeLeft (this w) - 3)
  /\ (isRunning (this w) = true -> exec start w = w)
  /\ (isRunning (this w) = false -> exec pause w = w).
Proof.
  intros Hw.
  assert (Hlen : forall v, reachable v ->
            List.length (intervals v) = (if isRunning (this v) then 1 else 0)%nat).
  { intros v Hv. destruct (reachable_host_ok v Hv) as [Hi Hr].
    rewrite Hi, Hr. destruct (_interval (this v)); reflexivity. }
  split; [reflexivity | split; [reflexivity | split; [auto | ]]].
  split; [ | split; [ | split]].
  - intros ops _.
    rewrite (Hlen (run ops (fresh opts)))
      by apply reachable_run, reachable_fresh.
    destruct (isRunning _); lia.
  - intros Ht. rewrite !exec_bind.
    destruct (start_keeps w) as (Kr & _ & Kt & _).
    pose proof (Inv_start w (reachable_Inv w Hw)) as HI.
    rewrite (start_running (exec start w)) by assumption.
    destruct (seconds_counting 3 (exec start w) HI Kr) as (_ & _ & H3 & _).
    + rewrite Kt. simpl. lia.
    + rewrite H3, Kt. simpl. lia.
  - apply start_running.
  - intros Hp. rewrite pause_ok by (apply reachable_host_ok, Hw).
    destruct (reachable_host_ok w Hw) as [Hi Hr].
    rewrite Hp in Hr. destruct (_interval (this w)) eqn:Ei; [discriminate | ].
    break_world w. simpl in *. subst. reflexivity.
Qed.

Lemma C6_single_countdown_witness :
  let w := fresh (mkOpts true true true) in
  timeLeft (this (exec (start ;; start ;; seconds 3) w)) = 1500 - 3.
Proof.
  intros w.
  apply (C6_single_countdown (mkOpts true true true) w).
  - apply reachable_fresh.
  - reflexivity.
Defined.

(** C7. [reset ()] in any reachable state: the timer is paused and no
    interval stays registered, [timeLeft] is [durations[mode]] of the
    current mode, the only callback invoked is onTick, once, with that
    value and the current mode (no onModeChange, no onEnd), and [mode],
    [focusSessions] and [durations] are as before. *)
Theorem C7_reset_frame (w : World) :
  reachable w ->
  let t := this w in
  let w' := exec reset w in
  isRunning (this w') = false
  /\ _interval (this w') = None
  /\ intervals w' = []
  /\ timeLeft (this w') = dget (durations t) (mode t)
  /\ calls w' =
     calls w ++
     (if onTick t then [OnTick (dget (durations t) (mode t)) (mode t)]
      else [])
  /\ mode (this w') = mode t
  /\ focusSessions (this w') = focusSessions t
  /\ durations (this w') = durations t.
Proof.
  intros Hw. cbv zeta.
  rewrite reset_ok by (apply reachable_host_ok, Hw).
  simpl. repeat split; reflexivity.
Qed.

Lemma C7_reset_frame_witness :
  let w := run [OStart; OSecond; OSecond] (fresh (mkOpts true true true)) in
  calls (exec reset w) = calls w ++ [OnTick 1500 focus].
Proof.
  intros w.
  apply (C7_reset_frame w). apply reachable_run, reachable_fresh.
Defined.

(** C8. [setDuration (m, minutes)] for a mode [m] that is not the active
    one changes [durations[m]] and nothing else: [timeLeft], [mode],
    [isRunning], [focusSessions], the durations of the other modes, the
    registered interval and the calls made are as before.  For the active
    mode it is [reset ()] on the timer with the new duration stored: the
    countdown is stopped, [timeLeft] is the new clamped duration and onTick
    is invoked once with it. *)
Theorem C8_setDuration_frame (w : World) (m : Mode) (minutes : Z) :
  reachable w ->
  let t := this w in
  let secs := clamp minutes 1 99 * 60 in
  let stored :=
    mkWorld (set_durations (dset (durations t) m secs) t)
            (intervals w) (nextHandle w) (calls w) in
  let w' := exec (setDuration m minutes) w in
  (mode t <> m ->
     w' = stored
     /\ timeLeft (this w') = timeLeft t
     /\ mode (this w') = mode t
     /\ isRunning (this w') = isRunning t
     /\ focusSessions (this w') = focusSessions t
     /\ (forall m', m' <> m ->
           dget (durations (this w')) m' = dget (durations t) m')
     /\ intervals w' = intervals w
     /\ calls w' = calls w)
  /\ (mode t = m ->
     w' = exec reset stored
     /\ isRunning (this w') = false
     /\ intervals w' = []
     /\ timeLeft (this w') = secs
     /\ dget (durations (this w')) m = secs
     /\ calls w' = calls w ++ (if onTick t then [OnTick secs m] else [])).
Proof.
  intros Hw. cbv zeta. rewrite <- clamp_max_min.
  pose proof (reachable_host_ok w Hw) as Hh.
  split.
  - intros Hne. rewrite setDuration_other by assumption. simpl.
    repeat split; try reflexivity.
    intros m' Hm'. apply dget_dset_other, Hm'.
  - intros <-. rewrite setDuration_active by assumption.
    rewrite reset_ok by exact Hh.
    simpl. rewrite dget_dset_same. repeat split; reflexivity.
Qed.

Lemma C8_setDuration_frame_witness :
  let w := run [OStart; OSecond; OSecond] (fresh (mkOpts true true true)) in
  timeLeft (this (exec (setDuration short 10) w)) = 1498
  /\ timeLeft (this (exec (setDuration focus 10) w)) = 600.
Proof.
  intros w.
  assert (Hw : reachable w) by apply reachable_run, reachable_fresh.
  split.
  - apply (C8_setDuration_frame w short 10 Hw). discriminate.
  - apply (C8_setDuration_frame w focus 10 Hw). reflexivity.
Defined.

(** C9, as the code has it.  A Number holds every integer up to
    [MAX_SAFE_INTEGER = 2 ^ 53 - 1] exactly.  For a whole number of seconds
    [0 <= s <= MAX_SAFE_INTEGER], [format (s)] is the numeral of
    [floor (s / 60)] and the numeral of [s mod 60], each in decimal and
    padded on the left with zeros to two digits at least, with a colon
    between them.  Both fields read back as the numbers they stand for;
    the seconds field has two digits, and the minutes field is not cut at
    59: from 100 minutes on it has more than two digits.
    [format (65) = "01:05"] and [format (0) = "00:00"]. *)
Theorem C9_format (s : Z) :
  0 <= s <= MAX_SAFE_INTEGER ->
  let mm := zero_padded 2 (decimal (s / 60)) in
  let ss := zero_padded 2 (decimal (s mod 60)) in
  format s = (mm ++ ":" ++ ss)%string
  /\ format s = spec_format s
  /\ value mm = Some (s / 60)
  /\ value ss = Some (s mod 60)
  /\ (2 <= String.length mm)%nat
  /\ String.length ss = 2%nat
  /\ (100 * 60 <= s -> (2 < String.length mm)%nat)
  /\ format 65 = "01:05"%string
  /\ format 0 = "00:00"%string
  /\ format (100 * 60) = "100:00"%string.
Proof.
  intros Hs. cbv zeta.
  assert (Hm : 0 <= s / 60 <= MAX_SAFE_INTEGER).
  { split; [apply Z.div_pos; lia | apply Z.div_le_upper_bound; lia]. }
  assert (Hr : 0 <= s mod 60 < 60) by (apply Z.mod_pos_bound; lia).
  assert (Hf : format s = spec_format s).
  { unfold format, spec_format. rewrite !padStart_zero.
    rewrite Math_floor_divide by lia.
    rewrite Z.rem_mod_nonneg by lia.
    rewrite !String__safe by (unfold MAX_SAFE_INTEGER in *; lia).
    reflexivity. }
  split; [exact Hf | split; [exact Hf | ]].
  split; [apply value_zero_padded; lia | ].
  split; [apply value_zero_padded; lia | ].
  rewrite !zero_padded_length.
  split; [lia | split; [ | split]].
  - pose proof (decimal_two_digits (s mod 60)). lia.
  - intros Hbig.
    assert (H100 : 100 <= s / 60) by (apply Z.div_le_lower_bound; lia).
    destruct (Nat.le_gt_cases (String.length (decimal (s / 60))) 2)
      as [Hle | Hgt]; [ | lia].
    pose proof (value_short _ _ (value_decimal _ (proj1 Hm)) Hle). lia.
  - repeat split; vm_compute; reflexivity.
Qed.

Lemma C9_format_witness :
  format 3725 = "62:05"%string.
Proof.
  refine (eq_trans (proj1 (C9_format 3725 _)) _);
    [unfold MAX_SAFE_INTEGER; lia | reflexivity].
Defined.

(** C9 as the specification states it, for every non-negative integer,
    fails on the code.  [6 * 10 ^ 22] seconds is a Number and a whole
    number of minutes, [10 ^ 21] of them, which [String] prints with an
    exponent.  [10 ^ 21] seconds is a Number too; its quotient by 60 is
    rounded, and of the minutes that are left [String] prints seventeen
    digits and zeros. *)
Lemma C9_format_counterexample :
  0 <= 6 * 10 ^ 22
  /\ Number_of (6 * 10 ^ 22) = 6 * 10 ^ 22
  /\ format (6 * 10 ^ 22) = "1e+21:00"%string
  /\ spec_format (6 * 10 ^ 22) = "1000000000000000000000:00"%string
  /\ format (6 * 10 ^ 22) <> spec_format (6 * 10 ^ 22)
  /\ Number_of (10 ^ 21) = 10 ^ 21
  /\ format (10 ^ 21) = "16666666666666666000:40"%string
  /\ spec_format (10 ^ 21) = "16666666666666666666:40"%string.
Proof.
  split; [lia | ].
  split; [vm_compute; reflexivity | ].
  split; [vm_compute; reflexivity | ].
  split; [vm_compute; reflexivity | ].
  split; [vm_compute; discriminate | ].
  repeat split; vm_compute; reflexivity.
Qed.

(** C10. Right after a mode change, by [setMode] or by the advance at a
    natural expiry, the timer is not running and no interval is registered.
    The next session does not count down by itself: seconds that pass
    change nothing until [start ()] or [toggle ()] is called, which sets the
    timer running again. *)
Theorem C10_mode_change_stops (w v : World) :
  reachable w ->
  (exists m, v = exec (setMode m) w) \/ (expiring w /\ v = exec second w) ->
  isRunning (this v) = false
  /\ _interval (this v) = None
  /\ intervals v = []
  /\ (forall n, exec (seconds n) v = v)
  /\ isRunning (this (exec start v)) = true
  /\ eval toggle v = true
  /\ timeLeft (this (exec (start ;; second) v)) = timeLeft (this v) - 1.
Proof.
  intros Hw Hv.
  pose proof (reachable_Inv w Hw) as HIw.
  assert (H : Inv v /\ isRunning (this v) = false /\ full v).
  { destruct Hv as [[m ->] | [He ->]].
    - split; [apply Inv_setMode, HIw | ].
      unfold full. rewrite setMode_ok by apply HIw. split; reflexivity.
    - split; [apply Inv_second, HIw | ].
      unfold full. rewrite second_expiring by (auto; apply HIw).
      split; reflexivity. }
  destruct H as (HI & Hp & Hf).
  pose proof HI as ([Hi Hr] & Hd & Ht & Hn).
  rewrite Hp in Hr.
  destruct (_interval (this v)) eqn:Ei; [discriminate | ].
  destruct (start_keeps v) as (Kr & _ & Kt & _).
  assert (H60 : 60 <= timeLeft (this v)).
  { rewrite Hf. apply (Hd (mode (this v))). }
  split; [exact Hp | split; [reflexivity | split; [exact Hi | ]]].
  split; [ | split; [exact Kr | split]].
  - intros n. apply seconds_paused; [apply HI | exact Hp].
  - rewrite toggle_eval, toggle_exec, Hp. exact Kr.
  - rewrite exec_bind.
    rewrite second_counting; [ | apply Inv_start, HI | exact Kr | lia].
    simpl. rewrite Kt. reflexivity.
Qed.

Lemma C10_mode_change_stops_witness :
  let w := run ([OSetDuration focus 1; OStart] ++ repeat OSecond 59)
               (fresh (mkOpts true true true)) in
  isRunning (this (exec second w)) = false
  /\ isRunning (this (exec (setMode long) w)) = false.
Proof.
  intros w.
  assert (Hw : reachable w) by apply reachable_run, reachable_fresh.
  split.
  - apply (C10_mode_change_stops w (exec second w) Hw).
    right. split; [split; reflexivity | reflexivity].
  - apply (C10_mode_change_stops w (exec (setMode long) w) Hw).
    left. exists long. reflexivity.
Defined.

(** * Further properties of the timer *)

Lemma step_cases (o : Op) (w : World) :
  Inv w -> step_spec w o (exec (step o) w).
Proof.
  intros (Hh & Hd & Ht & Hn).
  assert (Hp : isRunning (this w) = false ->
               intervals w ++ [nextHandle w] = [nextHandle w]).
  { intros Hp. destruct Hh as [Hi Hr]. rewrite Hp in Hr.
    destruct (_interval (this w)); [discriminate | ]. rewrite Hi.
    reflexivity. }
  destruct o as [ | | | | m | m minutes | ].
  - destruct (isRunning (this w)) eqn:Hr.
    + rewrite start_running by assumption. constructor. exact Hr.
    + simpl step. rewrite start_paused by assumption.
      rewrite Hp by reflexivity.
      constructor. exact Hr.
  - simpl step. rewrite pause_ok by assumption. constructor.
  - rewrite step_toggle, toggle_exec.
    destruct (isRunning (this w)) eqn:Hr.
    + rewrite pause_ok by assumption. constructor. exact Hr.
    + rewrite start_paused by assumption. rewrite Hp by reflexivity.
      apply ss_toggle_paused. exact Hr.
  - simpl step. rewrite reset_ok by assumption. constructor.
  - simpl step. rewrite setMode_ok by assumption. constructor.
  - simpl step. destruct (Mode_eq_dec (mode (this w)) m) as [<- | Hne].
    + rewrite setDuration_active by assumption. constructor.
    + rewrite setDuration_other by assumption. constructor. exact Hne.
  - simpl step. destruct (isRunning (this w)) eqn:Hr.
    + destruct (Z.eq_dec (timeLeft (this w)) 1) as [H1 | H1].
      * assert (He : expiring w) by (split; assumption).
        rewrite second_expiring by assumption. constructor. exact He.
      * rewrite second_counting by (auto; lia).
        constructor; [exact Hr | lia].
    + rewrite second_paused by assumption. constructor. exact Hr.
Qed.

Lemma concat_repeat_one {A : Type} (x : A) (n : nat) :
  List.concat (repeat [x] n) = repeat x n.
Proof. induction n as [ | n IH]; simpl; [ | rewrite IH]; reflexivity. Qed.

Lemma String_repeat_one (x : N) (count : Z) :
  0 <= count ->
  String_repeat [x] count = Some (repeat x (Z.to_nat count)).
Proof.
  intros Hc. unfold String_repeat.
  destruct (Z.ltb_spec count 0); [lia | ].
  f_equal. apply concat_repeat_one.
Qed.

(** [dots] on a counter that is not negative. *)
Lemma dots_nonneg (t : Timer) :
  0 <= focusSessions t ->
  let k := focusSessions t mod 4 in
  dots t = Some (repeat black_circle (Z.to_nat k) ++
                 repeat white_circle (Z.to_nat (4 - k))).
Proof.
  intros Hn. cbv zeta. unfold dots.
  rewrite Z.rem_mod_nonneg by lia.
  pose proof (Z.mod_pos_bound (focusSessions t) 4 ltac:(lia)) as Hk.
  rewrite !String_repeat_one by lia. reflexivity.
Qed.

(** The session count after an event. *)
Lemma focusSessions_step (o : Op) (w : World) :
  Inv w ->
  (focus_expiry o w ->
   focusSessions (this (exec (step o) w)) = focusSessions (this w) + 1
   /\ mode (this (exec (step o) w)) =
      successor focus (focusSessions (this w) + 1))
  /\ (~ focus_expiry o w ->
      focusSessions (this (exec (step o) w)) = focusSessions (this w)).
Proof.
  intros HI. unfold focus_expiry.
  destruct (step_cases o w HI) as
    [Hr | Hr | | Hr | Hr | | m | m minutes Hne | minutes | Hr | Hr Ht | He];
    cbv zeta; simpl;
    try (split; [intros (E & _); discriminate | reflexivity]).
  - split; [ | reflexivity]. intros (_ & (Hr' & _) & _). congruence.
  - split; [ | reflexivity]. intros (_ & (_ & Ht') & _). lia.
  - split.
    + intros (_ & _ & ->). simpl. split; reflexivity.
    + intros Hnot. destruct (mode (this w)) eqn:Hm; try reflexivity.
      exfalso. apply Hnot. auto.
Qed.

(** X1. [dots] throws exactly when the remainder of the session count by 4
    is negative, which takes a negative count.  In a reachable state it
    returns four glyphs, [k] filled ones followed by [4 - k] empty ones with
    [k = focusSessions mod 4], and [sessionNumber] is [k + 1], between 1
    and 4. *)
Theorem X1_session_indicator (w : World) :
  reachable w ->
  let k := focusSessions (this w) mod 4 in
  (forall t, dots t = None <-> Z.rem (focusSessions t) 4 < 0)
  /\ dots (this w) =
     Some (repeat black_circle (Z.to_nat k) ++
           repeat white_circle (Z.to_nat (4 - k)))
  /\ (forall s, dots (this w) = Some s -> List.length s = 4%nat)
  /\ sessionNumber (this w) = k + 1
  /\ 1 <= sessionNumber (this w) <= 4.
Proof.
  intros Hw. cbv zeta.
  pose proof (reachable_Inv w Hw) as (_ & _ & _ & Hn).
  pose proof (Z.mod_pos_bound (focusSessions (this w)) 4 ltac:(lia)) as Hk.
  assert (Hs : sessionNumber (this w) = focusSessions (this w) mod 4 + 1).
  { unfold sessionNumber. rewrite Z.rem_mod_nonneg by lia. reflexivity. }
  split; [ | split; [apply dots_nonneg, Hn | split; [ | split; [exact Hs | lia]]]].
  - intros t. unfold dots, String_repeat.
    pose proof (Z.rem_bound_abs (focusSessions t) 4 ltac:(lia)) as Hb.
    destruct (Z.ltb_spec (Z.rem (focusSessions t) 4) 0) as [Hneg | Hpos].
    + split; [intros _; exact Hneg | reflexivity].
    + destruct (Z.ltb_spec (4 - Z.rem (focusSessions t) 4) 0); [lia | ].
      split; [discriminate | lia].
  - intros s. rewrite dots_nonneg by exact Hn. intros E.
    assert (Es : s = (repeat black_circle
                        (Z.to_nat (focusSessions (this w) mod 4)) ++
                      repeat white_circle
                        (Z.to_nat (4 - focusSessions (this w) mod 4)))%list)
      by congruence.
    rewrite Es, List.length_app, !repeat_length. lia.
Qed.

Lemma X1_session_indicator_witness :
  let w := run ([OSetDuration focus 1; OStart] ++ repeat OSecond 60)
               (fresh (mkOpts true true true)) in
  dots (this w) =
  Some [black_circle; white_circle; white_circle; white_circle].
Proof.
  intros w.
  refine (eq_trans (proj1 (proj2 (X1_session_indicator w _))) _).
  - apply reachable_run, reachable_fresh.
  - reflexivity.
Defined.

(** X2. The indicator moves only at the natural expiry of a focus session,
    where [sessionNumber] goes to the next place of the cycle 1, 2, 3, 4, 1;
    the break that follows is the long one exactly when the indicator is
    back at session 1 with four empty glyphs.  Every other event leaves
    [sessionNumber] and [dots] as they are. *)
Theorem X2_indicator_advance (w : World) (o : Op) :
  reachable w ->
  let t := this w in
  let t' := this (exec (step o) w) in
  (focus_expiry o w ->
     sessionNumber t' = sessionNumber t mod 4 + 1
     /\ (mode t' = long <-> sessionNumber t' = 1)
     /\ (mode t' = long <-> dots t' = Some (repeat white_circle 4)))
  /\ (~ focus_expiry o w ->
      sessionNumber t' = sessionNumber t /\ dots t' = dots t).
Proof.
  intros Hw. cbv zeta.
  pose proof (reachable_Inv w Hw) as HI.
  pose proof HI as (_ & _ & _ & Hn).
  destruct (focusSessions_step o w HI) as [Hyes Hno].
  split.
  - intros Hf. destruct (Hyes Hf) as [En Em].
    set (n := focusSessions (this w)) in *.
    assert (Hn' : 0 <= n + 1) by lia.
    pose proof (Z.mod_pos_bound (n + 1) 4 ltac:(lia)) as Hk.
    unfold sessionNumber. rewrite En, Em.
    rewrite dots_nonneg by (rewrite En; exact Hn'). rewrite En.
    unfold successor. rewrite !Z.rem_mod_nonneg by lia.
    split; [ | split].
    + rewrite Z.add_mod_idemp_l by lia. reflexivity.
    + destruct (Z.eqb_spec ((n + 1) mod 4) 0) as [E | E].
      * split; [lia | reflexivity].
      * split; [discriminate | lia].
    + destruct (Z.eqb_spec ((n + 1) mod 4) 0) as [E | E].
      * rewrite E. split; reflexivity.
      * split; [discriminate | ].
        intros [= H].
        assert (Hc : (n + 1) mod 4 = 1 \/ (n + 1) mod 4 = 2
                     \/ (n + 1) mod 4 = 3) by lia.
        destruct Hc as [Hc | [Hc | Hc]]; rewrite Hc in H; discriminate.
  - intros Hf. specialize (Hno Hf).
    unfold sessionNumber, dots. rewrite Hno. split; reflexivity.
Qed.

Lemma X2_indicator_advance_witness :
  let w := run ([OSetDuration focus 1; OStart] ++ repeat OSecond 59)
               (fresh (mkOpts true true true)) in
  sessionNumber (this (exec (step OSecond) w)) = 2.
Proof.
  intros w.
  assert (Hw : reachable w) by apply reachable_run, reachable_fresh.
  refine (eq_trans (proj1 (proj1 (X2_indicator_advance w OSecond Hw) _)) _).
  - split; [reflexivity | split; [split; reflexivity | reflexivity]].
  - reflexivity.
Defined.

Lemma heard_flags (t t' : Timer) (cs : list Call) :
  onTick t' = onTick t -> onEnd t' = onEnd t ->
  onModeChange t' = onModeChange t ->
  heard t' cs = heard t cs.
Proof.
  intros Ht He Hm. unfold heard. apply filter_ext.
  intros c. destruct c; simpl; assumption.
Qed.

Lemma heard_app (t : Timer) (a b : list Call) :
  heard t (a ++ b) = heard t a ++ heard t b.
Proof. apply filter_app. Qed.

Lemma countdown_ticks_S (left : Z) (m : Mode) (n : nat) :
  countdown_ticks left m (S n) =
  OnTick (left - 1) m :: countdown_ticks (left - 1) m n.
Proof.
  unfold countdown_ticks. simpl. f_equal.
  rewrite <- seq_shift, map_map. apply map_ext.
  intros i. f_equal. lia.
Qed.

(** What [n] seconds of a running countdown add to the calls, while more
    than [n] seconds are left. *)
Lemma seconds_calls (n : nat) (w : World) :
  Inv w -> isRunning (this w) = true -> Z.of_nat n < timeLeft (this w) ->
  calls (exec (seconds n) w) =
  calls w ++
  heard (this w) (countdown_ticks (timeLeft (this w)) (mode (this w)) n).
Proof.
  revert w. induction n as [ | n IH]; intros w HI Hr Hn.
  - simpl. rewrite app_nil_r. reflexivity.
  - simpl seconds. rewrite exec_bind.
    assert (H1 : 1 < timeLeft (this w)) by lia.
    pose proof (second_counting w (proj1 HI) Hr H1) as Hs. cbv zeta in Hs.
    pose proof (Inv_second w HI) as HI'.
    rewrite IH; [ | exact HI' | rewrite Hs; exact Hr | rewrite Hs; simpl; lia].
    rewrite Hs. simpl this. simpl calls.
    rewrite countdown_ticks_S, <- app_assoc. f_equal.
    change (OnTick (timeLeft (this w) - 1) (mode (this w))
            :: countdown_ticks (timeLeft (this w) - 1) (mode (this w)) n)
      with ([OnTick (timeLeft (this w) - 1) (mode (this w))] ++
            countdown_ticks (timeLeft (this w) - 1) (mode (this w)) n).
    rewrite heard_app. reflexivity.
Qed.

Lemma start_flags (w : World) :
  onTick (this (exec start w)) = onTick (this w)
  /\ onEnd (this (exec start w)) = onEnd (this w)
  /\ onModeChange (this (exec start w)) = onModeChange (this w).
Proof.
  destruct (isRunning (this w)) eqn:Hr.
  - rewrite start_running by assumption. auto.
  - rewrite start_paused by assumption. auto.
Qed.

(** The timer after [n] seconds of a running countdown, while more than [n]
    seconds are left: only [timeLeft] has changed. *)
Lemma seconds_counting_this (n : nat) (w : World) :
  Inv w -> isRunning (this w) = true -> Z.of_nat n < timeLeft (this w) ->
  this (exec (seconds n) w) =
  set_timeLeft (timeLeft (this w) - Z.of_nat n) (this w).
Proof.
  revert w. induction n as [ | n IH]; intros w HI Hr Hn.
  - change (exec (seconds 0) w) with w. simpl Z.of_nat. rewrite Z.sub_0_r.
    destruct (this w). reflexivity.
  - simpl seconds. rewrite exec_bind.
    assert (H1 : 1 < timeLeft (this w)) by lia.
    pose proof (second_counting w (proj1 HI) Hr H1) as Hs. cbv zeta in Hs.
    pose proof (Inv_second w HI) as HI'.
    rewrite IH; [ | exact HI' | rewrite Hs; exact Hr | rewrite Hs; simpl; lia].
    rewrite Hs. unfold set_timeLeft. simpl. f_equal. lia.
Qed.

(** X3. Pausing keeps the time that is left: a countdown that runs [a]
    seconds, is paused while any number of seconds pass, and runs [b]
    seconds more after [start ()] has [a + b] seconds less on the clock, in
    the same mode, and is running. *)
Theorem X3_pause_keeps_time (w : World) (a k b : nat) :
  reachable w ->
  Z.of_nat a + Z.of_nat b < timeLeft (this w) ->
  let w' :=
    exec (start ;; seconds a ;; pause ;; seconds k ;; start ;; seconds b) w in
  timeLeft (this w') = timeLeft (this w) - (Z.of_nat a + Z.of_nat b)
  /\ mode (this w') = mode (this w)
  /\ focusSessions (this w') = focusSessions (this w)
  /\ isRunning (this w') = true.
Proof.
  intros Hw Hab. cbv zeta. rewrite !exec_bind.
  pose proof (reachable_Inv w Hw) as HI.
  destruct (start_keeps w) as (Kr & Km & Kt & Kn & _).
  pose proof (Inv_start w HI) as HI1.
  set (w1 := exec start w) in *.
  destruct (seconds_counting a w1 HI1 Kr) as (HI2 & _ & Ht2 & Hm2 & Hn2);
    [lia | ].
  set (w2 := exec (seconds a) w1) in *.
  pose proof (Inv_pause w2 HI2) as HI3.
  pose proof (pause_ok w2 (proj1 HI2)) as Hp.
  set (w3 := exec pause w2) in *.
  assert (Hr3 : isRunning (this w3) = false) by (rewrite Hp; reflexivity).
  rewrite (seconds_paused k w3 (proj1 HI3) Hr3).
  destruct (start_keeps w3) as (Kr4 & Km4 & Kt4 & Kn4 & _).
  pose proof (Inv_start w3 HI3) as HI4.
  set (w4 := exec start w3) in *.
  assert (Ht3 : timeLeft (this w3) = timeLeft (this w2))
    by (rewrite Hp; reflexivity).
  assert (Hm3 : mode (this w3) = mode (this w2)) by (rewrite Hp; reflexivity).
  assert (Hn3 : focusSessions (this w3) = focusSessions (this w2))
    by (rewrite Hp; reflexivity).
  destruct (seconds_counting b w4 HI4 Kr4) as (_ & Hr5 & Ht5 & Hm5 & Hn5);
    [lia | ].
  split; [lia | split; [congruence | split; [congruence | exact Hr5]]].
Qed.

Lemma X3_pause_keeps_time_witness :
  let w := fresh (mkOpts true true true) in
  timeLeft
    (this (exec (start ;; seconds 2 ;; pause ;; seconds 7 ;; start ;;
                 seconds 3) w)) = 1500 - (2 + 3).
Proof.
  intros w.
  apply (X3_pause_keeps_time w 2 7 3).
  - apply reachable_fresh.
  - simpl. lia.
Defined.

(** X4. A session that is started and left alone lasts exactly [timeLeft]
    seconds.  During the first [n < timeLeft] seconds the only calls are
    onTick with [timeLeft - 1], ..., [timeLeft - n], one per second, and the
    timer keeps running in its mode; the second that uses up the time adds
    onTick (0), onEnd, onModeChange and the onTick of the next mode, and
    stops the timer. *)
Theorem X4_session_length (w : World) (n : nat) :
  reachable w ->
  Z.of_nat n < timeLeft (this w) ->
  let t := this w in
  let w' := exec (start ;; seconds n) w in
  let w'' := exec (start ;; seconds (Z.to_nat (timeLeft t))) w in
  let sessions := counted (mode t) (focusSessions t) in
  let next := successor (mode t) sessions in
  calls w' = calls w ++ heard t (countdown_ticks (timeLeft t) (mode t) n)
  /\ isRunning (this w') = true
  /\ mode (this w') = mode t
  /\ timeLeft (this w') = timeLeft t - Z.of_nat n
  /\ calls w'' =
     calls w ++
     heard t (countdown_ticks (timeLeft t) (mode t)
                (Z.to_nat (timeLeft t) - 1) ++
              [OnTick 0 (mode t); OnEnd (mode t) sessions;
               OnModeChange next;
               OnTick (dget (durations t) next) next])
  /\ isRunning (this w'') = false
  /\ mode (this w'') = next.
Proof.
  intros Hw Hn. cbv zeta.
  pose proof (reachable_Inv w Hw) as HI.
  destruct (start_keeps w) as (Kr & Km & Kt & Kn & Kd & Kh & Kc).
  pose proof (Inv_start w HI) as HI1.
  assert (Kf : forall cs, heard (this (exec start w)) cs = heard (this w) cs)
    by (intros cs; rewrite Kh; reflexivity).
  rewrite !exec_bind.
  set (w1 := exec start w) in *.
  split; [ | split; [ | split; [ | split]]].
  - rewrite seconds_calls by (auto; lia). rewrite Kc, Kf, Kt, Km. reflexivity.
  - apply (seconds_counting n w1 HI1 Kr). lia.
  - rewrite <- Km. apply (seconds_counting n w1 HI1 Kr). lia.
  - rewrite <- Kt. apply (seconds_counting n w1 HI1 Kr). lia.
  - assert (Ht : 1 <= timeLeft (this w)) by apply HI.
    assert (Hk : Z.to_nat (timeLeft (this w)) =
                 S (Z.to_nat (timeLeft (this w)) - 1)) by lia.
    rewrite Hk at 1 3 4. rewrite seconds_snoc.
    set (k := (Z.to_nat (timeLeft (this w)) - 1)%nat) in *.
    destruct (seconds_counting k w1 HI1 Kr) as (H1 & H2 & H3 & H4 & H5);
      [lia | ].
    pose proof (seconds_calls k w1 HI1 Kr ltac:(lia)) as Hc.
    set (w2 := exec (seconds k) w1) in *.
    assert (He : expiring w2) by (split; [exact H2 | lia]).
    pose proof (seconds_counting_this k w1 HI1 Kr ltac:(lia)) as Hthis.
    fold w2 in Hthis.
    rewrite second_expiring by (auto; apply H1).
    cbv zeta. cbn [this calls isRunning mode set_timeLeft set_mode].
    rewrite Hc, Hthis.
    cbn [mode focusSessions durations set_timeLeft heard supplied
         onTick onEnd onModeChange].
    unfold heard in *. rewrite Kf, Kc, Km, Kn, Kd, Kt.
    rewrite filter_app, <- app_assoc.
    split; [ | split; reflexivity].
    f_equal. f_equal.
    destruct (start_flags w) as (Ft & Fe & Fm). fold w1 in Ft, Fe, Fm.
    apply filter_ext. intros c. destruct c; simpl; assumption.
Qed.

Lemma X4_session_length_witness :
  let w := fresh (mkOpts true true true) in
  calls (exec (start ;; seconds 3) w) =
  [OnTick 1499 focus; OnTick 1498 focus; OnTick 1497 focus].
Proof.
  intros w.
  refine (eq_trans (proj1 (X4_session_length w 3 _ _)) _).
  - apply reachable_fresh.
  - simpl. lia.
  - reflexivity.
Defined.

Lemma focus_ends_app (a b : list Call) :
  focus_ends (a ++ b) = focus_ends a ++ focus_ends b.
Proof.
  induction a as [ | c a IH]; [reflexivity | ].
  destruct c as [s m | m n | m]; simpl; try exact IH.
  destruct m; simpl; rewrite ?IH; reflexivity.
Qed.

Lemma upto_succ (n : Z) : 0 <= n -> upto (n + 1) = upto n ++ [n + 1].
Proof.
  intros Hn. unfold upto.
  replace (Z.to_nat (n + 1)) with (S (Z.to_nat n)) by lia.
  rewrite seq_S, map_app. simpl. do 2 f_equal. lia.
Qed.

(** X5. onEnd is called once for each focus session that expires, with the
    running count: when an onEnd callback was supplied, the counts it has
    received for focus sessions are 1, 2, ..., [focusSessions], in this
    order; when none was supplied, no onEnd call is made. *)
Theorem X5_onEnd_once_per_session (w : World) :
  reachable w ->
  (onEnd (this w) = true ->
   focus_ends (calls w) = upto (focusSessions (this w)))
  /\ (onEnd (this w) = false -> no_end (calls w)).
Proof.
  induction 1 as [opts | o w Hw IH].
  - split; [reflexivity | ]. intros _ m n [].
  - pose proof (reachable_Inv w Hw) as HI.
    pose proof HI as (_ & _ & _ & Hn).
    destruct IH as [IHt IHf].
    assert (Htick : forall s m,
              focus_ends (heard (this w) [OnTick s m]) = []).
    { intros s m. simpl. destruct (onTick (this w)); reflexivity. }
    assert (Hnoend : forall cs,
              onEnd (this w) = false -> no_end (calls w) ->
              no_end (calls w ++ heard (this w) cs)).
    { intros cs He Hno m n Hin. apply in_app_or in Hin.
      destruct Hin as [Hin | Hin]; [exact (Hno m n Hin) | ].
      apply filter_In in Hin. destruct Hin as [_ Hs]. simpl in Hs.
      congruence. }
    destruct (step_cases o w HI) as
      [Hr | Hr | | Hr | Hr | | m | m minutes Hne | minutes | Hr | Hr Ht | He];
      cbn [this calls onEnd focusSessions stopped set_timeLeft set_mode
           set_isRunning set__interval set_durations set_focusSessions];
      try (split; assumption);
      try (split; [intros E; rewrite focus_ends_app, (IHt E) |
                   intros E; apply Hnoend; auto]).
    + rewrite Htick, app_nil_r. reflexivity.
    + simpl. destruct (onModeChange (this w)), (onTick (this w));
        simpl; rewrite app_nil_r; reflexivity.
    + rewrite Htick, app_nil_r. reflexivity.
    + rewrite Htick, app_nil_r. reflexivity.
    + simpl. rewrite E.
      destruct (mode (this w)) eqn:Em; simpl;
        destruct (onTick (this w)), (onModeChange (this w)); simpl;
        rewrite ?app_nil_r; try reflexivity;
        rewrite upto_succ by exact Hn; reflexivity.
Qed.

Lemma X5_onEnd_once_per_session_witness :
  let w := run ([OSetDuration focus 1; OStart] ++ repeat OSecond 60)
               (fresh (mkOpts true true true)) in
  focus_ends (calls w) = [1].
Proof.
  intros w.
  refine (eq_trans (proj1 (X5_onEnd_once_per_session w _) _) _).
  - apply reachable_run, reachable_fresh.
  - reflexivity.
  - reflexivity.
Defined.

(** X6. As long as [setDuration] is called with integers for [minutes],
    which is what the events of [Op] carry ([NaN], which app.js passes on
    when an input does not parse, is not among them): in every reachable
    state each configured duration is a whole number of minutes between 1
    and 99, and between two events at least one second is left on the
    clock: the value 0 is only seen inside the tick that ends a
    session. *)
Theorem X6_configuration_in_range (w : World) :
  reachable w ->
  (forall m,
     exists minutes,
       1 <= minutes <= 99 /\ dget (durations (this w)) m = minutes * 60)
  /\ 1 <= timeLeft (this w).
Proof.
  intros Hw. split; [ | apply (reachable_Inv w Hw)].
  induction Hw as [opts | o w Hw IH].
  - intros m. destruct m; simpl;
      [exists 25 | exists 5 | exists 15]; split; lia.
  - pose proof (reachable_Inv w Hw) as HI.
    assert (Hset : forall m minutes m',
              exists k, 1 <= k <= 99 /\
                dget (dset (durations (this w)) m
                           (Z.max 1 (Z.min 99 minutes) * 60)) m' = k * 60).
    { intros m minutes m'. destruct (Mode_eq_dec m' m) as [-> | Hne].
      - rewrite dget_dset_same.
        exists (Z.max 1 (Z.min 99 minutes)). split; lia.
      - rewrite dget_dset_other by assumption. apply IH. }
    destruct (step_cases o w HI) as
      [Hr | Hr | | Hr | Hr | | m | m minutes Hne | minutes | Hr | Hr Ht | He];
      try exact IH; try (intros m'; apply Hset).
Qed.

Lemma X6_configuration_in_range_witness :
  let w := run [OSetDuration long 500; OSetDuration short (-3)]
               (fresh (mkOpts true true true)) in
  exists minutes,
    1 <= minutes <= 99 /\ dget (durations (this w)) long = minutes * 60.
Proof.
  intros w.
  apply (X6_configuration_in_range w).
  apply reachable_run, reachable_fresh.
Defined.

(** X7. What an event can change.  No event changes which callbacks are
    supplied; only [setDuration] changes a stored duration; the mode changes
    only by [setMode] or at a natural expiry; and calls already made are
    never taken back. *)
Theorem X7_event_frame (w : World) (o : Op) :
  reachable w ->
  let t := this w in
  let w' := exec (step o) w in
  (onTick (this w') = onTick t /\ onEnd (this w') = onEnd t
   /\ onModeChange (this w') = onModeChange t)
  /\ (durations (this w') <> durations t ->
      exists m minutes, o = OSetDuration m minutes)
  /\ (mode (this w') <> mode t ->
      (exists m, o = OSetMode m) \/ (o = OSecond /\ expiring w))
  /\ (exists new, calls w' = calls w ++ new).
Proof.
  intros Hw. cbv zeta.
  pose proof (reachable_Inv w Hw) as HI.
  destruct (step_cases o w HI) as
    [Hr | Hr | | Hr | Hr | | m | m minutes Hne | minutes | Hr | Hr Ht | He];
    simpl this; simpl calls;
    (split; [repeat split; reflexivity |
     split; [try (intros H; exfalso; apply H; reflexivity) |
     split; [try (intros H; exfalso; apply H; reflexivity) |
             try (eexists; reflexivity);
             try (exists []; rewrite app_nil_r; reflexivity)]]]).
  - intros _. left. exists m. reflexivity.
  - intros _. exists m, minutes. reflexivity.
  - intros _. exists (mode (this w)), minutes. reflexivity.
  - intros _. right. split; [reflexivity | exact He].
Qed.

Lemma X7_event_frame_witness :
  let w := run [OStart; OSecond] (fresh (mkOpts true false true)) in
  onEnd (this (exec (step (OSetMode long)) w)) = false.
Proof.
  intros w.
  apply (X7_event_frame w (OSetMode long)).
  apply reachable_run, reachable_fresh.
Defined.

Lemma setDuration_durations (w : World) (m : Mode) (minutes : Z) :
  durations (this (exec (setDuration m minutes) w)) =
  dset (durations (this w)) m (Z.max 1 (Z.min 99 minutes) * 60).
Proof.
  break_world w. run_methods. destruct w_m, m, w_iv, w_ct; reflexivity.
Qed.

(** X8. The break length input of app.js, on an integer [mins]: the short
    break becomes [clamp (mins, 1, 99)] minutes and the long break
    [clamp (3 * mins, 1, 99)] minutes, so the long break is three short
    breaks exactly for [mins] from 1 to 33; the focus length is untouched.
    During a focus session nothing else changes and a running countdown
    goes on; during a break the countdown is stopped and the clock shows
    the new length of that break. *)
Theorem X8_break_input (w : World) (mins : Z) :
  reachable w ->
  let t := this w in
  let w' := exec (inp_break_change mins) w in
  let d' := durations (this w') in
  d_short d' = clamp mins 1 99 * 60
  /\ d_long d' = clamp (mins * 3) 1 99 * 60
  /\ d_focus d' = d_focus (durations t)
  /\ (d_long d' = 3 * d_short d' <-> 1 <= mins <= 33)
  /\ (mode t = focus ->
      w' = mkWorld (set_durations d' t) (intervals w) (nextHandle w)
                   (calls w))
  /\ (mode t <> focus ->
      isRunning (this w') = false /\ intervals w' = []
      /\ mode (this w') = mode t
      /\ timeLeft (this w') = dget d' (mode t)).
Proof.
  intros Hw. cbv zeta. unfold inp_break_change. rewrite exec_bind.
  pose proof (reachable_Inv w Hw) as HI.
  pose proof (Inv_setDuration w short mins HI) as HI1.
  set (w1 := exec (setDuration short mins) w) in *.
  assert (Hd : durations (this (exec (setDuration long (mins * 3)) w1)) =
               mkDurations (d_focus (durations (this w)))
                           (clamp mins 1 99 * 60)
                           (clamp (mins * 3) 1 99 * 60)).
  { rewrite setDuration_durations. unfold w1.
    rewrite setDuration_durations, <- !clamp_max_min. reflexivity. }
  rewrite Hd. cbn [d_short d_long d_focus].
  split; [reflexivity | split; [reflexivity | split; [reflexivity | ]]].
  split; [ | split].
  - unfold clamp.
    destruct (Z.ltb_spec mins 1), (Z.ltb_spec 99 mins),
      (Z.ltb_spec (mins * 3) 1), (Z.ltb_spec 99 (mins * 3)); lia.
  - intros Hm.
    assert (Hw1 : w1 = mkWorld
              (set_durations
                 (dset (durations (this w)) short
                       (Z.max 1 (Z.min 99 mins) * 60)) (this w))
              (intervals w) (nextHandle w) (calls w)).
    { unfold w1. apply setDuration_other. rewrite Hm. discriminate. }
    assert (Hm1 : mode (this w1) <> long).
    { rewrite Hw1. simpl. rewrite Hm. discriminate. }
    rewrite setDuration_other by exact Hm1.
    rewrite Hw1. simpl. rewrite <- !clamp_max_min.
    unfold set_durations. simpl. reflexivity.
  - intros Hm. destruct (mode (this w)) eqn:Em; [congruence | | ].
    + assert (Hw1 := setDuration_active w mins (proj1 HI)).
      cbv zeta in Hw1. rewrite Em in Hw1. fold w1 in Hw1.
      assert (Hm1 : mode (this w1) <> long).
      { rewrite Hw1. simpl. rewrite Em. discriminate. }
      rewrite setDuration_other by exact Hm1.
      rewrite Hw1. simpl. rewrite ?Em, <- clamp_max_min. auto.
    + assert (Hw1 : mode (this w1) = long).
      { unfold w1. rewrite setDuration_other by (rewrite Em; discriminate).
        exact Em. }
      pose proof (setDuration_active w1 (mins * 3) (proj1 HI1)) as Hw2.
      cbv zeta in Hw2. rewrite Hw1 in Hw2. rewrite Hw2. simpl.
      rewrite <- clamp_max_min. auto.
Qed.

Lemma X8_break_input_witness :
  let w := run [OSetMode short; OStart; OSecond]
               (fresh (mkOpts true true true)) in
  d_long (durations (this (exec (inp_break_change 40) w))) = 99 * 60.
Proof.
  intros w.
  refine (eq_trans
            (proj1 (proj2 (X8_break_input w 40 _))) _).
  - apply reachable_run, reachable_fresh.
  - reflexivity.
Defined.

Lemma last_tick_app (shown : Z * Mode) (a b : list Call) :
  last_tick shown (a ++ b) = last_tick (last_tick shown a) b.
Proof.
  revert shown. induction a as [ | c a IH]; intros shown; [reflexivity | ].
  destruct c; simpl; apply IH.
Qed.

(** X24. An observer is never out of date: when an onTick callback was
    supplied, in every reachable state the last onTick call carried the
    current [timeLeft] and [mode]; before the first call they are the
    values of a new timer, 25 minutes of focus. *)
Theorem X24_last_tick_is_current (w : World) :
  reachable w ->
  onTick (this w) = true ->
  last_tick (25 * 60, focus) (calls w) = (timeLeft (this w), mode (this w)).
Proof.
  induction 1 as [opts | o w Hw IH]; [reflexivity | ].
  pose proof (reachable_Inv w Hw) as HI.
  destruct (step_cases o w HI) as
    [Hr | Hr | | Hr | Hr | | m | m minutes Hne | minutes | Hr | Hr Ht | He];
    cbn [this calls onTick timeLeft mode stopped set_timeLeft set_mode
         set_isRunning set__interval set_durations set_focusSessions];
    try exact IH;
    intros Ct; rewrite last_tick_app; unfold heard; simpl; rewrite Ct;
    destruct (onEnd (this w)), (onModeChange (this w)); reflexivity.
Qed.

Lemma X24_last_tick_is_current_witness :
  let w := run [OSetMode short; OStart; OSecond; OSecond; OPause]
               (fresh (mkOpts true false false)) in
  last_tick (25 * 60, focus) (calls w) = (298, short).
Proof.
  intros w.
  refine (eq_trans (X24_last_tick_is_current w _ _) _).
  - apply reachable_run, reachable_fresh.
  - reflexivity.
  - reflexivity.
Defined.

(** * The stopwatch's formatter and the countdown tool *)

(** X9. For a whole number of milliseconds [0 <= ms <= MAX_SAFE_INTEGER],
    which a Number holds exactly, [formatMs (ms)] shows the whole seconds
    of [ms] as hours, minutes and seconds: three decimal fields joined by
    colons that read back as numbers [h], [m < 60] and [s < 60] with
    [3600 h + 60 m + s = floor (ms / 1000)]; the minutes and seconds fields
    have two digits and the hours field at least two. *)
Theorem X9_formatMs (ms : Z) :
  0 <= ms <= MAX_SAFE_INTEGER ->
  let secs := ms / 1000 in
  let h := secs / 3600 in
  let m := secs mod 3600 / 60 in
  let s := secs mod 60 in
  let hh := zero_padded 2 (decimal h) in
  let mm := zero_padded 2 (decimal m) in
  let ss := zero_padded 2 (decimal s) in
  formatMs ms = (hh ++ ":" ++ mm ++ ":" ++ ss)%string
  /\ value hh = Some h /\ value mm = Some m /\ value ss = Some s
  /\ 3600 * h + 60 * m + s = secs
  /\ 0 <= m < 60 /\ 0 <= s < 60
  /\ (2 <= String.length hh)%nat
  /\ String.length mm = 2%nat /\ String.length ss = 2%nat.
Proof.
  intros Hms. cbv zeta.
  assert (Hsecs : 0 <= ms / 1000 <= MAX_SAFE_INTEGER).
  { split; [apply Z.div_pos; lia | apply Z.div_le_upper_bound; lia]. }
  set (secs := ms / 1000) in *.
  assert (Hh : 0 <= secs / 3600 <= MAX_SAFE_INTEGER).
  { split; [apply Z.div_pos; lia | apply Z.div_le_upper_bound; lia]. }
  pose proof (Z.mod_pos_bound secs 3600 ltac:(lia)) as Hr.
  assert (Hm : 0 <= secs mod 3600 / 60 < 60).
  { split; [apply Z.div_pos; lia | apply Z.div_lt_upper_bound; lia]. }
  pose proof (Z.mod_pos_bound secs 60 ltac:(lia)) as Hs.
  split; [ | split; [ | split; [ | split; [ | split]]]].
  - unfold formatMs. rewrite (Math_floor_divide ms 1000) by lia. fold secs.
    rewrite !padStart_zero. rewrite !Z.rem_mod_nonneg by lia.
    rewrite !Math_floor_divide by (unfold MAX_SAFE_INTEGER in *; lia).
    rewrite !String__safe by (unfold MAX_SAFE_INTEGER in *; lia).
    reflexivity.
  - apply value_zero_padded; lia.
  - apply value_zero_padded; lia.
  - apply value_zero_padded; lia.
  - pose proof (Z.div_mod secs 3600 ltac:(lia)) as E1.
    pose proof (Z.div_mod (secs mod 3600) 60 ltac:(lia)) as E2.
    assert (E3 : (secs mod 3600) mod 60 = secs mod 60).
    { apply Z.mod_mod_divide. exists 60. reflexivity. }
    lia.
  - rewrite !zero_padded_length.
    pose proof (decimal_two_digits (secs mod 3600 / 60) ltac:(lia)).
    pose proof (decimal_two_digits (secs mod 60) ltac:(lia)).
    repeat split; lia.
Qed.

Lemma X9_formatMs_witness : formatMs 3725999 = "01:02:05"%string.
Proof.
  refine (eq_trans (proj1 (X9_formatMs 3725999 _)) _);
    [unfold MAX_SAFE_INTEGER; lia | reflexivity].
Defined.

Ltac break_cd st :=
  destruct st as [cd_run cd_total cd_left cd_iv cd_min cd_sec cd_disp
                  cd_btn cd_hs cd_nh cd_al].

Lemma Countdown_readInputs_nonneg (st : Countdown.State) :
  0 <= Countdown.readInputs st.
Proof. unfold Countdown.readInputs. lia. Qed.

Lemma Countdown_Inv_init (minutes secs : option Z) (label : string) :
  Countdown.Inv (Countdown.init minutes secs label).
Proof.
  unfold Countdown.Inv, Countdown.init. simpl.
  pose proof (Countdown_readInputs_nonneg
    (Countdown.mkState false 300 300 None minutes secs "" label [] 1%nat [])).
  split; [lia | reflexivity].
Qed.

(** A second while the countdown is paused. *)
Lemma Countdown_second_paused (st : Countdown.State) :
  Countdown.Inv st -> Countdown.cdRunning st = false ->
  Countdown.second st = st.
Proof.
  break_cd st. unfold Countdown.Inv, Countdown.second. simpl.
  intros [_ Hi] ->. subst. reflexivity.
Qed.

(** A second of a running countdown with more than one second left. *)
Lemma Countdown_second_counting (st : Countdown.State) :
  Countdown.Inv st -> Countdown.cdRunning st = true ->
  1 < Countdown.cdLeft st ->
  Countdown.second st =
  Countdown.mkState true (Countdown.cdTotal st) (Countdown.cdLeft st - 1)
    (Countdown.cdInterval st) (Countdown.minInput st) (Countdown.secInput st)
    (Countdown.display_text (Countdown.cdLeft st - 1))
    (Countdown.startBtn st) (Countdown.intervals st)
    (Countdown.nextHandle st) (Countdown.alarms st).
Proof.
  break_cd st. unfold Countdown.Inv, Countdown.second. simpl.
  intros [_ Hi] -> Hl. destruct Hi as (_ & h & -> & ->). simpl.
  rewrite Nat.eqb_refl. simpl. unfold Countdown.tick. simpl.
  assert (E : (cd_left - 1 <=? 0) = false) by (apply Z.leb_gt; lia).
  rewrite E. reflexivity.
Qed.

(** The second that uses up the time. *)
Lemma Countdown_second_finishing (st : Countdown.State) :
  Countdown.Inv st -> Countdown.cdRunning st = true ->
  Countdown.cdLeft st = 1 ->
  Countdown.second st =
  Countdown.mkState false (Countdown.cdTotal st) 0
    (Countdown.cdInterval st) (Countdown.minInput st) (Countdown.secInput st)
    (Countdown.display_text 0) "Start" [] (Countdown.nextHandle st)
    (Countdown.alarms st ++ ["Timer finished!"%string]).
Proof.
  break_cd st. unfold Countdown.Inv, Countdown.second. simpl.
  intros [_ Hi] -> ->. destruct Hi as (_ & h & -> & ->). simpl.
  rewrite Nat.eqb_refl. simpl. unfold Countdown.tick. simpl.
  unfold Countdown.halt, Countdown.clear, Countdown.startAlarm. simpl.
  rewrite Nat.eqb_refl. reflexivity.
Qed.

Lemma Countdown_Inv_step (e : Countdown.Event) (st : Countdown.State) :
  Countdown.Inv st -> Countdown.Inv (Countdown.step e st).
Proof.
  intros HI. destruct e as [ | | v | v | ].
  - (* start button *)
    revert HI. break_cd st. unfold Countdown.Inv. simpl.
    unfold Countdown.click_start. simpl.
    intros [Hb Hi]. destruct cd_run.
    + destruct Hi as (Hl & h & -> & ->).
      unfold Countdown.halt, Countdown.clear. simpl.
      rewrite Nat.eqb_refl. simpl. split; [lia | reflexivity].
    + subst cd_hs.
      destruct (Z.leb_spec cd_left 0) as [Hle | Hgt]; simpl.
      * match goal with |- context [Countdown.readInputs ?s] =>
          pose proof (Countdown_readInputs_nonneg s) as Hr;
          set (r := Countdown.readInputs s) in * end.
        destruct (Z.leb_spec r 0); simpl.
        -- split; [lia | reflexivity].
        -- split; [lia | ]. split; [lia | ]. eexists. split; reflexivity.
      * destruct (Z.leb_spec cd_left 0); [lia | ]. simpl.
        split; [lia | ]. split; [lia | ]. eexists. split; reflexivity.
  - (* reset button *)
    revert HI. break_cd st. unfold Countdown.Inv. simpl.
    intros [Hb Hi].
    match goal with |- context [Countdown.readInputs ?s] =>
      pose proof (Countdown_readInputs_nonneg s) as Hr end.
    split; [lia | ].
    unfold Countdown.clear. simpl. destruct cd_run.
    + destruct Hi as (Hl & h & -> & ->). simpl.
      rewrite Nat.eqb_refl. reflexivity.
    + subst cd_hs. destruct cd_iv; reflexivity.
  - revert HI. break_cd st. unfold Countdown.Inv, Countdown.step,
      Countdown.change_min. simpl.
    intros [Hb Hi]. destruct cd_run; simpl; [split; assumption | ].
    match goal with |- context [Countdown.readInputs ?s] =>
      pose proof (Countdown_readInputs_nonneg s) as Hr end.
    split; [lia | exact Hi].
  - revert HI. break_cd st. unfold Countdown.Inv, Countdown.step,
      Countdown.change_sec. simpl.
    intros [Hb Hi]. destruct cd_run; simpl; [split; assumption | ].
    match goal with |- context [Countdown.readInputs ?s] =>
      pose proof (Countdown_readInputs_nonneg s) as Hr end.
    split; [lia | exact Hi].
  - (* a second *)
    change (Countdown.step Countdown.Second st) with (Countdown.second st).
    destruct (Countdown.cdRunning st) eqn:Hr.
    + pose proof HI as [Hb Hi]. rewrite Hr in Hi.
      destruct Hi as (Hl & h & Eh & Ei).
      destruct (Z.eq_dec (Countdown.cdLeft st) 1) as [E1 | E1].
      * rewrite Countdown_second_finishing by assumption.
        unfold Countdown.Inv. simpl. split; [lia | reflexivity].
      * rewrite Countdown_second_counting by (auto; lia).
        unfold Countdown.Inv. simpl. split; [lia | ].
        split; [lia | ]. exists h. split; assumption.
    + rewrite Countdown_second_paused by assumption. exact HI.
Qed.

Lemma Countdown_reachable_Inv (st : Countdown.State) :
  Countdown.reachable st -> Countdown.Inv st.
Proof.
  induction 1 as [minutes secs label | e st Hst IH].
  - apply Countdown_Inv_init.
  - apply Countdown_Inv_step, IH.
Qed.

Lemma Countdown_reachable_run (es : list Countdown.Event)
  (st : Countdown.State) :
  Countdown.reachable st -> Countdown.reachable (Countdown.run es st).
Proof.
  revert st. induction es as [ | e es IH]; intros st Hst; simpl.
  - exact Hst.
  - apply IH. constructor. exact Hst.
Qed.

(** While more than [k] seconds are left, [k] seconds of a running
    countdown take [k] off [cdLeft] and change neither the alarms nor the
    inputs. *)
Lemma Countdown_seconds_counting (k : nat) (st : Countdown.State) :
  Countdown.Inv st -> Countdown.cdRunning st = true ->
  Z.of_nat k < Countdown.cdLeft st ->
  let st' := Countdown.seconds k st in
  Countdown.Inv st'
  /\ Countdown.cdRunning st' = true
  /\ Countdown.cdLeft st' = Countdown.cdLeft st - Z.of_nat k
  /\ Countdown.cdTotal st' = Countdown.cdTotal st
  /\ Countdown.alarms st' = Countdown.alarms st
  /\ Countdown.intervals st' = Countdown.intervals st
  /\ Countdown.nextHandle st' = Countdown.nextHandle st.
Proof.
  revert st. induction k as [ | k IH]; intros st HI Hr Hk; cbv zeta.
  - change (Countdown.seconds 0 st) with st.
    split; [exact HI | split; [exact Hr | split; [simpl; lia | ]]].
    repeat split; reflexivity.
  - simpl Countdown.seconds.
    assert (H1 : 1 < Countdown.cdLeft st) by lia.
    pose proof (Countdown_second_counting st HI Hr H1) as Hs.
    pose proof (Countdown_Inv_step Countdown.Second st HI) as HI'.
    change (Countdown.step Countdown.Second st)
      with (Countdown.second st) in HI'.
    assert (S1 : Countdown.cdRunning (Countdown.second st) = true)
      by (rewrite Hs; reflexivity).
    assert (S2 : Countdown.cdLeft (Countdown.second st) =
                 Countdown.cdLeft st - 1) by (rewrite Hs; reflexivity).
    assert (S3 : Countdown.cdTotal (Countdown.second st) =
                 Countdown.cdTotal st) by (rewrite Hs; reflexivity).
    assert (S4 : Countdown.alarms (Countdown.second st) =
                 Countdown.alarms st) by (rewrite Hs; reflexivity).
    assert (S5 : Countdown.intervals (Countdown.second st) =
                 Countdown.intervals st) by (rewrite Hs; reflexivity).
    assert (S6 : Countdown.nextHandle (Countdown.second st) =
                 Countdown.nextHandle st) by (rewrite Hs; reflexivity).
    clear Hs.
    destruct (IH (Countdown.second st) HI' S1) as (A & B & C & D & E & F & G);
      [lia | ].
    split; [exact A | split; [exact B | split; [lia | ]]].
    repeat split; congruence.
Qed.

Lemma Countdown_seconds_paused (k : nat) (st : Countdown.State) :
  Countdown.Inv st -> Countdown.cdRunning st = false ->
  Countdown.seconds k st = st.
Proof.
  intros HI Hr. induction k as [ | k IH]; simpl; [reflexivity | ].
  rewrite Countdown_second_paused by assumption. exact IH.
Qed.

Lemma Countdown_seconds_snoc (k : nat) (st : Countdown.State) :
  Countdown.seconds (S k) st = Countdown.second (Countdown.seconds k st).
Proof.
  revert st. induction k as [ | k IH]; intros st; [reflexivity | ].
  change (Countdown.seconds (S (S k)) st)
    with (Countdown.seconds (S k) (Countdown.second st)).
  rewrite IH. reflexivity.
Qed.

(** The start button on a paused countdown that has time left. *)
Lemma Countdown_click_start_paused (st : Countdown.State) :
  Countdown.Inv st -> Countdown.cdRunning st = false ->
  1 <= Countdown.cdLeft st ->
  Countdown.click_start st =
  Countdown.mkState true (Countdown.cdTotal st) (Countdown.cdLeft st)
    (Some (Countdown.nextHandle st)) (Countdown.minInput st)
    (Countdown.secInput st) (Countdown.display st) "Pause"
    [Countdown.nextHandle st] (S (Countdown.nextHandle st))
    (Countdown.alarms st).
Proof.
  break_cd st. unfold Countdown.Inv, Countdown.click_start. simpl.
  intros [_ Hi] -> Hl. subst cd_hs.
  destruct (Z.leb_spec cd_left 0); [lia | ]. simpl.
  destruct (Z.leb_spec cd_left 0); [lia | ]. reflexivity.
Qed.

(** The start button on a running countdown. *)
Lemma Countdown_click_start_running (st : Countdown.State) :
  Countdown.Inv st -> Countdown.cdRunning st = true ->
  Countdown.click_start st =
  Countdown.mkState false (Countdown.cdTotal st) (Countdown.cdLeft st)
    (Countdown.cdInterval st) (Countdown.minInput st)
    (Countdown.secInput st) (Countdown.display st) "Start"
    [] (Countdown.nextHandle st) (Countdown.alarms st).
Proof.
  break_cd st. unfold Countdown.Inv, Countdown.click_start. simpl.
  intros [_ Hi] ->. destruct Hi as (_ & h & -> & ->).
  unfold Countdown.halt, Countdown.clear. simpl.
  rewrite Nat.eqb_refl. reflexivity.
Qed.

(** X10. In every state of the countdown tool
    [0 <= cdLeft <= cdTotal]; a running countdown has at least one second
    left and exactly one interval registered, a stopped one has none. *)
Theorem X10_countdown_invariant (st : Countdown.State) :
  Countdown.reachable st ->
  0 <= Countdown.cdLeft st <= Countdown.cdTotal st
  /\ (Countdown.cdRunning st = true -> 1 <= Countdown.cdLeft st)
  /\ List.length (Countdown.intervals st) =
     (if Countdown.cdRunning st then 1 else 0)%nat.
Proof.
  intros Hst. destruct (Countdown_reachable_Inv st Hst) as [Hb Hi].
  split; [exact Hb | ].
  destruct (Countdown.cdRunning st).
  - destruct Hi as (Hl & h & _ & ->). split; [intros _; exact Hl | reflexivity].
  - rewrite Hi. split; [discriminate | reflexivity].
Qed.

Lemma X10_countdown_invariant_witness :
  let st := Countdown.run
              [Countdown.ClickStart; Countdown.Second; Countdown.ClickStart;
               Countdown.ClickStart; Countdown.Second]
              (Countdown.init (Some 0) (Some 5) "Start") in
  List.length (Countdown.intervals st) = 1%nat.
Proof.
  intros st.
  refine (eq_trans (proj2 (proj2 (X10_countdown_invariant st _))) _).
  - apply Countdown_reachable_run, Countdown.reachable_init.
  - reflexivity.
Defined.

(** X11. [cdLeft--] takes exactly one off a Number up to
    [MAX_SAFE_INTEGER].  A stopped countdown with
    [1 <= cdLeft <= MAX_SAFE_INTEGER] that is started runs for exactly
    [cdLeft] seconds: before that it is running with one second less each
    second and no alarm; the second that uses up the time stops it, shows
    00:00 and the Start label, and calls [startAlarm ('Timer finished!')]
    once; the seconds after that change nothing. *)
Theorem X11_countdown_rings_once (st : Countdown.State) (k j : nat) :
  Countdown.reachable st ->
  Countdown.cdRunning st = false ->
  1 <= Countdown.cdLeft st <= MAX_SAFE_INTEGER ->
  let during := Countdown.seconds k (Countdown.click_start st) in
  let after :=
    Countdown.seconds (Z.to_nat (Countdown.cdLeft st))
                      (Countdown.click_start st) in
  (Z.of_nat k < Countdown.cdLeft st ->
     Countdown.cdRunning during = true
     /\ Countdown.cdLeft during = Countdown.cdLeft st - Z.of_nat k
     /\ Countdown.alarms during = Countdown.alarms st)
  /\ Countdown.cdRunning after = false
  /\ Countdown.cdLeft after = 0
  /\ Countdown.intervals after = []
  /\ Countdown.display after = "00:00"%string
  /\ Countdown.startBtn after = "Start"%string
  /\ Countdown.alarms after =
     Countdown.alarms st ++ ["Timer finished!"%string]
  /\ Countdown.seconds j after = after.
Proof.
  intros Hst Hr [Hl _]. cbv zeta.
  pose proof (Countdown_reachable_Inv st Hst) as HI.
  pose proof (Countdown_Inv_step Countdown.ClickStart st HI) as HI1.
  change (Countdown.step Countdown.ClickStart st)
    with (Countdown.click_start st) in HI1.
  pose proof (Countdown_click_start_paused st HI Hr Hl) as Hs.
  set (st1 := Countdown.click_start st) in *.
  assert (R1 : Countdown.cdRunning st1 = true) by (rewrite Hs; reflexivity).
  assert (L1 : Countdown.cdLeft st1 = Countdown.cdLeft st)
    by (rewrite Hs; reflexivity).
  assert (A1 : Countdown.alarms st1 = Countdown.alarms st)
    by (rewrite Hs; reflexivity).
  split.
  - intros Hk.
    destruct (Countdown_seconds_counting k st1 HI1 R1)
      as (_ & B & C & _ & E & _); [lia | ].
    rewrite B, C, E, L1, A1. auto.
  - assert (Hn : Z.to_nat (Countdown.cdLeft st) =
                 S (Z.to_nat (Countdown.cdLeft st) - 1)) by lia.
    rewrite Hn, Countdown_seconds_snoc.
    set (n := (Z.to_nat (Countdown.cdLeft st) - 1)%nat) in *.
    destruct (Countdown_seconds_counting n st1 HI1 R1)
      as (A & B & C & _ & E & _); [lia | ].
    set (st2 := Countdown.seconds n st1) in *.
    assert (H1 : Countdown.cdLeft st2 = 1) by lia.
    pose proof (Countdown_second_finishing st2 A B H1) as Hf.
    pose proof (Countdown_Inv_step Countdown.Second st2 A) as HI3.
    change (Countdown.step Countdown.Second st2)
      with (Countdown.second st2) in HI3.
    rewrite (Countdown_seconds_paused j (Countdown.second st2) HI3)
      by (rewrite Hf; reflexivity).
    rewrite Hf. simpl. rewrite E, A1. repeat split; reflexivity.
Qed.

Lemma X11_countdown_rings_once_witness :
  let st := Countdown.init (Some 0) (Some 3) "Start" in
  Countdown.alarms (Countdown.seconds 3 (Countdown.click_start st)) =
  ["Timer finished!"%string].
Proof.
  intros st.
  apply (X11_countdown_rings_once st 0 0).
  - apply Countdown.reachable_init.
  - reflexivity.
  - split; vm_compute; discriminate.
Defined.

(** X12. With [cdLeft <= MAX_SAFE_INTEGER], where [cdLeft--] is exact:
    pausing the countdown keeps the time that is left, and so do edits of
    the inputs while it runs: a countdown that runs [a] seconds, is paused
    with the start button for [p] seconds and resumed, or has its inputs
    changed in between, and runs [b] seconds more has [a + b] seconds less
    on the clock and is running. *)
Theorem X12_countdown_pause_and_edits (st : Countdown.State)
  (a p b : nat) (v1 v2 : option Z) :
  Countdown.reachable st ->
  Countdown.cdRunning st = true ->
  Countdown.cdLeft st <= MAX_SAFE_INTEGER ->
  Z.of_nat a + Z.of_nat b < Countdown.cdLeft st ->
  let paused :=
    Countdown.seconds b
      (Countdown.click_start
         (Countdown.seconds p
            (Countdown.click_start (Countdown.seconds a st)))) in
  let edited :=
    Countdown.seconds b
      (Countdown.change_sec v2
         (Countdown.change_min v1 (Countdown.seconds a st))) in
  (Countdown.cdLeft paused =
     Countdown.cdLeft st - (Z.of_nat a + Z.of_nat b)
   /\ Countdown.cdRunning paused = true)
  /\ (Countdown.cdLeft edited =
        Countdown.cdLeft st - (Z.of_nat a + Z.of_nat b)
      /\ Countdown.cdRunning edited = true
      /\ Countdown.cdTotal edited = Countdown.cdTotal st).
Proof.
  intros Hst Hr _ Hab. cbv zeta.
  pose proof (Countdown_reachable_Inv st Hst) as HI.
  destruct (Countdown_seconds_counting a st HI Hr)
    as (HI1 & R1 & L1 & T1 & _); [lia | ].
  set (st1 := Countdown.seconds a st) in *.
  split.
  - pose proof (Countdown_click_start_running st1 HI1 R1) as Hp.
    pose proof (Countdown_Inv_step Countdown.ClickStart st1 HI1) as HI2.
    change (Countdown.step Countdown.ClickStart st1)
      with (Countdown.click_start st1) in HI2.
    set (st2 := Countdown.click_start st1) in *.
    assert (R2 : Countdown.cdRunning st2 = false) by (rewrite Hp; reflexivity).
    assert (L2 : Countdown.cdLeft st2 = Countdown.cdLeft st1)
      by (rewrite Hp; reflexivity).
    rewrite (Countdown_seconds_paused p st2 HI2 R2).
    pose proof (Countdown_click_start_paused st2 HI2 R2 ltac:(lia)) as Hq.
    pose proof (Countdown_Inv_step Countdown.ClickStart st2 HI2) as HI3.
    change (Countdown.step Countdown.ClickStart st2)
      with (Countdown.click_start st2) in HI3.
    set (st3 := Countdown.click_start st2) in *.
    assert (R3 : Countdown.cdRunning st3 = true) by (rewrite Hq; reflexivity).
    assert (L3 : Countdown.cdLeft st3 = Countdown.cdLeft st2)
      by (rewrite Hq; reflexivity).
    destruct (Countdown_seconds_counting b st3 HI3 R3)
      as (_ & B & C & _); [lia | ].
    split; [lia | exact B].
  - pose proof (Countdown_Inv_step (Countdown.ChangeMin v1) st1 HI1) as HI2.
    change (Countdown.step (Countdown.ChangeMin v1) st1)
      with (Countdown.change_min v1 st1) in HI2.
    assert (E2 : Countdown.cdRunning (Countdown.change_min v1 st1) = true
                 /\ Countdown.cdLeft (Countdown.change_min v1 st1) =
                    Countdown.cdLeft st1
                 /\ Countdown.cdTotal (Countdown.change_min v1 st1) =
                    Countdown.cdTotal st1).
    { unfold Countdown.change_min. simpl. rewrite R1. simpl. auto. }
    set (st2 := Countdown.change_min v1 st1) in *.
    destruct E2 as (R2 & L2 & T2).
    pose proof (Countdown_Inv_step (Countdown.ChangeSec v2) st2 HI2) as HI3.
    change (Countdown.step (Countdown.ChangeSec v2) st2)
      with (Countdown.change_sec v2 st2) in HI3.
    assert (E3 : Countdown.cdRunning (Countdown.change_sec v2 st2) = true
                 /\ Countdown.cdLeft (Countdown.change_sec v2 st2) =
                    Countdown.cdLeft st2
                 /\ Countdown.cdTotal (Countdown.change_sec v2 st2) =
                    Countdown.cdTotal st2).
    { unfold Countdown.change_sec. simpl. rewrite R2. simpl. auto. }
    set (st3 := Countdown.change_sec v2 st2) in *.
    destruct E3 as (R3 & L3 & T3).
    destruct (Countdown_seconds_counting b st3 HI3 R3)
      as (_ & B & C & D & _); [lia | ].
    split; [lia | split; [exact B | congruence]].
Qed.

Lemma X12_countdown_pause_and_edits_witness :
  let st := Countdown.click_start (Countdown.init (Some 1) (Some 0) "Start") in
  Countdown.cdLeft
    (Countdown.seconds 2
       (Countdown.click_start
          (Countdown.seconds 9
             (Countdown.click_start (Countdown.seconds 3 st))))) = 55.
Proof.
  intros st.
  refine (eq_trans
            (proj1 (proj1 (X12_countdown_pause_and_edits
                             st 3 9 2 None None _ _ _ _))) _).
  - apply (Countdown.reachable_step Countdown.ClickStart).
    apply Countdown.reachable_init.
  - reflexivity.
  - vm_compute. discriminate.
  - vm_compute. reflexivity.
  - reflexivity.
Defined.

(** * The task list *)

(** ** [trim] *)

Lemma trimStart_starts_clean (s : CodeUnits) :
  starts_clean (TaskList.trimStart s).
Proof.
  induction s as [ | c s IH]; simpl; [exact I | ].
  destruct (TaskList.is_space c) eqn:E; [exact IH | exact E].
Qed.

Lemma trimStart_clean (s : CodeUnits) :
  starts_clean s -> TaskList.trimStart s = s.
Proof.
  destruct s as [ | c s]; simpl; [reflexivity | ]. intros ->. reflexivity.
Qed.

Lemma trimStart_nil (s : CodeUnits) :
  TaskList.trimStart s = [] <-> forallb TaskList.is_space s = true.
Proof.
  induction s as [ | c s IH]; simpl; [split; reflexivity | ].
  destruct (TaskList.is_space c); simpl; [exact IH | ].
  split; discriminate.
Qed.

Lemma trimStart_app (a b : CodeUnits) :
  TaskList.trimStart (a ++ b) =
  match TaskList.trimStart a with
  | [] => TaskList.trimStart b
  | r => r ++ b
  end.
Proof.
  induction a as [ | c a IH]; simpl; [reflexivity | ].
  destruct (TaskList.is_space c); [exact IH | reflexivity].
Qed.

Lemma trimEnd_cons (c : N) (l : CodeUnits) :
  TaskList.trimEnd (c :: l) =
  match TaskList.trimEnd l with
  | [] => if TaskList.is_space c then [] else [c]
  | r => c :: r
  end.
Proof.
  unfold TaskList.trimEnd. simpl rev. rewrite trimStart_app.
  destruct (TaskList.trimStart (rev l)) as [ | x r] eqn:E; simpl.
  - destruct (TaskList.is_space c); reflexivity.
  - rewrite rev_app_distr. simpl.
    destruct (rev r ++ [x]) eqn:E'; [ | reflexivity].
    destruct (rev r); discriminate.
Qed.

Lemma trimEnd_ends_clean (s : CodeUnits) : ends_clean (TaskList.trimEnd s).
Proof.
  unfold ends_clean, TaskList.trimEnd. rewrite rev_involutive.
  apply trimStart_starts_clean.
Qed.

Lemma trimEnd_starts_clean (s : CodeUnits) :
  starts_clean s -> starts_clean (TaskList.trimEnd s).
Proof.
  destruct s as [ | c s]; [intros _; exact I | ].
  simpl. intros Hc. rewrite trimEnd_cons.
  destruct (TaskList.trimEnd s); [rewrite Hc | ]; exact Hc.
Qed.

Lemma trimEnd_clean (s : CodeUnits) :
  ends_clean s -> TaskList.trimEnd s = s.
Proof.
  unfold ends_clean, TaskList.trimEnd. intros H.
  rewrite trimStart_clean by exact H. apply rev_involutive.
Qed.

Lemma trim_clean (s : CodeUnits) :
  starts_clean (TaskList.trim s) /\ ends_clean (TaskList.trim s).
Proof.
  unfold TaskList.trim. split.
  - apply trimEnd_starts_clean, trimStart_starts_clean.
  - apply trimEnd_ends_clean.
Qed.

Lemma trim_idem (s : CodeUnits) :
  TaskList.trim (TaskList.trim s) = TaskList.trim s.
Proof.
  destruct (trim_clean s) as [Hs He].
  unfold TaskList.trim at 1.
  rewrite trimStart_clean by exact Hs. apply trimEnd_clean, He.
Qed.

Lemma trimEnd_nil (s : CodeUnits) :
  TaskList.trimEnd s = [] <-> forallb TaskList.is_space s = true.
Proof.
  unfold TaskList.trimEnd. split.
  - intros H. apply (f_equal (@rev N)) in H.
    rewrite rev_involutive in H. simpl in H.
    apply trimStart_nil in H. rewrite forallb_forall in *.
    intros c Hc. apply H. rewrite <- in_rev. exact Hc.
  - intros H.
    assert (H' : forallb TaskList.is_space (rev s) = true).
    { rewrite forallb_forall in *. intros c Hc. apply H.
      rewrite in_rev. exact Hc. }
    apply trimStart_nil in H'. rewrite H'. reflexivity.
Qed.

Lemma trimStart_split (s : CodeUnits) :
  exists a,
    s = a ++ TaskList.trimStart s /\ forallb TaskList.is_space a = true.
Proof.
  induction s as [ | c s IH]; simpl.
  - exists []. split; reflexivity.
  - destruct (TaskList.is_space c) eqn:E.
    + destruct IH as (a & Ha & Hs). exists (c :: a). simpl.
      rewrite E, <- Ha, Hs. split; reflexivity.
    + exists []. split; reflexivity.
Qed.

(** What [trim] removes is whitespace at the two ends. *)
Lemma trim_split (s : CodeUnits) :
  exists a b,
    s = a ++ TaskList.trim s ++ b
    /\ forallb TaskList.is_space a = true
    /\ forallb TaskList.is_space b = true.
Proof.
  destruct (trimStart_split s) as (a & Ha & Hsa).
  destruct (trimStart_split (rev (TaskList.trimStart s))) as (b & Hb & Hsb).
  exists a, (rev b). unfold TaskList.trim, TaskList.trimEnd.
  split; [ | split; [exact Hsa | ]].
  - rewrite <- rev_app_distr, <- Hb, rev_involutive. exact Ha.
  - rewrite forallb_forall in *. intros c Hc. apply Hsb.
    rewrite in_rev. exact Hc.
Qed.

Lemma trim_nil (s : CodeUnits) :
  TaskList.trim s = [] <-> forallb TaskList.is_space s = true.
Proof.
  unfold TaskList.trim. rewrite trimEnd_nil. split.
  - intros H. induction s as [ | c s IH]; [reflexivity | ].
    simpl in *. destruct (TaskList.is_space c) eqn:E; simpl.
    + apply IH, H.
    + simpl in H. rewrite E in H. discriminate.
  - intros H. induction s as [ | c s IH]; [reflexivity | ].
    simpl in *. apply andb_true_iff in H. destruct H as [-> H].
    apply IH, H.
Qed.

(** ** [toggle], [remove], [add] *)

Lemma flip_first_none (i : Z) (l : list TaskList.Task) :
  TaskList.flip_first i l = None <->
  existsb (fun t => TaskList.id t =? i) l = false.
Proof.
  induction l as [ | t l IH]; simpl; [split; reflexivity | ].
  destruct (TaskList.id t =? i); simpl; [split; discriminate | ].
  destruct (TaskList.flip_first i l); simpl.
  - split; [discriminate | ]. intros H. apply IH in H. discriminate.
  - split; [intros _; apply IH; reflexivity | reflexivity].
Qed.

(** [flip_first] flips the first task with the id and nothing else. *)
Lemma flip_first_some (i : Z) (l l' : list TaskList.Task) :
  TaskList.flip_first i l = Some l' ->
  exists a t b,
    l = a ++ t :: b /\ TaskList.id t = i
    /\ (forall u, In u a -> TaskList.id u <> i)
    /\ l' = a ++ flipped t :: b.
Proof.
  revert l'. induction l as [ | t l IH]; intros l'; simpl; [discriminate | ].
  destruct (Z.eqb_spec (TaskList.id t) i) as [E | E].
  - intros [= <-]. exists [], t, l.
    split; [reflexivity | split; [exact E | split; [intros u [] | reflexivity]]].
  - destruct (TaskList.flip_first i l) as [r | ]; simpl; [ | discriminate].
    intros [= <-]. destruct (IH r eq_refl) as (a & x & b & -> & Hx & Ha & ->).
    exists (t :: a), x, b.
    split; [reflexivity | split; [exact Hx | split; [ | reflexivity]]].
    intros u [<- | Hu]; [exact E | apply Ha, Hu].
Qed.

Lemma flip_first_at (i : Z) (a b : list TaskList.Task) (t : TaskList.Task) :
  TaskList.id t = i -> (forall u, In u a -> TaskList.id u <> i) ->
  TaskList.flip_first i (a ++ t :: b) = Some (a ++ flipped t :: b).
Proof.
  intros Ht Ha. subst i. induction a as [ | u a IH]; simpl.
  - rewrite Z.eqb_refl. reflexivity.
  - destruct (Z.eqb_spec (TaskList.id u) (TaskList.id t)) as [E | E].
    + exfalso. apply (Ha u); [left; reflexivity | exact E].
    + rewrite IH; [reflexivity | ]. intros x Hx. apply Ha. right. exact Hx.
Qed.

Lemma flipped_flipped (t : TaskList.Task) : flipped (flipped t) = t.
Proof. destruct t as [i x d]. unfold flipped. simpl. rewrite negb_involutive. reflexivity. Qed.




(** X14. [toggle (id)] flips [done] of the first task with that id and
    changes nothing else; no task and no order changes, a second
    [toggle (id)] restores the tasks, and for an id that no task has the
    list and the storage are left as they are. *)
Theorem X14_toggle (st : TaskList.State) (i : Z) :
  TaskList.items (TaskList.toggle i (TaskList.toggle i st)) =
  TaskList.items st
  /\ TaskList.ids (TaskList.toggle i st) = TaskList.ids st
  /\ map TaskList.text (TaskList.items (TaskList.toggle i st)) =
     map TaskList.text (TaskList.items st)
  /\ (TaskList.has i st = false -> TaskList.toggle i st = st)
  /\ (TaskList.has i st = true ->
      exists a t b,
        TaskList.items st = a ++ t :: b
        /\ TaskList.id t = i
        /\ (forall u, In u a -> TaskList.id u <> i)
        /\ TaskList.items (TaskList.toggle i st) = a ++ flipped t :: b).
Proof.
  unfold TaskList.toggle, TaskList.has, TaskList.ids.
  destruct (TaskList.flip_first i (TaskList.items st)) as [l | ] eqn:E.
  - destruct (flip_first_some i _ l E) as (a & t & b & Hl & Ht & Ha & ->).
    simpl TaskList.items.
    rewrite (flip_first_at i a b (flipped t)) by (auto).
    rewrite flipped_flipped. simpl. rewrite Hl.
    split; [reflexivity | ].
    rewrite !map_app. simpl.
    split; [reflexivity | split; [reflexivity | split]].
    + intros H. apply flip_first_none in H. rewrite Hl in E. congruence.
    + intros _. exists a, t, b. auto.
  - rewrite E. apply flip_first_none in E.
    split; [reflexivity | split; [reflexivity | split; [reflexivity | ]]].
    split; [reflexivity | ]. intros H. congruence.
Qed.

Lemma X14_toggle_witness :
  let t1 := TaskList.mkTask 7 [0x61%N] false in
  let t2 := TaskList.mkTask 7 [0x62%N] false in
  let st := TaskList.mkState [t1; t2] TaskList.Absent in
  exists a t b,
    TaskList.items st = a ++ t :: b
    /\ TaskList.id t = 7
    /\ (forall u, In u a -> TaskList.id u <> 7)
    /\ TaskList.items (TaskList.toggle 7 st) = a ++ flipped t :: b.
Proof.
  intros t1 t2 st.
  apply (X14_toggle st 7). reflexivity.
Defined.

Lemma has_false_filter (i : Z) (l : list TaskList.Task) :
  existsb (fun t => TaskList.id t =? i) l = false ->
  filter (fun t => negb (TaskList.id t =? i)) l = l.
Proof.
  induction l as [ | t l IH]; simpl; [reflexivity | ].
  destruct (TaskList.id t =? i); simpl; [discriminate | ].
  intros H. rewrite IH by exact H. reflexivity.
Qed.

Lemma filter_has_false (i : Z) (l : list TaskList.Task) :
  existsb (fun t => TaskList.id t =? i)
          (filter (fun t => negb (TaskList.id t =? i)) l) = false.
Proof.
  induction l as [ | t l IH]; simpl; [reflexivity | ].
  destruct (TaskList.id t =? i) eqn:E; simpl; [exact IH | ].
  rewrite E. exact IH.
Qed.

(** X15. [remove (id)] deletes every task with that id and keeps the
    others, in their order: the list afterwards is the list from before
    without the tasks of that id, so a list [a ++ t :: b] becomes what is
    left of [a], then [t] unless it has the id, then what is left of [b].
    Afterwards no task has the id, a task with another id is in the list
    exactly if it was before, removing again or removing an id that no
    task has changes no task, and removing the id of a task just added
    under a new id gives back the tasks from before the [add]. *)
Theorem X15_remove (st : TaskList.State) (i : Z) :
  TaskList.items (TaskList.remove i st) =
  filter (fun t => negb (TaskList.id t =? i)) (TaskList.items st)
  /\ (forall a t b s,
        TaskList.items st = a ++ t :: b ->
        TaskList.items (TaskList.remove i st) =
        TaskList.items (TaskList.remove i (TaskList.mkState a s))
        ++ (if TaskList.id t =? i then [] else [t])
        ++ TaskList.items (TaskList.remove i (TaskList.mkState b s)))
  /\ TaskList.has i (TaskList.remove i st) = false
  /\ (forall t, TaskList.id t <> i ->
        (In t (TaskList.items (TaskList.remove i st)) <->
         In t (TaskList.items st)))
  /\ (forall j, j <> i ->
        filter (fun t => TaskList.id t =? j)
               (TaskList.items (TaskList.remove i st)) =
        filter (fun t => TaskList.id t =? j) (TaskList.items st))
  /\ TaskList.remove i (TaskList.remove i st) = TaskList.remove i st
  /\ (TaskList.has i st = false ->
      TaskList.items (TaskList.remove i st) = TaskList.items st)
  /\ (forall txt,
        TaskList.has i st = false ->
        TaskList.items (TaskList.remove i (snd (TaskList.add i txt st))) =
        TaskList.items st).
Proof.
  unfold TaskList.has, TaskList.remove. simpl.
  split; [reflexivity | ].
  split.
  { intros a t b _ ->. rewrite filter_app. simpl.
    destruct (TaskList.id t =? i); reflexivity. }
  split; [apply filter_has_false | ].
  split; [ | split; [ | split; [ | split]]].
  - intros t Ht. rewrite filter_In. split; [intros [H _]; exact H | ].
    intros H. split; [exact H | ].
    destruct (Z.eqb_spec (TaskList.id t) i); [contradiction | reflexivity].
  - intros j Hj. induction (TaskList.items st) as [ | t l IH];
      [reflexivity | ].
    simpl. destruct (Z.eqb_spec (TaskList.id t) i) as [E | E]; simpl.
    + destruct (Z.eqb_spec (TaskList.id t) j); [congruence | exact IH].
    + destruct (TaskList.id t =? j); [rewrite IH | ]; auto.
  - rewrite has_false_filter by apply filter_has_false. reflexivity.
  - apply has_false_filter.
  - intros txt H. rewrite filter_app. simpl. rewrite Z.eqb_refl. simpl.
    rewrite app_nil_r. apply has_false_filter, H.
Qed.

(** What [toggle] does to the counts. *)
Lemma toggle_counts (st : TaskList.State) (i : Z) :
  List.length (TaskList.items (TaskList.toggle i st)) =
  List.length (TaskList.items st)
  /\ (TaskList.has i st = true ->
      List.length (filter TaskList.done
                     (TaskList.items (TaskList.toggle i st))) =
      S (List.length (filter TaskList.done (TaskList.items st)))
      \/ S (List.length (filter TaskList.done
                           (TaskList.items (TaskList.toggle i st)))) =
         List.length (filter TaskList.done (TaskList.items st)))
  /\ (TaskList.has i st = false -> TaskList.toggle i st = st).
Proof.
  unfold TaskList.toggle, TaskList.has.
  destruct (TaskList.flip_first i (TaskList.items st)) as [l | ] eqn:E.
  - destruct (flip_first_some i _ l E) as (a & t & b & Hl & Ht & Ha & ->).
    simpl TaskList.items. rewrite Hl.
    rewrite !filter_app, !List.length_app. simpl.
    split; [reflexivity | split].
    + intros _. destruct (TaskList.done t); simpl;
        rewrite ?List.length_app; simpl; [right | left]; lia.
    + intros H. apply flip_first_none in H. rewrite Hl in E. congruence.
  - split; [reflexivity | split; [ | reflexivity]].
    intros H. apply flip_first_none in E. congruence.
Qed.

(** The number of tasks with an id. *)
Lemma remove_length (st : TaskList.State) (i : Z) :
  (List.length (TaskList.items (TaskList.remove i st)) +
   List.length (filter (fun t => (TaskList.id t =? i)%Z)
                       (TaskList.items st)) =
   List.length (TaskList.items st))%nat.
Proof.
  unfold TaskList.remove. simpl.
  induction (TaskList.items st) as [ | t l IH]; simpl; [reflexivity | ].
  destruct (TaskList.id t =? i); simpl; lia.
Qed.

Lemma remove_done_le (st : TaskList.State) (i : Z) :
  (List.length (filter TaskList.done
                  (TaskList.items (TaskList.remove i st))) <=
   List.length (filter TaskList.done (TaskList.items st)))%nat.
Proof.
  unfold TaskList.remove. simpl.
  induction (TaskList.items st) as [ | t l IH]; simpl; [lia | ].
  destruct (TaskList.id t =? i)%Z; simpl;
    destruct (TaskList.done t); simpl; lia.
Qed.

(** X16. [progress]: [done] never exceeds [total]; [add] raises [total] by
    one and keeps [done]; [toggle] keeps [total] and moves [done] by exactly
    one when a task has the id, and by nothing otherwise; [remove] lowers
    [total] by the number of tasks that have the id. *)
Theorem X16_progress (st : TaskList.State) (i now : Z) (txt : CodeUnits) :
  let p := TaskList.progress st in
  let p_add := TaskList.progress (snd (TaskList.add now txt st)) in
  let p_tog := TaskList.progress (TaskList.toggle i st) in
  let p_rem := TaskList.progress (TaskList.remove i st) in
  (fst p <= snd p)%nat
  /\ p_add = (fst p, S (snd p))
  /\ snd p_tog = snd p
  /\ (TaskList.has i st = true ->
      fst p_tog = S (fst p) \/ S (fst p_tog) = fst p)
  /\ (TaskList.has i st = false -> p_tog = p)
  /\ (snd p_rem +
      List.length (filter (fun t => (TaskList.id t =? i)%Z)
                          (TaskList.items st)) =
      snd p)%nat
  /\ (fst p_rem <= fst p)%nat.
Proof.
  cbv zeta. unfold TaskList.progress.
  split; [apply filter_length_le | ].
  split.
  { simpl. rewrite filter_app, !List.length_app. simpl.
    f_equal; lia. }
  destruct (toggle_counts st i) as (Hlen & Hyes & Hno).
  split; [exact Hlen | split; [exact Hyes | split; [ | split]]].
  - intros H. rewrite (Hno H). reflexivity.
  - apply remove_length.
  - apply remove_done_le.
Qed.

Lemma X15_remove_witness :
  let st := TaskList.mkState
              [TaskList.mkTask 1 [] true; TaskList.mkTask 2 [] false;
               TaskList.mkTask 1 [] false] TaskList.Absent in
  TaskList.items (TaskList.remove 5 st) = TaskList.items st.
Proof.
  intros st.
  destruct (X15_remove st 5) as (_ & _ & _ & _ & _ & _ & H & _).
  apply H. reflexivity.
Defined.

Lemma X16_progress_witness :
  let st := TaskList.mkState
              [TaskList.mkTask 1 [] true; TaskList.mkTask 2 [] false]
              TaskList.Absent in
  TaskList.progress (TaskList.toggle 9 st) = TaskList.progress st.
Proof.
  intros st. apply (X16_progress st 9 0 []). reflexivity.
Defined.

Lemma filter_none {A : Type} (f : A -> bool) (l : list A) :
  (forall u, In u l -> f u = false) -> filter f l = [].
Proof.
  induction l as [ | x l IH]; simpl; [reflexivity | ]. intros H.
  rewrite (H x) by (left; reflexivity). apply IH.
  intros u Hu. apply H. right. exact Hu.
Qed.

Lemma has_In (i : Z) (st : TaskList.State) :
  TaskList.has i st = true <-> In i (TaskList.ids st).
Proof.
  unfold TaskList.has, TaskList.ids. rewrite existsb_exists, in_map_iff.
  split.
  - intros (t & Ht & E). exists t. split; [apply Z.eqb_eq, E | exact Ht].
  - intros (t & E & Ht). exists t. split; [exact Ht | apply Z.eqb_eq, E].
Qed.

Lemma NoDup_filter_map (i : Z) (l : list TaskList.Task) :
  NoDup (map TaskList.id l) ->
  NoDup (map TaskList.id
           (filter (fun t => negb (TaskList.id t =? i)) l)).
Proof.
  induction l as [ | t l IH]; simpl; [intros H; exact H | ].
  intros H. inversion H as [ | x xs Hin Hnd]; subst.
  destruct (TaskList.id t =? i); simpl; [apply IH, Hnd | ].
  constructor; [ | apply IH, Hnd].
  intros Hc. apply Hin. rewrite in_map_iff in *.
  destruct Hc as (u & Hu & Hf). exists u. split; [exact Hu | ].
  apply filter_In in Hf. apply Hf.
Qed.

(** [toggle] in terms of the first task with the id. *)
Lemma toggle_shape (st : TaskList.State) (i : Z) :
  TaskList.ids (TaskList.toggle i st) = TaskList.ids st
  /\ (TaskList.has i st = false -> TaskList.toggle i st = st)
  /\ (TaskList.has i st = true ->
      exists a t b,
        TaskList.items st = a ++ t :: b
        /\ TaskList.id t = i
        /\ (forall u, In u a -> TaskList.id u <> i)
        /\ TaskList.items (TaskList.toggle i st) = a ++ flipped t :: b).
Proof.
  unfold TaskList.toggle, TaskList.has, TaskList.ids.
  destruct (TaskList.flip_first i (TaskList.items st)) as [l | ] eqn:E.
  - destruct (flip_first_some i _ l E) as (a & t & b & Hl & Ht & Ha & ->).
    simpl TaskList.items. rewrite Hl, !map_app. simpl.
    split; [reflexivity | split].
    + intros H. apply flip_first_none in H. rewrite Hl in E. congruence.
    + intros _. exists a, t, b. auto.
  - apply flip_first_none in E.
    split; [reflexivity | split; [reflexivity | ]]. intros H. congruence.
Qed.

(** X17. Ids come from the clock, so they are distinct only if no two
    tasks are added within the same millisecond.  While the ids are
    distinct they stay so under [toggle], [remove] and an [add] with a
    time no task has yet; [toggle (id)] then flips the one task with that
    id, and [remove (id)] of a task's id deletes exactly one task. *)
Theorem X17_distinct_ids (st : TaskList.State) (i now : Z) (txt : CodeUnits) :
  NoDup (TaskList.ids st) ->
  NoDup (TaskList.ids (TaskList.toggle i st))
  /\ NoDup (TaskList.ids (TaskList.remove i st))
  /\ (TaskList.has now st = false ->
      NoDup (TaskList.ids (snd (TaskList.add now txt st))))
  /\ (forall t, In t (TaskList.items st) ->
        In (if TaskList.id t =? i then flipped t else t)
           (TaskList.items (TaskList.toggle i st)))
  /\ (TaskList.has i st = true ->
      S (List.length (TaskList.items (TaskList.remove i st))) =
      List.length (TaskList.items st)).
Proof.
  intros Hnd.
  destruct (toggle_shape st i) as (Hids & Hno & Hyes).
  split; [rewrite Hids; exact Hnd | ].
  split; [apply NoDup_filter_map, Hnd | ].
  split; [ | split].
  - intros Hnew. unfold TaskList.ids. simpl. rewrite map_app. simpl.
    apply NoDup_app; [exact Hnd | repeat constructor; intros [] | ].
    intros x Hx [E | []]. subst x.
    assert (Hh : TaskList.has now st = true) by (apply has_In, Hx).
    congruence.
  - intros t Ht. destruct (TaskList.has i st) eqn:Hh.
    + destruct (Hyes eq_refl) as (a & x & b & Hl & Hx & Ha & Hl').
      rewrite Hl'. rewrite Hl in Ht. unfold TaskList.ids in Hnd.
      rewrite Hl, map_app in Hnd. simpl in Hnd.
      apply NoDup_remove_2 in Hnd.
      apply in_app_or in Ht. destruct Ht as [Ht | [<- | Ht]].
      * destruct (Z.eqb_spec (TaskList.id t) i) as [E | E];
          [exfalso; apply (Ha t Ht E) | ].
        apply in_or_app. left. exact Ht.
      * rewrite Hx, Z.eqb_refl. apply in_or_app. right. left. reflexivity.
      * destruct (Z.eqb_spec (TaskList.id t) i) as [E | E].
        -- exfalso. apply Hnd. apply in_or_app. right.
           rewrite Hx, <- E. apply in_map, Ht.
        -- apply in_or_app. right. right. exact Ht.
    + rewrite (Hno eq_refl).
      destruct (Z.eqb_spec (TaskList.id t) i) as [E | E]; [ | exact Ht].
      exfalso. assert (Hh' : TaskList.has i st = true).
      { apply has_In. rewrite <- E. apply in_map, Ht. }
      congruence.
  - intros Hh. pose proof (remove_length st i) as Hlen.
    assert (H1 : List.length
                   (filter (fun t => TaskList.id t =? i)
                           (TaskList.items st)) = 1%nat).
    { destruct (Hyes Hh) as (a & x & b & Hl & Hx & Ha & _).
      unfold TaskList.ids in Hnd. rewrite Hl, map_app in Hnd. simpl in Hnd.
      apply NoDup_remove_2 in Hnd.
      rewrite Hl, filter_app. simpl. rewrite Hx, Z.eqb_refl.
      rewrite List.length_app. simpl.
      assert (Ea : filter (fun t => TaskList.id t =? i) a = []).
      { apply filter_none. intros u Hu. apply Z.eqb_neq, Ha, Hu. }
      assert (Eb : filter (fun t => TaskList.id t =? i) b = []).
      { apply filter_none. intros u Hu. apply Z.eqb_neq. intros E.
        apply Hnd. apply in_or_app. right. rewrite Hx, <- E.
        apply in_map, Hu. }
      rewrite Ea, Eb. reflexivity. }
    lia.
Qed.

Lemma X17_distinct_ids_witness :
  let st := TaskList.mkState
              [TaskList.mkTask 1 [] true; TaskList.mkTask 2 [] false]
              TaskList.Absent in
  S (List.length (TaskList.items (TaskList.remove 2 st))) = 2%nat.
Proof.
  intros st.
  apply (X17_distinct_ids st 2 0 []).
  - repeat constructor; simpl; intuition discriminate.
  - reflexivity.
Defined.

(** X18. The task form of app.js.  An input that is empty or all
    whitespace adds nothing and is left in the field.  Any other input adds
    one task at the end, not done, whose text is the input without the
    whitespace at its two ends (so it is not empty and neither starts nor
    ends with whitespace), saves the list and empties the field. *)
Theorem X18_addTask (now : Z) (f : TaskList.Form) :
  let input := TaskList.newTaskInput f in
  let f' := TaskList.addTask now f in
  let task := TaskList.mkTask now (TaskList.trim input) false in
  (forallb TaskList.is_space input = true -> f' = f)
  /\ (forallb TaskList.is_space input = false ->
      TaskList.items (TaskList.taskList f') =
      TaskList.items (TaskList.taskList f) ++ [task]
      /\ TaskList.storage (TaskList.taskList f') =
         TaskList.Saved (TaskList.items (TaskList.taskList f) ++ [task])
      /\ TaskList.newTaskInput f' = []
      /\ TaskList.text task <> []
      /\ starts_clean (TaskList.text task)
      /\ ends_clean (TaskList.text task)
      /\ (exists a b,
            input = a ++ TaskList.text task ++ b
            /\ forallb TaskList.is_space a = true
            /\ forallb TaskList.is_space b = true)).
Proof.
  cbv zeta. unfold TaskList.addTask.
  split.
  - intros H. apply trim_nil in H. rewrite H. reflexivity.
  - intros H.
    assert (Hne : TaskList.trim (TaskList.newTaskInput f) <> []).
    { intros E. apply trim_nil in E. congruence. }
    destruct (TaskList.trim (TaskList.newTaskInput f)) as [ | c r] eqn:E;
      [contradiction | ].
    simpl TaskList.taskList. simpl TaskList.items. simpl TaskList.storage.
    simpl TaskList.newTaskInput. simpl TaskList.text.
    rewrite <- E, trim_idem.
    destruct (trim_clean (TaskList.newTaskInput f)) as [Hs He].
    split; [reflexivity | split; [reflexivity | split; [reflexivity | ]]].
    split; [rewrite E; discriminate | split; [exact Hs | split; [exact He | ]]].
    apply trim_split.
Qed.

Lemma X18_addTask_witness :
  let f := TaskList.mkForm (TaskList.constructor TaskList.Corrupt)
                           [0x20; 0x61; 0x20; 0x62; 0xA0; 0x9]%N in
  TaskList.items (TaskList.taskList (TaskList.addTask 1000 f)) =
  [TaskList.mkTask 1000 [0x61; 0x20; 0x62]%N false].
Proof.
  intros f.
  refine (eq_trans (proj1 (proj2 (X18_addTask 1000 f) _)) _); reflexivity.
Defined.

(** * The YouTube player wrapper *)

Ltac break_yt st :=
  destruct st as [yt_player yt_ready yt_isMuted yt_vol yt_vid yt_rcbs
                  yt_scbs yt_state yt_sent yt_ran].

Ltac yt_unfold :=
  cbv [YouTubePlayer.step YouTubePlayer.init YouTubePlayer.onReady
       YouTubePlayer.onStateChange YouTubePlayer.play YouTubePlayer.pause
       YouTubePlayer.toggle YouTubePlayer.isPlaying YouTubePlayer.mute
       YouTubePlayer.setVolume YouTubePlayer.unmute YouTubePlayer.toggleMute
       YouTubePlayer.loadVideo YouTubePlayer._handleReady
       YouTubePlayer._handleStateChange YouTubePlayer.send
       YouTubePlayer.andThen
       YouTubePlayer.set_isReady YouTubePlayer.set_isMuted
       YouTubePlayer.set_volume YouTubePlayer.set_videoId
       YouTubePlayer.set__readyCbs YouTubePlayer.set__stateChangeCbs
       YouTubePlayer.player YouTubePlayer.isReady YouTubePlayer.isMuted
       YouTubePlayer.volume YouTubePlayer.videoId YouTubePlayer._readyCbs
       YouTubePlayer._stateChangeCbs YouTubePlayer.ytState
       YouTubePlayer.sent YouTubePlayer.ran YouTubePlayer.enabled
       YouTubePlayer.yt_muted negb] in *.

(** Running a list of callbacks adds them to [ran] and changes nothing
    else. *)
Lemma yt_run_callbacks (mk : nat -> YouTubePlayer.Ran) (cbs : list nat)
  (st : YouTubePlayer.State) :
  fold_left (fun s cb => YouTubePlayer.call (mk cb) s) cbs st =
  YouTubePlayer.mkState
    (YouTubePlayer.player st) (YouTubePlayer.isReady st)
    (YouTubePlayer.isMuted st) (YouTubePlayer.volume st)
    (YouTubePlayer.videoId st) (YouTubePlayer._readyCbs st)
    (YouTubePlayer._stateChangeCbs st) (YouTubePlayer.ytState st)
    (YouTubePlayer.sent st) (YouTubePlayer.ran st ++ map mk cbs).
Proof.
  revert st. induction cbs as [ | cb cbs IH]; intros st; simpl.
  - rewrite app_nil_r. destruct st. reflexivity.
  - rewrite IH. simpl. rewrite <- app_assoc. reflexivity.
Qed.

Lemma yt_muted_from_app (m : bool) (a b : list YouTubePlayer.Cmd) :
  YouTubePlayer.yt_muted_from m (a ++ b) =
  YouTubePlayer.yt_muted_from (YouTubePlayer.yt_muted_from m a) b.
Proof.
  revert m. induction a as [ | c a IH]; intros m; simpl; [reflexivity | ].
  destruct c; apply IH.
Qed.

(** Case analysis on an event of the wrapper: [Hstep] is the equation of
    the step, the flags of the state are destructed. *)
Ltac yt_cases Hstep :=
  yt_unfold; rewrite ?yt_run_callbacks in Hstep; simpl in Hstep;
  repeat match type of Hstep with
  | context [if ?b then _ else _] => destruct b eqn:?
  end;
  try discriminate Hstep;
  injection Hstep as <-; rewrite ?yt_run_callbacks; simpl.

(** The invariant of the reachable states of the wrapper. *)
Lemma yt_invariant (st : YouTubePlayer.State) :
  YouTubePlayer.reachable st ->
  (YouTubePlayer.isReady st = true -> YouTubePlayer.player st = true)
  /\ (YouTubePlayer.isReady st = false -> YouTubePlayer.sent st = [])
  /\ 0 <= YouTubePlayer.volume st <= 100.
Proof.
  induction 1 as [ | o st st' Hst IH Hen Hstep].
  - simpl. repeat split; try lia; try discriminate.
  - revert IH Hen Hstep. break_yt st. simpl.
    intros (Hp & Hs & Hv) Hen Hstep.
    destruct yt_ready;
      [specialize (Hp eq_refl); subst yt_player
      | specialize (Hs eq_refl); subst yt_sent];
      destruct o; yt_cases Hstep;
      (split; [ | split]); intros; try discriminate; auto; try lia.
Qed.

(** X19. The wrapper never touches the [YT.Player] object too early: in
    every reachable state no call has been made on it while [isReady] is
    false, [isReady] implies that the object exists, and no method throws,
    whatever the order in which the caller uses them. *)
Theorem X19_player_safe (st : YouTubePlayer.State) (o : YouTubePlayer.Op) :
  YouTubePlayer.reachable st ->
  (YouTubePlayer.isReady st = false -> YouTubePlayer.sent st = [])
  /\ (YouTubePlayer.isReady st = true -> YouTubePlayer.player st = true)
  /\ (YouTubePlayer.enabled o st ->
      exists st', YouTubePlayer.step o st = Some st')
  /\ (YouTubePlayer.isReady st = false ->
      forall st', YouTubePlayer.step o st = Some st' ->
      o <> YouTubePlayer.YTReady -> YouTubePlayer.sent st' = []).
Proof.
  intros Hst. destruct (yt_invariant st Hst) as (Hp & Hs & _).
  split; [exact Hs | split; [exact Hp | ]].
  revert Hp Hs. break_yt st. simpl. intros Hp Hs. split.
  - intros Hen.
    destruct yt_ready;
      [specialize (Hp eq_refl); subst yt_player | ];
      destruct o; yt_unfold; simpl in *; try subst yt_player;
      repeat match goal with
      | |- context [if ?b then _ else _] => destruct b
      end; eexists; reflexivity.
  - intros -> st' Hstep Ho. specialize (Hs eq_refl). subst yt_sent.
    destruct o; try contradiction; yt_cases Hstep; reflexivity.
Qed.

Lemma X19_player_safe_witness :
  exists st',
    YouTubePlayer.step YouTubePlayer.OUnmute YouTubePlayer.constructor =
    Some st'.
Proof.
  apply (X19_player_safe YouTubePlayer.constructor YouTubePlayer.OUnmute).
  - apply YouTubePlayer.reachable_new.
  - exact I.
Defined.

Lemma ready_ran_app (a b : list YouTubePlayer.Ran) :
  YouTubePlayer.ready_ran (a ++ b) =
  YouTubePlayer.ready_ran a ++ YouTubePlayer.ready_ran b.
Proof.
  induction a as [ | r a IH]; simpl; [reflexivity | ].
  destruct r; simpl; rewrite IH; reflexivity.
Qed.

Lemma ready_ran_ready (cbs : list nat) :
  YouTubePlayer.ready_ran (map YouTubePlayer.RanReady cbs) = cbs.
Proof. induction cbs as [ | c cbs IH]; simpl; [ | rewrite IH]; reflexivity. Qed.

Lemma ready_ran_state (data : Z) (cbs : list nat) :
  YouTubePlayer.ready_ran
    (map (fun cb => YouTubePlayer.RanStateChange cb data) cbs) = [].
Proof. induction cbs as [ | c cbs IH]; simpl; [reflexivity | exact IH]. Qed.

Lemma ready_cbs_step (o : YouTubePlayer.Op) (st st' : YouTubePlayer.State)
  (regs : list nat) :
  ready_cbs_settled st regs ->
  YouTubePlayer.step o st = Some st' ->
  ready_cbs_settled st' (regs ++ YouTubePlayer.ready_registered [o]).
Proof.
  unfold ready_cbs_settled. break_yt st. simpl. intros H Hstep.
  destruct yt_ready; destruct H as [Hr Hc]; subst;
    destruct o; yt_cases Hstep;
    rewrite ?ready_ran_app, ?ready_ran_ready, ?ready_ran_state, ?app_nil_r;
    simpl; rewrite ?Hr; auto.
Qed.

(** X21. Each callback given to [onReady] is run exactly once, in the
    order of registration: after any use of the wrapper, if the player is
    ready the callbacks that were run are the ones registered, in that
    order, and none is waiting; if it is not ready yet none was run and
    the ones registered are waiting in [_readyCbs]. *)
Theorem X21_ready_callbacks_once (ops : list YouTubePlayer.Op)
  (st : YouTubePlayer.State) :
  YouTubePlayer.run ops YouTubePlayer.constructor = Some st ->
  let registered := YouTubePlayer.ready_registered ops in
  (YouTubePlayer.isReady st = true ->
   YouTubePlayer.ready_ran (YouTubePlayer.ran st) = registered
   /\ YouTubePlayer._readyCbs st = [])
  /\ (YouTubePlayer.isReady st = false ->
      YouTubePlayer.ready_ran (YouTubePlayer.ran st) = []
      /\ YouTubePlayer._readyCbs st = registered).
Proof.
  intros Hrun. cbv zeta.
  assert (H : forall ops st0 regs st1,
            ready_cbs_settled st0 regs ->
            YouTubePlayer.run ops st0 = Some st1 ->
            ready_cbs_settled st1 (regs ++ YouTubePlayer.ready_registered ops)).
  { clear. induction ops as [ | o ops IH]; intros st0 regs st1 H0 Hrun.
    - simpl in *. injection Hrun as <-. rewrite app_nil_r. exact H0.
    - simpl in Hrun.
      destruct (YouTubePlayer.step o st0) as [st' | ] eqn:E;
        [ | discriminate].
      simpl in Hrun. pose proof (ready_cbs_step o st0 st' regs H0 E) as H1.
      specialize (IH st' _ st1 H1 Hrun).
      rewrite <- app_assoc in IH.
      replace (YouTubePlayer.ready_registered (o :: ops))
        with (YouTubePlayer.ready_registered [o] ++
              YouTubePlayer.ready_registered ops); [exact IH | ].
      destruct o; reflexivity. }
  specialize (H ops YouTubePlayer.constructor [] st).
  simpl in H. unfold ready_cbs_settled in H.
  destruct (YouTubePlayer.isReady st).
  - split; [intros _; apply H; [split; reflexivity | exact Hrun]
           | discriminate].
  - split; [discriminate
           | intros _; apply H; [split; reflexivity | exact Hrun]].
Qed.

Lemma X21_ready_callbacks_once_witness :
  let ops := [YouTubePlayer.OOnReady 1; YouTubePlayer.OInit "v";
              YouTubePlayer.OOnReady 2; YouTubePlayer.YTReady;
              YouTubePlayer.OOnReady 3; YouTubePlayer.YTReady] in
  match YouTubePlayer.run ops YouTubePlayer.constructor with
  | Some st => YouTubePlayer.ready_ran (YouTubePlayer.ran st) = [1; 2; 3]%nat
  | None => False
  end.
Proof.
  intros ops.
  destruct (YouTubePlayer.run ops YouTubePlayer.constructor) as [st | ] eqn:E;
    [ | discriminate E].
  apply (X21_ready_callbacks_once ops st E).
  injection E as <-. reflexivity.
Defined.

(** X22. The mute flag and the [YT.Player] object.  Once the player is
    ready, [setVolume], [mute], [unmute], [toggleMute] and [loadVideo] each
    leave the object muted exactly when [isMuted] says so, and no method
    or event breaks that agreement afterwards.  Before the player is
    ready nothing is sent, so the object stays muted whatever [isMuted]
    says: the two agree only while [isMuted] is true, and becoming ready
    does not repair a disagreement. *)
Theorem X22_player_mute_agreement (st st' : YouTubePlayer.State)
  (o : YouTubePlayer.Op) :
  YouTubePlayer.reachable st ->
  YouTubePlayer.enabled o st ->
  YouTubePlayer.step o st = Some st' ->
  (YouTubePlayer.isReady st = true -> YouTubePlayer.sets_mute o = true ->
   YouTubePlayer.yt_muted st' = YouTubePlayer.isMuted st')
  /\ (YouTubePlayer.isReady st = true ->
      YouTubePlayer.yt_muted st = YouTubePlayer.isMuted st ->
      YouTubePlayer.yt_muted st' = YouTubePlayer.isMuted st')
  /\ (YouTubePlayer.isReady st = false ->
      YouTubePlayer.yt_muted st = true
      /\ YouTubePlayer.yt_muted st' = true).
Proof.
  intros Hst Hen Hstep. destruct (yt_invariant st Hst) as (Hp & Hs & _).
  revert Hp Hs Hen Hstep. break_yt st. simpl. intros Hp Hs Hen Hstep.
  destruct yt_ready;
    [specialize (Hp eq_refl); subst yt_player
    | specialize (Hs eq_refl); subst yt_sent];
    (split; [ | split]); try discriminate;
    try (intros _ Hm; destruct o; try discriminate Hm; yt_cases Hstep;
         rewrite ?yt_muted_from_app; reflexivity);
    try (intros _ Ha; destruct o; yt_cases Hstep;
         rewrite ?yt_muted_from_app; simpl; auto; congruence).
  intros _. split; [reflexivity | ].
  destruct o; yt_cases Hstep; reflexivity.
Qed.

Lemma X22_player_mute_agreement_witness :
  let st := YouTubePlayer.mkState false false false 50 None [] [] (-1) [] [] in
  YouTubePlayer.yt_muted st = true.
Proof.
  intros st.
  refine (proj1 (proj2 (proj2
    (X22_player_mute_agreement YouTubePlayer.constructor st
       YouTubePlayer.OUnmute _ _ _)) _)).
  - apply YouTubePlayer.reachable_new.
  - exact I.
  - reflexivity.
  - reflexivity.
Defined.

(** * The alarm *)

Ltac break_alarm st :=
  destruct st as [al_sounds al_ctx al_oscs al_iv al_hidden al_msg al_hs
                  al_nh al_cs al_nc].

(** A period with [n] intervals registered and an audio context. *)
Lemma Alarm_fire_each (hs : list nat) (st : Alarm.State) :
  (forall h, In h hs -> In h (Alarm.intervals st)) ->
  Alarm.fire_each hs st =
  match Alarm.alarmCtx st with
  | None => st
  | Some _ =>
      Alarm.mkState (Alarm.notifSounds st) (Alarm.alarmCtx st)
        (Alarm.alarmOscs st + 6 * List.length hs) (Alarm.alarmInterval st)
        (Alarm.overlayHidden st) (Alarm.message st) (Alarm.intervals st)
        (Alarm.nextHandle st) (Alarm.contexts st) (Alarm.nextContext st)
  end.
Proof.
  revert st. induction hs as [ | h hs IH]; intros st Hin.
  - simpl. destruct st as [? [c | ] ? ? ? ? ? ? ? ?]; simpl;
      [rewrite Nat.add_0_r | ]; reflexivity.
  - simpl Alarm.fire_each.
    assert (Hh : existsb (Nat.eqb h) (Alarm.intervals st) = true).
    { apply existsb_exists. exists h. split; [ | apply Nat.eqb_refl].
      apply Hin. left. reflexivity. }
    rewrite Hh. unfold Alarm.playAlarmPattern.
    destruct (Alarm.alarmCtx st) as [c | ] eqn:Ec.
    + rewrite IH by (intros x Hx; apply Hin; right; exact Hx).
      simpl. f_equal. lia.
    + rewrite IH by (intros x Hx; apply Hin; right; exact Hx).
      rewrite Ec. reflexivity.
Qed.

Lemma Alarm_period (st : Alarm.State) :
  Alarm.period st =
  match Alarm.alarmCtx st with
  | None => st
  | Some _ =>
      Alarm.mkState (Alarm.notifSounds st) (Alarm.alarmCtx st)
        (Alarm.alarmOscs st + 6 * List.length (Alarm.intervals st))
        (Alarm.alarmInterval st) (Alarm.overlayHidden st) (Alarm.message st)
        (Alarm.intervals st) (Alarm.nextHandle st) (Alarm.contexts st)
        (Alarm.nextContext st)
  end.
Proof. apply Alarm_fire_each. intros h H. exact H. Qed.

Lemma Alarm_periods_silent (n : nat) (st : Alarm.State) :
  Alarm.alarmCtx st = None -> Alarm.periods n st = st.
Proof.
  intros H. induction n as [ | n IH]; simpl; [reflexivity | ].
  rewrite Alarm_period, H. exact IH.
Qed.

Lemma Alarm_periods_sounding (n : nat) (st : Alarm.State) (c : nat) :
  Alarm.alarmCtx st = Some c ->
  Alarm.periods n st =
  Alarm.mkState (Alarm.notifSounds st) (Some c)
    (Alarm.alarmOscs st + 6 * (n * List.length (Alarm.intervals st)))
    (Alarm.alarmInterval st) (Alarm.overlayHidden st) (Alarm.message st)
    (Alarm.intervals st) (Alarm.nextHandle st) (Alarm.contexts st)
    (Alarm.nextContext st).
Proof.
  revert st. induction n as [ | n IH]; intros st Hc.
  - simpl. rewrite Nat.add_0_r, <- Hc. destruct st. reflexivity.
  - simpl Alarm.periods. rewrite Alarm_period, Hc.
    rewrite IH by reflexivity. simpl. f_equal. lia.
Qed.

(** The state after [k >= 1] alarms started in a row from a quiet state,
    with sounds on. *)
Lemma Alarm_starts (k : nat) (msg : string) (st : Alarm.State) :
  Alarm.quiet st -> Alarm.notifSounds st = true ->
  Alarm.starts (S k) msg st =
  Alarm.mkState true (Some (Alarm.nextContext st + k)%nat) (6 * S k)
    (Some (Alarm.nextHandle st + k)%nat) false msg
    (seq (Alarm.nextHandle st) (S k)) (Alarm.nextHandle st + S k)%nat
    (seq (Alarm.nextContext st) (S k)) (Alarm.nextContext st + S k)%nat.
Proof.
  break_alarm st. intros Hq Hs. unfold Alarm.quiet in Hq.
  simpl in Hq, Hs. destruct Hq as (-> & -> & -> & -> & ->). subst al_sounds.
  cbn [Alarm.nextContext Alarm.nextHandle].
  induction k as [ | k IH].
  - simpl. unfold Alarm.startAlarm. simpl.
    rewrite !Nat.add_0_r, !Nat.add_1_r. reflexivity.
  - change (Alarm.starts (S (S k)) msg ?s)
      with (Alarm.startAlarm msg true (Alarm.starts (S k) msg s)).
    rewrite IH. unfold Alarm.startAlarm.
    cbn [Alarm.notifSounds negb Alarm.showAlarmOverlay Alarm.playAlarmPattern
         Alarm.alarmCtx Alarm.alarmOscs Alarm.alarmInterval
         Alarm.overlayHidden Alarm.message Alarm.intervals Alarm.nextHandle
         Alarm.contexts Alarm.nextContext].
    rewrite (seq_S (S k) al_nh), (seq_S (S k) al_nc).
    f_equal; try (f_equal; lia); try lia.
Qed.

Lemma filter_seq_last (a n : nat) :
  filter (fun h => negb (Nat.eqb h (a + n))) (seq a (S n)) = seq a n.
Proof.
  rewrite seq_S, filter_app. simpl. rewrite Nat.eqb_refl. simpl.
  rewrite app_nil_r. apply forallb_filter_id. apply forallb_forall.
  intros h Hh. apply in_seq in Hh.
  destruct (Nat.eqb_spec h (a + n)); [lia | reflexivity].
Qed.

(** X25. One alarm.  [startAlarm] from a quiet state shows the overlay
    with the message whether or not sound can be played; with sounds on
    and audio available one interval replays the six notes every period,
    otherwise nothing sounds; [stopAlarm] then hides the overlay and leaves
    no interval, no audio context and no oscillator behind. *)
Theorem X25_alarm_start_stop (st : Alarm.State) (msg : string)
  (audio : bool) (n : nat) :
  Alarm.quiet st ->
  let during := Alarm.periods n (Alarm.startAlarm msg audio st) in
  let after := Alarm.stopAlarm during in
  Alarm.overlayHidden during = false
  /\ Alarm.message during = msg
  /\ (Alarm.notifSounds st && audio = true ->
      Alarm.alarmOscs during = (6 * (n + 1))%nat
      /\ List.length (Alarm.intervals during) = 1%nat)
  /\ (Alarm.notifSounds st && audio = false -> Alarm.quiet during)
  /\ Alarm.quiet after
  /\ Alarm.overlayHidden after = true.
Proof.
  break_alarm st. intros Hq. unfold Alarm.quiet in Hq. simpl in Hq.
  destruct Hq as (-> & -> & -> & -> & ->). cbv zeta.
  destruct al_sounds, audio; unfold Alarm.startAlarm; simpl;
    try (rewrite Alarm_periods_silent by reflexivity; simpl;
         unfold Alarm.quiet; simpl;
         repeat split; auto; discriminate).
  rewrite (Alarm_periods_sounding n _ al_nc) by reflexivity.
  unfold Alarm.stopAlarm, Alarm.quiet. simpl.
  rewrite !Nat.eqb_refl. simpl.
  repeat split; auto; try discriminate; lia.
Qed.

Lemma X25_alarm_start_stop_witness :
  let st := Alarm.mkState true None 0 None true "" [] 1 [] 1 in
  Alarm.alarmOscs (Alarm.periods 2 (Alarm.startAlarm "Time's up!" true st)) =
  18%nat.
Proof.
  intros st.
  apply (X25_alarm_start_stop st "Time's up!" true 2).
  - unfold Alarm.quiet. simpl. repeat split; reflexivity.
  - reflexivity.
Defined.

(** X26. Alarms that overlap.  [stopAlarm] clears only the interval and
    the audio context of the alarm started last: after [k + 2] alarms
    started in a row with sounds on and one [stopAlarm], [k + 1] intervals
    stay registered and [k + 1] audio contexts stay open.  They are silent
    as long as no alarm is on, and ring with the next one: its first
    period plays the six notes once for each registered interval. *)
Theorem X26_alarm_overlap (st : Alarm.State) (msg : string) (k n : nat) :
  Alarm.quiet st ->
  Alarm.notifSounds st = true ->
  let after := Alarm.stopAlarm (Alarm.starts (S (S k)) msg st) in
  let again := Alarm.startAlarm msg true after in
  List.length (Alarm.intervals after) = S k
  /\ List.length (Alarm.contexts after) = S k
  /\ Alarm.alarmCtx after = None
  /\ Alarm.overlayHidden after = true
  /\ Alarm.periods n after = after
  /\ Alarm.alarmOscs again = 6%nat
  /\ Alarm.alarmOscs (Alarm.period again) = (6 + 6 * (k + 2))%nat.
Proof.
  intros Hq Hs. cbv zeta.
  assert (Hafter :
    Alarm.stopAlarm (Alarm.starts (S (S k)) msg st) =
    Alarm.mkState true None 0 None true msg
      (seq (Alarm.nextHandle st) (S k)) (Alarm.nextHandle st + S (S k))%nat
      (seq (Alarm.nextContext st) (S k)) (Alarm.nextContext st + S (S k))%nat).
  { rewrite (Alarm_starts (S k) msg st Hq Hs). unfold Alarm.stopAlarm.
    cbn [Alarm.notifSounds Alarm.alarmCtx Alarm.alarmOscs Alarm.alarmInterval
         Alarm.overlayHidden Alarm.message Alarm.intervals Alarm.nextHandle
         Alarm.contexts Alarm.nextContext].
    rewrite !filter_seq_last. reflexivity. }
  rewrite Hafter.
  cbn [Alarm.alarmCtx Alarm.overlayHidden Alarm.intervals Alarm.contexts].
  rewrite !length_seq.
  split; [reflexivity | split; [reflexivity | split; [reflexivity | ]]].
  split; [reflexivity | split; [apply Alarm_periods_silent; reflexivity | ]].
  unfold Alarm.startAlarm.
  cbn [Alarm.notifSounds Alarm.alarmCtx Alarm.alarmOscs Alarm.alarmInterval
       Alarm.overlayHidden Alarm.message Alarm.intervals Alarm.nextHandle
       Alarm.contexts Alarm.nextContext negb Alarm.showAlarmOverlay
       Alarm.playAlarmPattern].
  split; [reflexivity | ].
  rewrite Alarm_period.
  cbn [Alarm.notifSounds Alarm.alarmCtx Alarm.alarmOscs Alarm.alarmInterval
       Alarm.overlayHidden Alarm.message Alarm.intervals Alarm.nextHandle
       Alarm.contexts Alarm.nextContext].
  rewrite List.length_app, length_seq. simpl. lia.
Qed.

Lemma X26_alarm_overlap_witness :
  let st := Alarm.mkState true None 0 None true "" [] 1 [] 1 in
  List.length
    (Alarm.intervals (Alarm.stopAlarm (Alarm.starts 2 "Time's up!" st))) =
  1%nat.
Proof.
  intros st.
  apply (X26_alarm_overlap st "Time's up!" 0 0).
  - unfold Alarm.quiet. simpl. repeat split; reflexivity.
  - reflexivity.
Defined.
